(** * The Scheme style linter (linter.c): a shallow embedding and its properties

    The linter is a single-pass, line-oriented state machine.  This file
    embeds [linter.c] function by function:

    - C strings and [strncmp];
    - the operator table [INDENT_RULES] and [lookup_indent_rules];
    - [lookup_import_block], [correct_id_order], [correct_name_order];
    - [struct State], [fail], [lint_line], [lint] and [main].

    Conventions of the embedding.

    - A [char] buffer is a [list ascii]; the byte after the last element is
      the terminating NUL, so reading one past the end yields NUL.
    - [int] values are [Z].  The counters of [struct State] that the code
      steps with [++] and [--] go through [int_wrap] (32-bit two's
      complement).  Entries of [stack] are [uint8_t] and are reduced modulo
      256 when stored.  Lines are shorter than 2^31 bytes, so [(int)len] is
      the line's length.
    - [char] is signed (as on the x86-64 and arm64 macOS targets the
      repository builds on); [strncmp] compares as [unsigned char].
    - The stateful code runs in a small state-and-error monad [M] over a
      [World]: the [struct State] together with what was printed so far.
      A failed [assert] and an out-of-bounds array write are distinct
      outcomes, not silent no-ops. *)

From Stdlib Require Import ZArith List Ascii String Bool Lia DecimalString.
Import ListNotations.
Local Open Scope Z_scope.

Set Implicit Arguments.

(** ** Characters and C strings *)

Module C.

Definition NUL : ascii := "000"%char.
Definition TAB : ascii := "009"%char.
Definition NL : ascii := "010"%char.
Definition DQUOTE : ascii := "034"%char.

Infix "=c" := Ascii.eqb (at level 70, no associativity).

(** Value of a byte as [unsigned char] and as (signed) [char]. *)
Definition uchar (c : ascii) : Z := Z.of_N (N_of_ascii c).
Definition schar (c : ascii) : Z :=
  if uchar c <? 128 then uchar c else uchar c - 256.

(** [buf[i]]: past the end of the list lies the NUL terminator. *)
Definition char_at (buf : list ascii) (i : Z) : ascii :=
  nth (Z.to_nat i) buf NUL.

(** [buf + k] *)
Definition ptr_add (buf : list ascii) (k : Z) : list ascii :=
  skipn (Z.to_nat k) buf.

(** Conversion of an [int] to [size_t] (64 bits). *)
Definition size_t_of_int (n : Z) : nat := Z.to_nat (n mod 2 ^ 64).

(** 32-bit two's complement wrap-around of an [int]. *)
Definition int_wrap (z : Z) : Z := (z + 2 ^ 31) mod 2 ^ 32 - 2 ^ 31.
Definition int_incr (z : Z) : Z := int_wrap (z + 1).
Definition int_decr (z : Z) : Z := int_wrap (z - 1).

(** Conversion to [uint8_t]. *)
Definition uint8 (z : Z) : Z := z mod 256.

(** [strncmp(s1, s2, n)]: compares at most [n] bytes, as [unsigned char],
    and stops after a NUL. *)
Fixpoint strncmp (s1 s2 : list ascii) (n : nat) : Z :=
  match n with
  | O => 0
  | S n' =>
      let c1 := hd NUL s1 in
      let c2 := hd NUL s2 in
      if negb (c1 =c c2) then uchar c1 - uchar c2
      else if c1 =c NUL then 0
      else strncmp (tl s1) (tl s2) n'
  end.

(** The C string stored in a buffer: the bytes before the first NUL. *)
Fixpoint c_str (buf : list ascii) : list ascii :=
  match buf with
  | [] => []
  | c :: rest => if c =c NUL then [] else c :: c_str rest
  end.

(** The [len] bytes at [line + start], as copied by [strncpy] followed by a
    terminator, or printed by [%.*s]: cut at the first NUL. *)
Definition substr (line : list ascii) (start len : Z) : list ascii :=
  c_str (firstn (Z.to_nat len) (ptr_add line start)).

(** [printf("%d", n)] *)
Definition dec (n : Z) : string := NilZero.string_of_int (Z.to_int n).

(** A string literal as a byte buffer. *)
Definition lit (s : string) : list ascii := list_ascii_of_string s.

(** A source line: the text followed by the newline that [getline] keeps. *)
Definition ln (s : string) : list ascii := lit s ++ [NL].

End C.
Import C.

(** Maximum number of columns allowed by the style guide. *)
Definition MAX_COLUMNS : Z := 80.

(** Maximum paren nesting depth. *)
Definition MAX_DEPTH : Z := 64.

(** Skip alignment checks on lines ending with this comment. *)
Definition NO_ALIGN_COMMENT : list ascii := ln "; NOALIGN".

(** ** Indentation rules *)

(** [enum IndentRules]: bit flags. *)
Definition IR_DEFAULT : Z := 0.
Definition IR_SPECIAL : Z := 1.
Definition IR_WRAPPER : Z := 2.
Definition IR_UNIFORM : Z := 4.

(** Map from operator names to indentation rules, in source order. *)
Definition INDENT_RULES : list (string * Z) :=
  [ ("SICP", IR_WRAPPER);
    ("begin", Z.lor IR_SPECIAL IR_UNIFORM);
    ("cond", Z.lor IR_SPECIAL IR_UNIFORM);
    ("library", Z.lor IR_SPECIAL IR_WRAPPER);
    ("Chapter", IR_SPECIAL);
    ("Exercise", IR_SPECIAL);
    ("Section", IR_SPECIAL);
    ("case", IR_SPECIAL);
    ("define", IR_SPECIAL);
    ("define-record-type", IR_SPECIAL);
    ("define-syntax", IR_SPECIAL);
    ("lambda", IR_SPECIAL);
    ("let", IR_SPECIAL);
    ("let*", IR_SPECIAL);
    ("let-syntax", IR_SPECIAL);
    ("let-values", IR_SPECIAL);
    ("letrec", IR_SPECIAL);
    ("parameterize", IR_SPECIAL);
    ("syntax-case", IR_SPECIAL);
    ("syntax-rules", IR_SPECIAL);
    ("unless", IR_SPECIAL);
    ("when", IR_SPECIAL);
    ("with-mutex", IR_SPECIAL);
    ("with-syntax", IR_SPECIAL) ]%string.

(** The [for] loop of [lookup_indent_rules] over the remaining table
    entries; [s] is [line + start]. *)
Fixpoint scan_indent_rules (s : list ascii) (start len : Z)
    (table : list (string * Z)) : Z :=
  match table with
  | [] => IR_DEFAULT
  | (name, rules) :: rest =>
      if strncmp s (lit name) (size_t_of_int len) =? 0 then
        if negb (start =? 1) then Z.land rules (Z.lnot IR_WRAPPER)
        else rules
      else scan_indent_rules s start len rest
  end.

(** Looks up the indentation rules for the given operator. *)
Definition lookup_indent_rules (line : list ascii) (start len : Z) : Z :=
  scan_indent_rules (ptr_add line start) start len INDENT_RULES.

(** ** Import blocks *)

Inductive ImportBlock : Type := IB_NONE | IB_SEC | IB_USE | IB_ID.

(** [import_mode++] and [import_mode--] on the enumeration's values
    0, 1, 2, 3.  The code only increments below [IB_ID] and only decrements
    above [IB_NONE]. *)
Definition ib_succ (b : ImportBlock) : ImportBlock :=
  match b with
  | IB_NONE => IB_SEC
  | IB_SEC => IB_USE
  | IB_USE => IB_ID
  | IB_ID => IB_ID
  end.

Definition ib_pred (b : ImportBlock) : ImportBlock :=
  match b with
  | IB_NONE => IB_NONE
  | IB_SEC => IB_NONE
  | IB_USE => IB_SEC
  | IB_ID => IB_USE
  end.

Definition ib_eqb (a b : ImportBlock) : bool :=
  match a, b with
  | IB_NONE, IB_NONE | IB_SEC, IB_SEC | IB_USE, IB_USE | IB_ID, IB_ID => true
  | _, _ => false
  end.

(** Looks up the import block for the given operator.  Never returns
    [IB_ID]. *)
Definition lookup_import_block (line : list ascii) (start len : Z)
    : ImportBlock :=
  let s := ptr_add line start in
  let n := size_t_of_int len in
  if (start =? 1)
     && ((strncmp s (lit "Chapter") n =? 0)
         || (strncmp s (lit "Section") n =? 0)
         || (strncmp s (lit "Exercise") n =? 0))
  then IB_SEC
  else if (start =? 3) && (strncmp s (lit "use") n =? 0) then IB_USE
  else IB_NONE.

(** ** Ordering comparators *)

Definition DOT : ascii := "."%char.

(** The code after the loop of [correct_id_order], reached with index
    [i = j] and the remembered difference [cmp]. *)
Definition id_order_end (prev line : list ascii) (start len i cmp : Z)
    : bool :=
  let ei := char_at prev i =c NUL in
  let ej := i =? len in
  let ci := if ei then DOT else char_at prev i in
  let cj := if ej then DOT else char_at line (start + i) in
  if (ci =c DOT) && (cj =c DOT) && negb (cmp =? 0) then cmp <? 0
  else ei.

(** The loop of [correct_id_order]; [n] counts the iterations that
    [j < len] still allows, so the loop test [j < len] is [n <> 0]. *)
Fixpoint id_order_loop (n : nat) (prev line : list ascii)
    (start len i cmp : Z) : bool :=
  match n with
  | O => id_order_end prev line start len i cmp
  | S n' =>
      if char_at prev i =c NUL then id_order_end prev line start len i cmp
      else
        let ci := char_at prev i in
        let cj := char_at line (start + i) in
        if (i =? 0) && negb (ci =c cj) then schar ci <? schar cj
        else if (ci =c DOT) && (cj =c DOT) then
          if negb (cmp =? 0) then cmp <? 0
          else id_order_loop n' prev line start len (i + 1) 0
        else if ci =c DOT then false
        else if cj =c DOT then true
        else
          id_order_loop n' prev line start len (i + 1)
            (if cmp =? 0 then schar ci - schar cj else cmp)
  end.

(** Returns true if the Chapter/Section/Exercise ids [prev]
    (null-terminated) and current (substring of [line]) are ordered
    correctly. *)
Definition correct_id_order (prev line : list ascii) (start len : Z)
    : bool :=
  id_order_loop (Z.to_nat len) prev line start len 0 0.

(** Returns true if the import names [prev] (null-terminated) and current
    (substring of [line]) are ordered correctly. *)
Definition correct_name_order (prev line : list ascii) (start len : Z)
    : bool :=
  strncmp prev (ptr_add line start) (size_t_of_int len) <? 0.

(** ** Linter state *)

(** [struct State].  The two name buffers hold C strings and are only read
    as such, so each is modelled by its contents before the terminator. *)
Record State : Type := mkState {
  filename : string;
  lineno : Z;
  status : Z;
  prev_blanks : Z;
  in_string : bool;
  num_wrappers : Z;
  quoted_align : Z;
  depth : Z;
  stack : list Z;
  import_mode : ImportBlock;
  last_import_id : list ascii;
  last_import_name : list ascii
}.

Definition set_lineno (v : Z) (s : State) : State :=
  mkState (filename s) v (status s) (prev_blanks s) (in_string s)
    (num_wrappers s) (quoted_align s) (depth s) (stack s) (import_mode s)
    (last_import_id s) (last_import_name s).
Definition set_status (v : Z) (s : State) : State :=
  mkState (filename s) (lineno s) v (prev_blanks s) (in_string s)
    (num_wrappers s) (quoted_align s) (depth s) (stack s) (import_mode s)
    (last_import_id s) (last_import_name s).
Definition set_prev_blanks (v : Z) (s : State) : State :=
  mkState (filename s) (lineno s) (status s) v (in_string s)
    (num_wrappers s) (quoted_align s) (depth s) (stack s) (import_mode s)
    (last_import_id s) (last_import_name s).
Definition set_in_string (v : bool) (s : State) : State :=
  mkState (filename s) (lineno s) (status s) (prev_blanks s) v
    (num_wrappers s) (quoted_align s) (depth s) (stack s) (import_mode s)
    (last_import_id s) (last_import_name s).
Definition set_num_wrappers (v : Z) (s : State) : State :=
  mkState (filename s) (lineno s) (status s) (prev_blanks s) (in_string s)
    v (quoted_align s) (depth s) (stack s) (import_mode s)
    (last_import_id s) (last_import_name s).
Definition set_quoted_align (v : Z) (s : State) : State :=
  mkState (filename s) (lineno s) (status s) (prev_blanks s) (in_string s)
    (num_wrappers s) v (depth s) (stack s) (import_mode s)
    (last_import_id s) (last_import_name s).
Definition set_depth (v : Z) (s : State) : State :=
  mkState (filename s) (lineno s) (status s) (prev_blanks s) (in_string s)
    (num_wrappers s) (quoted_align s) v (stack s) (import_mode s)
    (last_import_id s) (last_import_name s).
Definition set_stack (v : list Z) (s : State) : State :=
  mkState (filename s) (lineno s) (status s) (prev_blanks s) (in_string s)
    (num_wrappers s) (quoted_align s) (depth s) v (import_mode s)
    (last_import_id s) (last_import_name s).
Definition set_import_mode (v : ImportBlock) (s : State) : State :=
  mkState (filename s) (lineno s) (status s) (prev_blanks s) (in_string s)
    (num_wrappers s) (quoted_align s) (depth s) (stack s) v
    (last_import_id s) (last_import_name s).
Definition set_last_import_id (v : list ascii) (s : State) : State :=
  mkState (filename s) (lineno s) (status s) (prev_blanks s) (in_string s)
    (num_wrappers s) (quoted_align s) (depth s) (stack s) (import_mode s)
    v (last_import_name s).
Definition set_last_import_name (v : list ascii) (s : State) : State :=
  mkState (filename s) (lineno s) (status s) (prev_blanks s) (in_string s)
    (num_wrappers s) (quoted_align s) (depth s) (stack s) (import_mode s)
    (last_import_id s) v.

(** One line written by [fail]: [<filename>:<line>:<column>: <message>],
    with the column already one-based. *)
Record Diagnostic : Type := mkDiag {
  d_file : string;
  d_line : Z;
  d_column : Z;
  d_message : string
}.

Definition render (d : Diagnostic) : string :=
  (d_file d ++ ":" ++ dec (d_line d) ++ ":" ++ dec (d_column d) ++ ": "
   ++ d_message d)%string.

(** The linter state together with standard output so far. *)
Record World : Type := mkWorld {
  st : State;
  printed : list Diagnostic
}.

(** ** The monad of [lint_line] *)

Inductive outcome (A : Type) : Type :=
| Done (a : A)
| AssertionFailed
| OutOfBounds.

Arguments AssertionFailed {A}.
Arguments OutOfBounds {A}.

Definition M (A : Type) : Type := World -> outcome (A * World).

Definition ret {A : Type} (a : A) : M A := fun w => Done (a, w).

Definition bind {A B : Type} (m : M A) (k : A -> M B) : M B :=
  fun w =>
    match m w with
    | Done (a, w') => k a w'
    | AssertionFailed => AssertionFailed
    | OutOfBounds => OutOfBounds
    end.

Notation "x <- m ;; k" := (bind m (fun x => k))
  (at level 61, m at next level, right associativity).
Notation "m ;; k" := (bind m (fun _ => k))
  (at level 61, right associativity).

Definition get : M State := fun w => Done (st w, w).

Definition modify (f : State -> State) : M unit :=
  fun w => Done (tt, mkWorld (f (st w)) (printed w)).

(** [assert(b)] *)
Definition assert (b : bool) : M unit :=
  fun w => if b then Done (tt, w) else AssertionFailed.

Definition when (b : bool) (m : M unit) : M unit :=
  if b then m else ret tt.

(** Emits a failure message for the current line given a zero-based column
    and the formatted message, and sets [status] to 1. *)
Definition fail (column : Z) (message : string) : M unit :=
  fun w =>
    let s := st w in
    Done (tt, mkWorld (set_status 1 s)
                (printed w
                 ++ [mkDiag (filename s) (lineno s) (column + 1) message])).

(** *** The alignment stack: [uint8_t stack[MAX_DEPTH]] *)

Fixpoint list_set (l : list Z) (n : nat) (v : Z) : list Z :=
  match l, n with
  | [], _ => []
  | _ :: t, O => v :: t
  | h :: t, S n' => h :: list_set t n' v
  end.

Definition in_stack (n : Z) : bool := (0 <=? n) && (n <? MAX_DEPTH).

(** [state->stack[n]] *)
Definition stack_get (n : Z) : M Z :=
  fun w =>
    if in_stack n then Done (nth (Z.to_nat n) (stack (st w)) 0, w)
    else OutOfBounds.

(** [state->stack[n] = v] *)
Definition stack_put (n v : Z) : M unit :=
  fun w =>
    if in_stack n then
      Done (tt, mkWorld (set_stack (list_set (stack (st w)) (Z.to_nat n)
                                      (uint8 v)) (st w))
                  (printed w))
    else OutOfBounds.

(** [strncpy(buf, line + start, len); buf[len] = '\0';] into one of the
    [char buf[MAX_COLUMNS]] fields. *)
Definition store_name (set : list ascii -> State -> State)
    (line : list ascii) (start len : Z) : M unit :=
  fun w =>
    if (0 <=? len) && (len <? MAX_COLUMNS) then
      Done (tt, mkWorld (set (substr line start len) (st w)) (printed w))
    else OutOfBounds.

Definition text (s : list ascii) : string := string_of_list_ascii s.

(** ** The per-line scanner *)

(** The scanning mode of [lint_line]. *)
Inductive Mode : Type :=
| INDENT | NORMAL | OPERATOR | STRING | COMMENT | COMMENT_SPACE.

(** The local variables of the character loop of [lint_line]. *)
Record Locals : Type := mkLocals {
  prev : ascii;          (* previous character *)
  escaped : bool;        (* last character was unescaped backslash *)
  two_spaces : bool;     (* saw two spaces in a row *)
  word_start : Z;        (* start of the last word *)
  mode : Mode
}.

Definition set_mode (m : Mode) (l : Locals) : Locals :=
  mkLocals (prev l) (escaped l) (two_spaces l) (word_start l) m.
Definition set_two_spaces (b : bool) (l : Locals) : Locals :=
  mkLocals (prev l) (escaped l) b (word_start l) (mode l).

Definition has_flag (rules flag : Z) : bool := negb (Z.land rules flag =? 0).

(** [case INDENT], after the test [c == ' ']: the indentation check. *)
Definition check_indent (no_align : bool) (i : Z) : M unit :=
  if no_align then ret tt
  else
    s <- get ;;
    top <- stack_get (depth s) ;;
    if negb (i =? top) then
      if (i =? 0) && (depth s =? num_wrappers s) then
        (* Returning to zero indentation after wrapper opening. *)
        stack_put (depth s) 0
      else if i =? quoted_align s then
        (* Quoted form is data, not code. *)
        stack_put (depth s) (quoted_align s) ;;
        modify (set_quoted_align (-1))
      else fail i "incorrect indentation"
    else ret tt.

(** The characters allowed before an opening delimiter. *)
Definition before_open_ok (p : ascii) : bool :=
  (p =c " ") || (p =c "#") || (p =c "'") || (p =c "(") || (p =c ",")
  || (p =c "@") || (p =c "[") || (p =c "`").

(** [case '(': case '['] *)
Definition open_paren (i : Z) (l : Locals) : M Locals :=
  modify (fun s => set_depth (int_incr (depth s)) s) ;;
  s <- get ;;
  stack_put (depth s) (i + 1) ;;
  when ((i >? 0) && negb (before_open_ok (prev l)))
    (fail i "expected space before '('") ;;
  modify (fun s =>
    set_quoted_align
      (if (prev l =c "'")
          || (negb (quoted_align s =? -1)
              && ((prev l =c "(") || (prev l =c "[")))
       then i + 1 else -1) s) ;;
  ret (set_mode OPERATOR l).

(** The import-name check shared by [case ')'] and [case ' '], on the word
    from [word_start] to [i]. *)
Definition check_name_order (line : list ascii) (start len : Z) : M unit :=
  s <- get ;;
  when (negb (correct_name_order (last_import_name s) line start len))
    (fail start
       ("incorrect import name ordering: " ++ text (last_import_name s)
        ++ " > " ++ text (substr line start len))).

(** [case ')': case ']'] *)
Definition close_paren (line : list ascii) (i : Z) (l : Locals)
    : M Locals :=
  s <- get ;;
  when (negb (i =? 0) && (depth s =? num_wrappers s))
    (fail i "expected ')' at start of line for wrapper") ;;
  when (prev l =c " ") (fail i "unexpected space before ')'") ;;
  modify (fun s => set_depth (int_decr (depth s)) s) ;;
  when (negb (ib_eqb (import_mode s) IB_NONE))
    (match import_mode s with
     | IB_ID =>
         check_name_order line (word_start l) (i - word_start l) ;;
         modify (set_last_import_name [])
     | IB_USE => modify (set_last_import_id [])
     | _ => ret tt
     end ;;
     modify (fun s => set_import_mode (ib_pred (import_mode s)) s)) ;;
  ret (set_mode NORMAL l).

(** [case ' ': case '\n'] with [mode == OPERATOR]: the operator token from
    [stack[depth]] to [i] is complete. *)
Definition classify_operator (line : list ascii) (i : Z) (c : ascii)
    : M unit :=
  s <- get ;;
  start <- stack_get (depth s) ;;
  let len := i - start in
  let rules := lookup_indent_rules line start len in
  when (has_flag rules IR_WRAPPER)
    (modify (fun s => set_num_wrappers (int_incr (num_wrappers s)) s)) ;;
  (if c =c " " then
     if has_flag rules IR_SPECIAL && negb (has_flag rules IR_UNIFORM)
     then stack_put (depth s) (start + 1)
     else stack_put (depth s) (i + 1)
   else when (has_flag rules IR_SPECIAL) (stack_put (depth s) (start + 1))) ;;
  let block := lookup_import_block line start len in
  match import_mode s with
  | IB_NONE =>
      when (ib_eqb block IB_SEC)
        (modify (fun s => set_import_mode (ib_succ (import_mode s)) s))
  | IB_SEC =>
      when (ib_eqb block IB_USE)
        (modify (fun s => set_import_mode (ib_succ (import_mode s)) s))
  | IB_USE =>
      modify (fun s => set_import_mode (ib_succ (import_mode s)) s) ;;
      when (negb (correct_id_order (last_import_id s) line start len))
        (fail start
           ("incorrect import id ordering: " ++ text (last_import_id s)
            ++ " > " ++ text (substr line start len))) ;;
      store_name set_last_import_id line start len
  | IB_ID => ret tt
  end.

(** [case ' ': case '\n'] *)
Definition space_or_newline (line : list ascii) (i : Z) (c : ascii)
    (l : Locals) : M Locals :=
  let l := if (c =c " ") && (prev l =c " ") then set_two_spaces true l
           else l in
  match mode l with
  | OPERATOR =>
      classify_operator line i c ;;
      ret (set_mode NORMAL l)
  | _ =>
      s <- get ;;
      when (ib_eqb (import_mode s) IB_ID)
        (check_name_order line (word_start l) (i - word_start l) ;;
         store_name set_last_import_name line (word_start l)
           (i - word_start l)) ;;
      ret l
  end.

(** [case NORMAL: case OPERATOR], also reached from [case INDENT]. *)
Definition code_char (line : list ascii) (i : Z) (c : ascii) (l : Locals)
    : M Locals :=
  let flagged := two_spaces l && negb (c =c " ") && negb (c =c ";") in
  when flagged (fail i "unexpected two spaces in a row") ;;
  let l := if flagged then set_two_spaces false l else l in
  if c =c DQUOTE then
    modify (set_in_string true) ;;
    ret (set_mode STRING l)
  else if c =c ";" then
    when (negb (prev l =c " ")) (fail i "expected space before ';'") ;;
    ret (set_mode COMMENT l)
  else if (c =c "(") || (c =c "[") then open_paren i l
  else if (c =c ")") || (c =c "]") then close_paren line i l
  else if (c =c " ") || (c =c NL) then space_or_newline line i c l
  else ret l.

(** The statements after the [switch]: bookkeeping of the loop locals. *)
Definition after_switch (i : Z) (c : ascii) (l : Locals) : Locals :=
  mkLocals c
    (if c =c "\" then negb (escaped l) else false)
    (two_spaces l)
    (match mode l with
     | NORMAL => if (prev l =c " ") && negb (c =c " ") then i
                 else word_start l
     | _ => word_start l
     end)
    (mode l).

(** One iteration of the character loop.  [None] is the [return] of the
    comment cases; [Some l] continues with the locals [l]. *)
Definition scan_char (line : list ascii) (no_align : bool) (i : Z)
    (l : Locals) : M (option Locals) :=
  let c := char_at line i in
  when (c =c TAB) (fail i "illegal character '\t'") ;;
  r <- match mode l with
       | INDENT =>
           if c =c " " then ret (Some l)
           else
             check_indent no_align i ;;
             l' <- code_char line i c (set_mode NORMAL l) ;;
             ret (Some l')
       | NORMAL | OPERATOR =>
           l' <- code_char line i c l ;;
           ret (Some l')
       | STRING =>
           if negb (escaped l) && (c =c DQUOTE) then
             modify (set_in_string false) ;;
             ret (Some (set_mode NORMAL l))
           else ret (Some l)
       | COMMENT =>
           if c =c ";" then ret (Some (set_mode COMMENT_SPACE l))
           else
             when (negb (c =c " ")) (fail i "expected space after ';'") ;;
             ret None
       | COMMENT_SPACE =>
           when (negb (c =c " ")) (fail i "expected space after ';'") ;;
           ret None
       end ;;
  match r with
  | None => ret None
  | Some l' => ret (Some (after_switch i c l'))
  end.

(** [for (int i = 0; i < line_len; i++)]: [n] is [line_len - i]. *)
Fixpoint scan (n : nat) (line : list ascii) (no_align : bool) (i : Z)
    (l : Locals) : M unit :=
  match n with
  | O => ret tt
  | S n' =>
      r <- scan_char line no_align i l ;;
      match r with
      | None => ret tt
      | Some l' => scan n' line no_align (i + 1) l'
      end
  end.

(** [for (i = 1; line[i] == ';'; i++);] counts the semicolons at [s];
    the loop stops at the latest at the terminator. *)
Fixpoint semicolons (s : list ascii) : Z :=
  match s with
  | [] => 0
  | c :: rest => if c =c ";" then 1 + semicolons rest else 0
  end.

(** Step 1 for a line that starts with a semicolon. *)
Definition comment_line (line : list ascii) : M unit :=
  s <- get ;;
  let i := 1 + semicolons (ptr_add line 1) in
  (if i >? 3 then fail 0 "too many semicolons"
   else when ((i =? 3) && negb (lineno s =? 1))
          (fail 0 "';;;' only allowed on first line copyright")) ;;
  when (negb (char_at line i =c NL) && negb (char_at line i =c " "))
    (fail i "missing space after ';'").

(** Lints the given line, which must be nonempty and end with a newline. *)
Definition lint_line (line : list ascii) : M unit :=
  let line_len := Z.of_nat (List.length line) in
  assert (line_len >? 0) ;;
  assert (char_at line (line_len - 1) =c NL) ;;
  s <- get ;;
  assert (depth s >=? 0) ;;
  assert (depth s <? MAX_DEPTH) ;;
  (* Step 1. Check basic line length, whitespace, and comments. *)
  if line_len =? 1 then
    when (negb (in_string s) && (prev_blanks s =? 1))
      (fail 0 "multiple blank lines") ;;
    modify (fun s => set_prev_blanks (int_incr (prev_blanks s)) s)
  else
    modify (set_prev_blanks 0) ;;
    when (line_len - 1 >? MAX_COLUMNS)
      (fail (MAX_COLUMNS - 1)
         ("line too long: " ++ dec line_len ++ " > " ++ dec MAX_COLUMNS)) ;;
    when (char_at line (line_len - 2) =c " ")
      (fail (line_len - 2) "trailing whitespace") ;;
    if char_at line 0 =c ";" then comment_line line
    else
      (* Step 2. Check spacing, alignment, and import ordering. *)
      let na_len := Z.of_nat (List.length NO_ALIGN_COMMENT) in
      let no_align :=
        (line_len >=? na_len)
        && (strncmp (ptr_add line (line_len - na_len)) NO_ALIGN_COMMENT
              (Z.to_nat na_len) =? 0) in
      scan (List.length line) line no_align 0
        (mkLocals NUL false false 0
           (if in_string s then STRING else INDENT)).

(** ** The per-file driver and [main] *)

(** The lines [getline] returns for a file's bytes: each line keeps its
    newline; a last line without one is returned as it is.  [cur] holds the
    current line's bytes so far, in reverse. *)
Fixpoint getlines_from (cur bytes : list ascii) : list (list ascii) :=
  match bytes with
  | [] => match cur with [] => [] | _ => [rev cur] end
  | c :: rest =>
      if c =c NL then rev (c :: cur) :: getlines_from [] rest
      else getlines_from (c :: cur) rest
  end.

Definition getlines (bytes : list ascii) : list (list ascii) :=
  getlines_from [] bytes.

(** The initializer of [struct State] in [lint]. *)
Definition initial_state (name : string) : State :=
  mkState name 1 0 0 false 0 0 0 (repeat 0 (Z.to_nat MAX_DEPTH)) IB_NONE
    [] [].

(** The [while] loop of [lint]. *)
Fixpoint lint_lines (lines : list (list ascii)) : M unit :=
  match lines with
  | [] => ret tt
  | line :: rest =>
      lint_line line ;;
      modify (fun s => set_lineno (int_incr (lineno s)) s) ;;
      lint_lines rest
  end.

(** The files [fopen] can open, with their bytes. *)
Definition FileSystem : Type := string -> option (list ascii).

(** What the process writes: diagnostics and the usage line on standard
    output, [perror] on standard error. *)
Inductive Event : Type :=
| Printed (d : Diagnostic)
| UsageLine (prog : string)
| Perror (name : string).

(** Reads and lints the given file; returns its status. *)
Definition lint (fs : FileSystem) (name : string)
    : outcome (Z * list Event) :=
  match fs name with
  | None => Done (1, [Perror name])
  | Some bytes =>
      match lint_lines (getlines bytes) (mkWorld (initial_state name) []) with
      | Done (_, w) => Done (status (st w), map Printed (printed w))
      | AssertionFailed => AssertionFailed
      | OutOfBounds => OutOfBounds
      end
  end.

(** The loop of [main] over [argv[1..]], with the accumulated status. *)
Fixpoint lint_files (fs : FileSystem) (files : list string) (acc : Z)
    (out : list Event) : outcome (Z * list Event) :=
  match files with
  | [] => Done (acc, out)
  | f :: rest =>
      match lint fs f with
      | Done (r, o) => lint_files fs rest (Z.lor acc r) (out ++ o)
      | AssertionFailed => AssertionFailed
      | OutOfBounds => OutOfBounds
      end
  end.

(** [main], for [argv = prog :: files]: the exit status and the output. *)
Definition main (fs : FileSystem) (prog : string) (files : list string)
    : outcome (Z * list Event) :=
  match files with
  | [] => Done (0, [UsageLine prog])
  | _ => lint_files fs files 0 []
  end.

(** Linting the given lines from the initial state of a file. *)
Definition run_world (lines : list (list ascii)) :=
  lint_lines lines (mkWorld (initial_state "f.ss") []).

(** What a run printed and where it ended, for stating results. *)
Definition printed_of (r : outcome (unit * World)) : option (list Diagnostic) :=
  match r with
  | Done (_, w) => Some (printed w)
  | _ => None
  end.

Definition state_of (r : outcome (unit * World)) : option State :=
  match r with
  | Done (_, w) => Some (st w)
  | _ => None
  end.

(** * Vocabulary of the properties

    Predicates, projections and sample inputs the statements below use. *)

(** The effect of one blank line on the world, once the assertions pass. *)
Definition after_blank (w : World) : World :=
  let s := st w in
  if negb (in_string s) && (prev_blanks s =? 1) then
    mkWorld (set_prev_blanks (int_incr (prev_blanks s)) (set_status 1 s))
      (printed w ++ [mkDiag (filename s) (lineno s) 1 "multiple blank lines"])
  else
    mkWorld (set_prev_blanks (int_incr (prev_blanks s)) s) (printed w).

(** A blank line and the driver's [lineno++]. *)
Definition next_line (w : World) : World :=
  mkWorld (set_lineno (int_incr (lineno (st w))) (st w)) (printed w).

(** [preserves P m]: when [m] runs to completion from a world in [P], it
    ends in a world in [P]. *)
Definition preserves {A : Type} (P : World -> Prop) (m : M A) : Prop :=
  forall w, P w ->
    match m w with
    | Done (_, w') => P w'
    | _ => True
    end.

(** [P] is kept by [fail] and by every assignment of [scan_char] outside
    the counters [num_wrappers], [prev_blanks] and [lineno]. *)
Record frame (P : World -> Prop) : Prop := mkFrame {
  frame_fail : forall w col msg,
    P w ->
    P (mkWorld (set_status 1 (st w))
         (printed w
          ++ [mkDiag (filename (st w)) (lineno (st w)) (col + 1) msg]));
  frame_in_string : forall w v,
    P w -> P (mkWorld (set_in_string v (st w)) (printed w));
  frame_quoted_align : forall w v,
    P w -> P (mkWorld (set_quoted_align v (st w)) (printed w));
  frame_depth : forall w v,
    P w -> P (mkWorld (set_depth v (st w)) (printed w));
  frame_stack : forall w v,
    P w -> P (mkWorld (set_stack v (st w)) (printed w));
  frame_import_mode : forall w v,
    P w -> P (mkWorld (set_import_mode v (st w)) (printed w));
  frame_last_import_id : forall w v,
    P w -> P (mkWorld (set_last_import_id v (st w)) (printed w));
  frame_last_import_name : forall w v,
    P w -> P (mkWorld (set_last_import_name v (st w)) (printed w))
}.

(** [status] is 1 exactly when something was printed, and 0 before. *)
Definition consistent (w : World) : Prop :=
  (status (st w) = 0 /\ printed w = [])
  \/ (status (st w) = 1 /\ printed w <> []).

(** A file passed all checks: it was opened and nothing was printed. *)
Definition passed (fs : FileSystem) (name : string) : Prop :=
  lint fs name = Done (0, []).

(** A file had a content violation: linting it printed a diagnostic. *)
Definition violated (fs : FileSystem) (name : string) : Prop :=
  exists r d evs, lint fs name = Done (r, Printed d :: evs).

Definition unopenable (fs : FileSystem) (name : string) : Prop :=
  fs name = None.

(** The per-file results [main] combines. *)
Definition file_status (fs : FileSystem) (name : string) : Z :=
  match lint fs name with
  | Done (r, _) => r
  | _ => 0
  end.

Definition file_output (fs : FileSystem) (name : string) : list Event :=
  match lint fs name with
  | Done (_, o) => o
  | _ => []
  end.

Definition demo_fs : FileSystem :=
  fun name =>
    if String.eqb name "clean.ss"%string then Some (ln "(define x 1)")
    else if String.eqb name "bad.ss"%string then Some (ln "x ")
    else None.

(** A file system with one file, whose first line is an unmatched closing
    delimiter; every other name cannot be opened. *)
Definition crash_fs : FileSystem :=
  fun name =>
    if String.eqb name "crash.ss"%string then Some (ln ")" ++ ln "x")
    else None.

Definition demo_files : list string := ["clean.ss"; "bad.ss"]%string.

(** What Step 1 of [lint_line] prints for a line that starts with a
    semicolon. *)
Definition comment_line_diags (s : State) (line : list ascii)
    : list Diagnostic :=
  let line_len := Z.of_nat (List.length line) in
  let i := 1 + semicolons (ptr_add line 1) in
  let d := mkDiag (filename s) (lineno s) in
  (if line_len - 1 >? MAX_COLUMNS then
     [d (MAX_COLUMNS - 1 + 1)
        ("line too long: " ++ dec line_len ++ " > " ++ dec MAX_COLUMNS)%string]
   else [])
  ++ (if char_at line (line_len - 2) =c " " then
        [d (line_len - 2 + 1) "trailing whitespace"%string]
      else [])
  ++ (if i >? 3 then [d 1 "too many semicolons"%string]
      else if (i =? 3) && negb (lineno s =? 1) then
        [d 1 "';;;' only allowed on first line copyright"%string]
      else [])
  ++ (if negb (char_at line i =c NL) && negb (char_at line i =c " ") then
        [d (i + 1) "missing space after ';'"%string]
      else []).

(** [finishes m w Q]: from [w], [m] runs to completion and ends with a result
    and a world in [Q]. *)
Definition finishes {A : Type} (m : M A) (w : World) (Q : A -> World -> Prop)
    : Prop :=
  match m w with
  | Done (a, w') => Q a w'
  | _ => False
  end.

Definition name_order_message (a b : list ascii) : string :=
  ("incorrect import name ordering: " ++ text a ++ " > " ++ text b)%string.

(** A world inside [(Exercise ?1.1 (use (:1.2 foo ...]: the ID block is
    open at depth 3 and [foo] or [:1.2] is the stored name or id. *)
Definition in_id_block : World :=
  mkWorld (mkState "f.ss" 2 0 0 false 0 (-1) 3
             (list_set (repeat 0 64) 3 13) IB_ID (lit ":1.2") (lit "foo"))
    [].

(** Whether the scanner step at index [i] classifies an operator that
    carries the WRAPPER flag. *)
Definition classifies_wrapper (line : list ascii) (i : Z) (l : Locals)
    (s : State) : bool :=
  match mode l with
  | OPERATOR =>
      let c := char_at line i in
      let start := nth (Z.to_nat (depth s)) (stack s) 0 in
      ((c =c " ") || (c =c NL))
      && has_flag (lookup_indent_rules line start (i - start)) IR_WRAPPER
  | _ => false
  end.

(** The world after the [(] of a top-level [(SICP]: depth 1, with the
    operator expected at column 1. *)
Definition after_open_paren : World :=
  mkWorld (mkState "f.ss" 1 0 0 false 0 (-1) 1
             (list_set (repeat 0 64) 1 1) IB_NONE [] [])
    [].

Definition wrapper_form : list (list ascii) := [ln "(SICP"; ln "x"; ln ")"].

(** A [define] inside a [library] wrapper, laid out as the comment on
    IR_WRAPPER asks: the wrapper's contents are not indented. *)
Definition define_in_library : list (list ascii) :=
  [ln "(library (foo)"; ln "(define (f)"; ln "  x)"; ln ")"].

(** The same [define], after an inner wrapper form that is already
    closed. *)
Definition define_after_inner_wrapper : list (list ascii) :=
  [ln "(library (foo)"; ln "(SICP"; ln "x"; ln ")"; ln "(define (f)";
   ln "  x)"; ln ")"].

Definition line_of_81_columns : list ascii := repeat "a"%char 81 ++ [NL].

Definition string_opening_line : list ascii :=
  lit "(display " ++ [DQUOTE] ++ ln "abc".

Definition string_closing_line : list ascii :=
  lit ";x" ++ [DQUOTE] ++ ln ")".

Definition string_closing_line' : list ascii :=
  lit "x;y" ++ [DQUOTE] ++ ln ")".

(** A diagnostic of line [n] of file [f]. *)
Definition on_line (f : string) (n : Z) (d : Diagnostic) : Prop :=
  d_file d = f /\ d_line d = n.

(** The invariant behind [lint_line]'s output: the file name and line
    number stay, and what is printed after [base] is on that line. *)
Definition printing_line (f : string) (n : Z) (base : list Diagnostic)
    (w : World) : Prop :=
  filename (st w) = f /\ lineno (st w) = n
  /\ exists ds, printed w = base ++ ds /\ Forall (on_line f n) ds.

(** A line as [getline] returns it before the end of the file: its only
    newline is its last byte. *)
Definition terminated (l : list ascii) : Prop :=
  exists body, l = body ++ [NL] /\ ~ In NL body.

(** The rest of a file that does not end with a newline. *)
Definition unterminated (l : list ascii) : Prop :=
  l <> [] /\ ~ In NL l.

(** Lines that are all terminated, except possibly the last one. *)
Fixpoint well_split (ls : list (list ascii)) : Prop :=
  match ls with
  | [] => True
  | l :: rest =>
      (terminated l /\ well_split rest) \/ (unterminated l /\ rest = [])
  end.

(** Diagnostics in the order of their lines. *)
Fixpoint lines_ascend (ds : list Diagnostic) : Prop :=
  match ds with
  | [] => True
  | d :: rest =>
      Forall (fun e => d_line d <= d_line e) rest /\ lines_ascend rest
  end.

(** Diagnostics of file [f] with line numbers from [lo] up to, not
    including, [hi]. *)
Definition in_lines (f : string) (lo hi : Z) (d : Diagnostic) : Prop :=
  d_file d = f /\ lo <= d_line d < hi.

(** Strict lexicographic order on byte strings, bytes compared as
    [unsigned char]; a proper prefix comes first. *)
Fixpoint lex_lt (a b : list ascii) : bool :=
  match a, b with
  | _, [] => false
  | [], _ :: _ => true
  | x :: a', y :: b' =>
      if uchar x <? uchar y then true
      else if uchar y <? uchar x then false
      else lex_lt a' b'
  end.

(** Segments of equal length in order: the first position where they
    differ decides, characters compared as [char]. *)
Fixpoint seg_le (a b : list ascii) : bool :=
  match a, b with
  | x :: a', y :: b' => if x =c y then seg_le a' b' else schar x <? schar y
  | _, _ => true
  end.

(** Order of two last segments: the shorter one first (for numbers without
    leading zeros, the one with fewer digits), then [seg_le]. *)
Definition last_segment_le (a b : list ascii) : bool :=
  if (List.length a <? List.length b)%nat then true
  else if (List.length b <? List.length a)%nat then false
  else seg_le a b.

(** What the loop of [correct_id_order] and the code after it compute on
    two last segments [a] and [b], entered with the difference [cmp]. *)
Fixpoint seg_result (a b : list ascii) (cmp : Z) : bool :=
  match a, b with
  | [], [] => if cmp =? 0 then true else cmp <? 0
  | [], _ :: _ => true
  | _ :: _, [] => false
  | x :: a', y :: b' =>
      seg_result a' b' (if cmp =? 0 then schar x - schar y else cmp)
  end.

(** [holds m w Q]: if [m] runs to completion from [w], it ends with a
    result and a world in [Q]. *)
Definition holds {A : Type} (m : M A) (w : World) (Q : A -> World -> Prop)
    : Prop :=
  match m w with
  | Done (a, w') => Q a w'
  | _ => True
  end.

(** The modes in which a character is scanned as code. *)
Definition in_code (l : Locals) : bool :=
  match mode l with
  | INDENT | NORMAL | OPERATOR => true
  | _ => false
  end.

(** [depth] after the scanner step on character [c]. *)
Definition depth_after (c : ascii) (l : Locals) (d : Z) : Z :=
  if in_code l && ((c =c "(") || (c =c "[")) then int_incr d
  else if in_code l && ((c =c ")") || (c =c "]")) then int_decr d
  else d.

(** A character none of the scanner's tests singles out. *)
Definition plain_char (c : ascii) : Prop :=
  (c =c TAB) = false /\ (c =c DQUOTE) = false /\ (c =c ";") = false
  /\ (c =c "(") = false /\ (c =c "[") = false /\ (c =c ")") = false
  /\ (c =c "]") = false /\ (c =c " ") = false /\ (c =c NL) = false.

(** [in_string] after the scanner step on character [c]. *)
Definition in_string_after (c : ascii) (l : Locals) (b : bool) : bool :=
  match mode l with
  | STRING => if negb (escaped l) && (c =c DQUOTE) then false else b
  | COMMENT | COMMENT_SPACE => b
  | _ => if c =c DQUOTE then true else b
  end.

(** The four delimiters. *)
Definition delimiter (c : ascii) : bool :=
  (c =c "(") || (c =c "[") || (c =c ")") || (c =c "]").

(** The three fields that only delimiters and operators change. *)
Definition same_nesting (w w' : World) : Prop :=
  depth (st w') = depth (st w)
  /\ import_mode (st w') = import_mode (st w)
  /\ num_wrappers (st w') = num_wrappers (st w).

(** The messages a line inside a string can get. *)
Definition string_line_message (msg : string) : Prop :=
  msg = "trailing whitespace"%string
  \/ msg = "illegal character '\t'"%string
  \/ exists n : Z,
       msg = ("line too long: " ++ dec n ++ " > " ++ dec MAX_COLUMNS)%string.

(** Between [w] and [w'] diagnostics were only appended, and each of the
    appended ones satisfies [P]. *)
Definition appends_only (P : Diagnostic -> Prop) (w w' : World) : Prop :=
  exists ds, printed w' = printed w ++ ds /\ Forall P ds.

Definition not_indentation (d : Diagnostic) : Prop :=
  d_message d <> "incorrect indentation"%string.

(** The first [k] iterations of the character loop, started at index [i]
    with the locals [l] in the world [w], run to completion and hand the
    locals [l'] and the world [w'] to the iteration at index [i + k]:
    whatever follows, the loop goes on from there. *)
Definition scan_reaches (line : list ascii) (no_align : bool) (k : nat)
    (i : Z) (l : Locals) (w : World) (l' : Locals) (w' : World) : Prop :=
  forall n,
    scan (k + n) line no_align i l w
    = scan n line no_align (i + Z.of_nat k) l' w'.

(** [w'] differs from [w] at most in the status flag and in diagnostics
    that were appended. *)
Definition only_printed (w w' : World) : Prop :=
  set_status 0 (st w') = set_status 0 (st w)
  /\ exists ds, printed w' = printed w ++ ds.

(** Words separated by single spaces, as the names of an ID block are. *)
Fixpoint spaced (names : list (list ascii)) : list ascii :=
  match names with
  | [] => []
  | [n] => n
  | n :: rest => n ++ " "%char :: spaced rest
  end.

(** A word of an import list: not empty, made of characters that the
    scanner has no case for, and short enough for the name buffers. *)
Definition import_word (s : list ascii) : Prop :=
  s <> [] /\ Forall plain_char s /\ Z.of_nat (List.length s) < MAX_COLUMNS.

(** A section whose import list repeats a name inside one ID block and
    repeats the identifier in the next ID block. *)
Definition import_list_file : list (list ascii) :=
  [ln "(Section :1.1"; ln "  (use (:1.2 foo foo) (:1.2 bar)))"].

(** The same import list with the repeated name and the second ID block on
    lines of their own. *)
Definition import_list_file_by_line : list (list ascii) :=
  [ln "(Section :1.1"; ln "  (use (:1.2 foo"; ln "             foo)";
   ln "       (:1.2 bar)))"].

(** The same list with the names and identifiers in ascending order. *)
Definition ordered_import_list_file : list (list ascii) :=
  [ln "(Section :1.1"; ln "  (use (:1.2 foo goo) (:1.3 bar)))"].

(** A world inside a USE block at depth 2, before its first ID block;
    nothing is stored yet. *)
Definition before_id_block : World :=
  mkWorld (mkState "f.ss" 2 0 0 false 0 (-1) 2
             (list_set (repeat 0 64) 2 7) IB_USE [] [])
    [].

(** A world inside an ID block after its identifier, with another name
    stored. *)
Definition after_id : World :=
  mkWorld (mkState "f.ss" 2 0 0 false 0 (-1) 3
             (list_set (repeat 0 64) 3 13) IB_ID (lit ":1.2") (lit "bar"))
    [].

(** The loop locals at the start of a line that begins outside a string. *)
Definition line_start : Locals := mkLocals NUL false false 0 INDENT.

(** * Properties *)

(** ** Operator lookup (C1) *)

(** C1.  The claim: the lookup matches the operator token's exact text, and
    a token that equals no table entry's name gets the empty DEFAULT rule
    set.  The code compares only the first [len] bytes ([strncmp] with the
    token's length), so a token that is a proper prefix of a table name
    matches it: on the line [(def x], the operator token [def] (start 1,
    length 3) is in no table entry, yet the lookup returns IR_SPECIAL, the
    rules of [define]; the empty token of [( x] gets IR_WRAPPER, the rules
    of [SICP]. *)
Theorem lookup_indent_rules_matches_prefix :
  ~ In "def"%string (map fst INDENT_RULES)
  /\ lookup_indent_rules (ln "(def x") 1 3 = IR_SPECIAL
  /\ lookup_indent_rules (ln "(def x") 1 3 <> IR_DEFAULT
  /\ lookup_indent_rules (ln "( x") 1 0 = IR_WRAPPER.
Proof.
  split.
  - simpl. intros H.
    repeat (destruct H as [H | H]; [discriminate H |]). exact H.
  - repeat split; try reflexivity. vm_compute. discriminate.
Qed.

(** ** Arithmetic and string helpers *)

Ltac int_lia :=
  change (2 ^ 31) with 2147483648 in *;
  change (2 ^ 32) with 4294967296 in *;
  change MAX_DEPTH with 64 in *;
  change MAX_COLUMNS with 80 in *;
  lia.

Lemma int_incr_small z :
  - 2 ^ 31 <= z < 2 ^ 31 - 1 -> int_incr z = z + 1.
Proof.
  intros H. unfold int_incr, int_wrap.
  rewrite Z.mod_small by int_lia. int_lia.
Qed.

Lemma gtb_false (n m : Z) : n <= m -> (n >? m) = false.
Proof. intros H. rewrite Z.gtb_ltb. apply Z.ltb_ge. exact H. Qed.

Lemma strncmp_common_prefix (t a b : list ascii) :
  strncmp (t ++ a) (t ++ b) (List.length t) = 0.
Proof.
  induction t as [| c t IH]; simpl; [reflexivity |].
  rewrite Ascii.eqb_refl. simpl.
  destruct (c =c NUL); [reflexivity | exact IH].
Qed.

Lemma ptr_add_app (pre rest : list ascii) :
  ptr_add (pre ++ rest) (Z.of_nat (List.length pre)) = rest.
Proof.
  unfold ptr_add. rewrite Nat2Z.id.
  induction pre as [| c pre IH]; simpl; [reflexivity | exact IH].
Qed.

Lemma char_at_app_r (pre rest : list ascii) (k : Z) :
  0 <= k ->
  char_at (pre ++ rest) (Z.of_nat (List.length pre) + k) = char_at rest k.
Proof.
  intros Hk. unfold char_at.
  replace (Z.to_nat (Z.of_nat (List.length pre) + k))
    with (List.length pre + Z.to_nat k)%nat by lia.
  apply app_nth2_plus.
Qed.

Lemma size_t_of_length (s : list ascii) :
  Z.of_nat (List.length s) < MAX_COLUMNS ->
  size_t_of_int (Z.of_nat (List.length s)) = List.length s.
Proof.
  intros H. unfold size_t_of_int. rewrite Z.mod_small.
  - apply Nat2Z.id.
  - split; [lia |]. unfold MAX_COLUMNS in H.
    apply Z.lt_trans with (m := 80); [exact H | reflexivity].
Qed.

(** ** Prefixes of table names *)

Lemma scan_indent_rules_hit (s : list ascii) (len : Z)
    (table : list (string * Z)) (name : string) (rules : Z) :
  In (name, rules) table ->
  strncmp s (lit name) (size_t_of_int len) = 0 ->
  Forall (fun e => snd e <> 0) table ->
  scan_indent_rules s 1 len table <> IR_DEFAULT.
Proof.
  induction table as [| [n r] rest IH]; intros Hin Hcmp Hall;
    [destruct Hin |].
  inversion Hall as [| e l Hr Hrest]; subst. cbn [scan_indent_rules].
  destruct (Z.eqb_spec (strncmp s (lit n) (size_t_of_int len)) 0)
    as [E | E].
  - exact Hr.
  - destruct Hin as [Hhd | Htl].
    + injection Hhd as -> ->. contradiction.
    + apply IH; assumption.
Qed.

(** At the top level, every operator token that is a prefix of a table
    entry's name is given rules other than DEFAULT, whether or not it
    equals a name. *)
Lemma prefix_token_not_default (pre tok post more : list ascii)
    (name : string) (rules : Z) :
  In (name, rules) INDENT_RULES ->
  lit name = tok ++ more ->
  List.length pre = 1%nat ->
  Z.of_nat (List.length tok) < MAX_COLUMNS ->
  lookup_indent_rules (pre ++ tok ++ post) 1 (Z.of_nat (List.length tok))
  <> IR_DEFAULT.
Proof.
  intros Hin Hname Hpre Hlen. unfold lookup_indent_rules.
  replace 1 with (Z.of_nat (List.length pre)) at 1
    by (rewrite Hpre; reflexivity).
  rewrite ptr_add_app.
  apply scan_indent_rules_hit with (name := name) (rules := rules).
  - exact Hin.
  - rewrite Hname, size_t_of_length by exact Hlen.
    apply strncmp_common_prefix.
  - repeat constructor; discriminate.
Qed.

(** ** Blank lines (C2) *)

Lemma lint_line_blank (w : World) :
  0 <= depth (st w) < MAX_DEPTH ->
  lint_line [NL] w = Done (tt, after_blank w).
Proof.
  intros [Hlo Hhi]. unfold lint_line, bind, assert, get. simpl.
  destruct (Z.geb_spec (depth (st w)) 0) as [_ | Hc]; [| lia].
  destruct (Z.ltb_spec (depth (st w)) MAX_DEPTH) as [_ | Hc]; [| lia].
  unfold after_blank, when, fail, modify, ret.
  destruct (negb (in_string (st w)) && (prev_blanks (st w) =? 1));
    reflexivity.
Qed.

Lemma lint_lines_blank (w : World) (rest : list (list ascii)) :
  0 <= depth (st w) < MAX_DEPTH ->
  lint_lines ([NL] :: rest) w = lint_lines rest (next_line (after_blank w)).
Proof.
  intros Hd. simpl. unfold bind at 1. rewrite (lint_line_blank w Hd).
  reflexivity.
Qed.

(** From the third blank line of a run on, nothing is printed. *)
Lemma blank_run_tail_quiet (m : nat) :
  forall w : World,
    0 <= depth (st w) < MAX_DEPTH ->
    2 <= prev_blanks (st w) ->
    prev_blanks (st w) + Z.of_nat m < 2 ^ 31 ->
    printed_of (lint_lines (repeat [NL] m) w) = Some (printed w).
Proof.
  induction m as [| m IH]; intros w Hd Hlo Hhi; [reflexivity |].
  change (repeat [NL] (S m)) with ([NL] :: repeat [NL] m).
  rewrite lint_lines_blank by exact Hd.
  assert (Hq : after_blank w
               = mkWorld (set_prev_blanks (int_incr (prev_blanks (st w)))
                            (st w)) (printed w)).
  { unfold after_blank.
    destruct (Z.eqb_spec (prev_blanks (st w)) 1) as [E | _]; [lia |].
    rewrite andb_false_r. reflexivity. }
  rewrite Hq. rewrite IH; simpl; try reflexivity; try exact Hd.
  - rewrite int_incr_small by int_lia. lia.
  - rewrite int_incr_small by int_lia. int_lia.
Qed.

(** C2, as amended.  A run of N >= 2 blank lines outside a string, starting
    with the blank-line counter at 0 (the value every non-blank line leaves),
    prints exactly one diagnostic: "multiple blank lines" at column 1 of the
    run's second line.  The third and later blank lines print nothing. *)
Theorem blank_run_one_diagnostic :
  forall (w : World) (N : nat),
    (2 <= N)%nat ->
    Z.of_nat N < 2 ^ 31 ->
    prev_blanks (st w) = 0 ->
    in_string (st w) = false ->
    0 <= depth (st w) < MAX_DEPTH ->
    printed_of (lint_lines (repeat [NL] N) w)
    = Some (printed w
            ++ [mkDiag (filename (st w)) (int_incr (lineno (st w))) 1
                  "multiple blank lines"]).
Proof.
  intros w N HN Hbound Hpb Hstr Hd.
  destruct N as [| [| m]]; try lia.
  change (repeat [NL] (S (S m))) with ([NL] :: [NL] :: repeat [NL] m).
  rewrite lint_lines_blank by exact Hd.
  assert (H1 : after_blank w
               = mkWorld (set_prev_blanks 1 (st w)) (printed w)).
  { unfold after_blank. rewrite Hpb, Hstr. reflexivity. }
  rewrite H1.
  rewrite lint_lines_blank by exact Hd.
  unfold after_blank at 1. simpl. rewrite Hstr. simpl.
  rewrite blank_run_tail_quiet.
  - reflexivity.
  - exact Hd.
  - change (2 <= int_incr 1). vm_compute. discriminate.
  - change (int_incr 1 + Z.of_nat m < 2 ^ 31).
    change (int_incr 1) with 2. int_lia.
Qed.

Lemma blank_run_one_diagnostic_witness :
  printed_of (lint_lines (repeat [NL] 5)
                (mkWorld (initial_state "f.ss") []))
  = Some [mkDiag "f.ss" 2 1 "multiple blank lines"].
Proof.
  apply (blank_run_one_diagnostic (mkWorld (initial_state "f.ss") []) (N := 5)).
  - lia.
  - vm_compute. reflexivity.
  - reflexivity.
  - reflexivity.
  - simpl. unfold MAX_DEPTH. lia.
Defined.

(** C2, as stated, fails: a run of three blank lines prints one diagnostic,
    not the two (N - 1) the claim counts. *)
Lemma three_blank_lines_one_diagnostic :
  printed_of (lint_lines [[NL]; [NL]; [NL]]
                (mkWorld (initial_state "f.ss") []))
  = Some [mkDiag "f.ss" 2 1 "multiple blank lines"]
  /\ option_map (@List.length Diagnostic)
       (printed_of (lint_lines [[NL]; [NL]; [NL]]
                      (mkWorld (initial_state "f.ss") [])))
     <> Some (3 - 1)%nat.
Proof.
  split; [reflexivity | vm_compute; discriminate].
Qed.

(** ** Invariants of the scanner's monadic code *)

Section Preservation.

Context {P : World -> Prop}.

Lemma preserves_ret {A : Type} (a : A) : preserves P (ret a).
Proof. intros w H. exact H. Qed.

Lemma preserves_bind {A B : Type} (m : M A) (k : A -> M B) :
  preserves P m -> (forall a, preserves P (k a)) -> preserves P (bind m k).
Proof.
  intros Hm Hk w H. unfold bind. specialize (Hm w H).
  destruct (m w) as [[a w'] | |]; try exact I. apply Hk. exact Hm.
Qed.

Lemma preserves_get : preserves P get.
Proof. intros w H. exact H. Qed.

Lemma preserves_assert (b : bool) : preserves P (assert b).
Proof. intros w H. unfold assert. destruct b; [exact H | exact I]. Qed.

Lemma preserves_when (b : bool) (m : M unit) :
  preserves P m -> preserves P (when b m).
Proof. intros Hm. destruct b; [exact Hm | apply preserves_ret]. Qed.

Lemma preserves_stack_get (n : Z) : preserves P (stack_get n).
Proof.
  intros w H. unfold stack_get. destruct (in_stack n); [exact H | exact I].
Qed.

Hypothesis HP : frame P.

Lemma preserves_fail (col : Z) (msg : string) : preserves P (fail col msg).
Proof. intros w H. apply (frame_fail HP). exact H. Qed.

Lemma preserves_stack_put (n v : Z) : preserves P (stack_put n v).
Proof.
  intros w H. unfold stack_put. destruct (in_stack n); [| exact I].
  apply (frame_stack HP). exact H.
Qed.

Lemma preserves_store_id (line : list ascii) (start len : Z) :
  preserves P (store_name set_last_import_id line start len).
Proof.
  intros w H. unfold store_name.
  destruct ((0 <=? len) && (len <? MAX_COLUMNS)); [| exact I].
  apply (frame_last_import_id HP). exact H.
Qed.

Lemma preserves_store_name (line : list ascii) (start len : Z) :
  preserves P (store_name set_last_import_name line start len).
Proof.
  intros w H. unfold store_name.
  destruct ((0 <=? len) && (len <? MAX_COLUMNS)); [| exact I].
  apply (frame_last_import_name HP). exact H.
Qed.

Lemma preserves_set_in_string v : preserves P (modify (set_in_string v)).
Proof. intros w H. apply (frame_in_string HP). exact H. Qed.

Lemma preserves_set_quoted_align f :
  preserves P (modify (fun s => set_quoted_align (f s) s)).
Proof. intros w H. apply (frame_quoted_align HP). exact H. Qed.

Lemma preserves_set_depth f :
  preserves P (modify (fun s => set_depth (f s) s)).
Proof. intros w H. apply (frame_depth HP). exact H. Qed.

Lemma preserves_set_import_mode f :
  preserves P (modify (fun s => set_import_mode (f s) s)).
Proof. intros w H. apply (frame_import_mode HP). exact H. Qed.

Lemma preserves_set_last_import_id v :
  preserves P (modify (set_last_import_id v)).
Proof. intros w H. apply (frame_last_import_id HP). exact H. Qed.

Lemma preserves_set_last_import_name v :
  preserves P (modify (set_last_import_name v)).
Proof. intros w H. apply (frame_last_import_name HP). exact H. Qed.

(** One step of a preservation proof: split a bind, close a primitive, or
    case on the tested condition. *)
Ltac pstep :=
  first
    [ apply preserves_bind; [| intros ?]
    | apply preserves_ret
    | apply preserves_get
    | apply preserves_assert
    | apply preserves_when
    | apply preserves_fail
    | apply preserves_stack_get
    | apply preserves_stack_put
    | apply preserves_store_id
    | apply preserves_store_name
    | apply preserves_set_in_string
    | apply (preserves_set_quoted_align (fun _ => _))
    | apply preserves_set_quoted_align
    | apply preserves_set_depth
    | apply preserves_set_import_mode
    | apply preserves_set_last_import_id
    | apply preserves_set_last_import_name
    | match goal with
      | |- preserves _ (if ?b then _ else _) => destruct b
      | |- preserves _ (match ?x with _ => _ end) => destruct x
      end ].

Lemma preserves_check_indent no_align i :
  preserves P (check_indent no_align i).
Proof. unfold check_indent. repeat pstep. Qed.

Lemma preserves_open_paren i l : preserves P (open_paren i l).
Proof. unfold open_paren. repeat pstep. Qed.

Lemma preserves_check_name_order line start len :
  preserves P (check_name_order line start len).
Proof. unfold check_name_order. repeat pstep. Qed.

Lemma preserves_close_paren line i l : preserves P (close_paren line i l).
Proof.
  unfold close_paren.
  repeat first [ apply preserves_check_name_order | pstep ].
Qed.

Lemma preserves_space_or_newline line i c l :
  (mode l = OPERATOR -> preserves P (classify_operator line i c)) ->
  preserves P (space_or_newline line i c l).
Proof.
  intros Hop. unfold space_or_newline.
  destruct ((c =c " ") && (prev l =c " ")); cbn [mode set_two_spaces];
    destruct (mode l) eqn:E;
    repeat first
      [ apply preserves_check_name_order
      | apply Hop; reflexivity
      | pstep ].
Qed.

Lemma preserves_code_char line i c l :
  (mode l = OPERATOR -> (c =c " ") || (c =c NL) = true ->
   preserves P (classify_operator line i c)) ->
  preserves P (code_char line i c l).
Proof.
  intros Hop. unfold code_char.
  generalize (two_spaces l && negb (c =c " ") && negb (c =c ";")).
  intros flagged.
  assert (Hl : mode (if flagged then set_two_spaces false l else l)
               = mode l) by (destruct flagged; reflexivity).
  apply preserves_bind; [repeat pstep | intros _].
  destruct (c =c DQUOTE); [repeat pstep |].
  destruct (c =c ";"); [repeat pstep |].
  destruct ((c =c "(") || (c =c "[")); [apply preserves_open_paren |].
  destruct ((c =c ")") || (c =c "]")); [apply preserves_close_paren |].
  destruct ((c =c " ") || (c =c NL)) eqn:Esp; [| apply preserves_ret].
  apply preserves_space_or_newline. rewrite Hl. intros Hm.
  apply Hop; [exact Hm | reflexivity].
Qed.

Lemma preserves_scan_char line no_align i l :
  (mode l = OPERATOR ->
   (char_at line i =c " ") || (char_at line i =c NL) = true ->
   preserves P (classify_operator line i (char_at line i))) ->
  preserves P (scan_char line no_align i l).
Proof.
  intros Hop. unfold scan_char.
  apply preserves_bind; [repeat pstep | intros _].
  apply preserves_bind; [| intros [l' |]; apply preserves_ret].
  destruct (mode l) eqn:E.
  - destruct (char_at line i =c " "); [apply preserves_ret |].
    apply preserves_bind; [apply preserves_check_indent | intros _].
    apply preserves_bind; [| intros ?; apply preserves_ret].
    apply preserves_code_char. intros Hm. discriminate Hm.
  - apply preserves_bind; [| intros ?; apply preserves_ret].
    apply preserves_code_char. rewrite E. intros Hm. discriminate Hm.
  - apply preserves_bind; [| intros ?; apply preserves_ret].
    apply preserves_code_char. intros _. apply Hop. reflexivity.
  - repeat pstep.
  - repeat pstep.
  - repeat pstep.
Qed.

(** Invariants that also survive the counters' updates hold along whole
    lines and files. *)
Hypothesis Hnw : forall w v,
  P w -> P (mkWorld (set_num_wrappers v (st w)) (printed w)).

Lemma preserves_classify_operator line i c :
  preserves P (classify_operator line i c).
Proof.
  unfold classify_operator.
  repeat first
    [ pstep
    | match goal with
      | |- preserves _ (modify (fun s => set_num_wrappers _ s)) =>
          intros w H; apply Hnw; exact H
      end ].
Qed.

Lemma preserves_scan n : forall line no_align i l,
  preserves P (scan n line no_align i l).
Proof.
  induction n as [| n IH]; intros line no_align i l; simpl.
  - apply preserves_ret.
  - apply preserves_bind.
    + apply preserves_scan_char. intros _ _.
      apply preserves_classify_operator.
    + intros [l' |]; [apply IH | apply preserves_ret].
Qed.

Hypothesis Hpb : forall w v,
  P w -> P (mkWorld (set_prev_blanks v (st w)) (printed w)).

Lemma preserves_lint_line line : preserves P (lint_line line).
Proof.
  unfold lint_line, comment_line.
  repeat first
    [ apply preserves_scan
    | match goal with
      | |- preserves _ (modify (fun s => set_prev_blanks _ s)) =>
          intros w H; apply Hpb; exact H
      | |- preserves _ (modify (set_prev_blanks _)) =>
          intros w H; apply Hpb; exact H
      end
    | pstep ].
Qed.

Hypothesis Hln : forall w v,
  P w -> P (mkWorld (set_lineno v (st w)) (printed w)).

Lemma preserves_lint_lines lines : preserves P (lint_lines lines).
Proof.
  induction lines as [| line rest IH]; simpl.
  - apply preserves_ret.
  - apply preserves_bind; [apply preserves_lint_line | intros _].
    apply preserves_bind; [| intros _; exact IH].
    intros w H. apply Hln. exact H.
Qed.

End Preservation.

(** ** Exit status (C9) *)

Lemma consistent_frame : frame consistent.
Proof.
  constructor; try (intros w v H; exact H).
  intros w col msg _. right. split; [reflexivity |].
  simpl. intros E. destruct (printed w); discriminate E.
Qed.

Lemma lint_lines_consistent (lines : list (list ascii)) :
  preserves consistent (lint_lines lines).
Proof.
  apply preserves_lint_lines;
    [exact consistent_frame | | |]; intros w v H; exact H.
Qed.

(** [lint] returns 0 for a file that passed and 1 for a file that had a
    violation or could not be opened. *)
Lemma lint_result (fs : FileSystem) (name : string) (r : Z)
    (evs : list Event) :
  lint fs name = Done (r, evs) ->
  (r = 0 /\ passed fs name)
  \/ (r = 1 /\ (violated fs name \/ unopenable fs name)).
Proof.
  unfold passed, violated, unopenable, lint. intros H.
  destruct (fs name) as [bytes |] eqn:Efs.
  - pose proof (lint_lines_consistent (getlines bytes)
                  (w := mkWorld (initial_state name) [])) as Hc.
    destruct (lint_lines (getlines bytes) (mkWorld (initial_state name) []))
      as [[u w'] | |]; try discriminate H.
    injection H as Hr Hevs.
    destruct Hc as [[Hs Hp] | [Hs Hp]].
    + left. split; reflexivity.
    + left. rewrite <- Hr, Hs. rewrite Hp. split; reflexivity.
    + right. split; [congruence |]. left.
      destruct (printed w') as [| d ds]; [contradiction |].
      exists (status (st w')), d, (map Printed ds). reflexivity.
  - right. split; [congruence | right; reflexivity].
Qed.

Lemma passed_not_failed (fs : FileSystem) (name : string) :
  passed fs name -> ~ (violated fs name \/ unopenable fs name).
Proof.
  unfold passed, violated, unopenable. intros Hp [[r [d [evs H]]] | H].
  - rewrite Hp in H. discriminate H.
  - unfold lint in Hp. rewrite H in Hp. discriminate Hp.
Qed.

Lemma file_status_cases (fs : FileSystem) (name : string) :
  (exists r, lint fs name = Done r) ->
  (file_status fs name = 0 /\ passed fs name)
  \/ (file_status fs name = 1 /\ (violated fs name \/ unopenable fs name)).
Proof.
  intros [[r evs] H]. unfold file_status. rewrite H.
  exact (lint_result fs name H).
Qed.

Lemma lint_files_spec (fs : FileSystem) (files : list string) :
  forall (acc : Z) (out : list Event),
    (forall f, In f files -> exists r, lint fs f = Done r) ->
    lint_files fs files acc out
    = Done (fold_left Z.lor (map (file_status fs) files) acc,
            out ++ flat_map (file_output fs) files).
Proof.
  induction files as [| f rest IH]; intros acc out Hall; simpl.
  - rewrite app_nil_r. reflexivity.
  - destruct (Hall f (or_introl eq_refl)) as [[r o] Hf].
    assert (Hs : file_status fs f = r)
      by (unfold file_status; rewrite Hf; reflexivity).
    assert (Ho : file_output fs f = o)
      by (unfold file_output; rewrite Hf; reflexivity).
    rewrite Hf, Hs, Ho.
    rewrite IH by (intros g Hg; apply Hall; right; exact Hg).
    rewrite app_assoc. reflexivity.
Qed.

(** The bitwise OR of statuses that are 0 or 1. *)
Lemma fold_lor_bits (l : list Z) :
  forall acc,
    (acc = 0 \/ acc = 1) ->
    Forall (fun x => x = 0 \/ x = 1) l ->
    (fold_left Z.lor l acc = 0 /\ acc = 0 /\ Forall (fun x => x = 0) l)
    \/ (fold_left Z.lor l acc = 1 /\ (acc = 1 \/ Exists (fun x => x = 1) l)).
Proof.
  induction l as [| x l IH]; intros acc Hacc Hl; simpl.
  - destruct Hacc as [-> | ->]; [left | right]; auto.
  - inversion Hl as [| x' l' Hx Hl']; subst.
    assert (Hor : Z.lor acc x = 0 \/ Z.lor acc x = 1)
      by (destruct Hacc as [-> | ->]; destruct Hx as [-> | ->]; auto).
    destruct (IH (Z.lor acc x) Hor Hl') as [[Hf [Ha Hz]] | [Hf Hone]].
    + left. destruct Hacc as [-> | ->]; destruct Hx as [-> | ->];
        try discriminate Ha. auto.
    + right. split; [exact Hf |].
      destruct Hone as [Ha | He]; [| right; right; exact He].
      destruct Hacc as [-> | ->]; [| left; reflexivity].
      destruct Hx as [-> | ->]; [discriminate Ha |].
      right. left. reflexivity.
Qed.

(** X21.  Without file arguments [main] prints the usage line and returns 0.
    With files, each of which is linted to completion, [main] returns the
    bitwise OR of the per-file results taken in argument order (and prints
    their output in that order); that status is 0 exactly when every file
    passed all checks, and 1 exactly when some file had a content violation
    or could not be opened. *)
Theorem main_exit_status :
  forall (fs : FileSystem) (prog : string) (files : list string),
    main fs prog [] = Done (0, [UsageLine prog])
    /\ (files <> [] ->
        (forall f, In f files -> exists r, lint fs f = Done r) ->
        let code := fold_left Z.lor (map (file_status fs) files) 0 in
        main fs prog files = Done (code, flat_map (file_output fs) files)
        /\ (code = 0 \/ code = 1)
        /\ (code = 0 <-> Forall (passed fs) files)
        /\ (code = 1 <->
            Exists (fun f => violated fs f \/ unopenable fs f) files)).
Proof.
  intros fs prog files. split; [reflexivity |].
  intros Hne Hall code.
  assert (Hmain : main fs prog files
                  = Done (code, flat_map (file_output fs) files)).
  { unfold main. destruct files as [| f rest]; [contradiction |].
    rewrite lint_files_spec by exact Hall. reflexivity. }
  assert (Hbits : Forall (fun x => x = 0 \/ x = 1)
                    (map (file_status fs) files)).
  { apply Forall_forall. intros x Hx. apply in_map_iff in Hx.
    destruct Hx as [f [<- Hf]].
    destruct (file_status_cases fs f (Hall f Hf)) as [[H _] | [H _]]; auto. }
  assert (Hpass : Forall (fun x => x = 0) (map (file_status fs) files)
                  <-> Forall (passed fs) files).
  { rewrite !Forall_forall. split.
    - intros H f Hf.
      destruct (file_status_cases fs f (Hall f Hf)) as [[_ Hp] | [H1 _]];
        [exact Hp |].
      rewrite (H (file_status fs f) (in_map _ _ _ Hf)) in H1. discriminate H1.
    - intros H x Hx. apply in_map_iff in Hx. destruct Hx as [f [<- Hf]].
      destruct (file_status_cases fs f (Hall f Hf)) as [[H0 _] | [_ Hbad]];
        [exact H0 |].
      exfalso. exact (passed_not_failed (H f Hf) Hbad). }
  assert (Hfail : Exists (fun x => x = 1) (map (file_status fs) files)
                  <-> Exists (fun f => violated fs f \/ unopenable fs f)
                        files).
  { rewrite !Exists_exists. split.
    - intros [x [Hx H1]]. apply in_map_iff in Hx.
      destruct Hx as [f [Hfx Hf]]. exists f. split; [exact Hf |].
      destruct (file_status_cases fs f (Hall f Hf)) as [[H0 _] | [_ Hbad]];
        [congruence | exact Hbad].
    - intros [f [Hf Hbad]]. exists (file_status fs f).
      split; [apply in_map; exact Hf |].
      destruct (file_status_cases fs f (Hall f Hf)) as [[_ Hp] | [H1 _]];
        [| exact H1].
      exfalso. exact (passed_not_failed Hp Hbad). }
  destruct (fold_lor_bits (l := map (file_status fs) files) (acc := 0)
              (or_introl eq_refl) Hbits)
    as [[Hc [_ Hz]] | [Hc [Ha | He]]]; try discriminate Ha; fold code in Hc.
  - repeat split; auto.
    + intros _. apply Hpass. exact Hz.
    + intros H1. rewrite Hc in H1. discriminate H1.
    + intros He. apply Hfail in He. apply Exists_exists in He.
      destruct He as [x [Hx H1]].
      rewrite Forall_forall in Hz. rewrite (Hz x Hx) in H1. discriminate H1.
  - repeat split; auto.
    + intros H0. rewrite Hc in H0. discriminate H0.
    + intros Hp. apply Hpass in Hp. apply Exists_exists in He.
      destruct He as [x [Hx H1]].
      rewrite Forall_forall in Hp. rewrite (Hp x Hx) in H1. discriminate H1.
    + intros _. apply Hfail. exact He.
Qed.

Lemma main_exit_status_witness :
  demo_files <> []
  /\ (forall f, In f demo_files -> exists r, lint demo_fs f = Done r)
  /\ main demo_fs "linter" demo_files
     = Done (1, [Printed (mkDiag "bad.ss" 1 2 "trailing whitespace")]).
Proof.
  assert (Hne : demo_files <> []) by discriminate.
  assert (Hall : forall f, In f demo_files ->
                   exists r, lint demo_fs f = Done r).
  { intros f [<- | [<- | []]]; eexists; vm_compute; reflexivity. }
  split; [exact Hne | split; [exact Hall |]].
  destruct (main_exit_status demo_fs "linter" demo_files) as [_ H].
  destruct (H Hne Hall) as [Hmain _].
  rewrite Hmain. vm_compute. reflexivity.
Defined.

(** C9.  The claim: with one or more files, the exit status is 1 if any
    file had a content violation or could not be opened.  [main] has no
    status to return when [lint] aborts.  Given [missing.ss], which cannot
    be opened, and then [crash.ss], whose first line is an unmatched
    closing delimiter, [main] reports the first file and the result so far
    is 1; in the second file [lint_line] fails its entry assertion on
    [depth], and the process aborts instead of exiting with status 1.  On
    [missing.ss] alone the status is 1. *)
Theorem main_aborts_after_unopenable_file :
  unopenable crash_fs "missing.ss"
  /\ lint crash_fs "missing.ss" = Done (1, [Perror "missing.ss"])
  /\ main crash_fs "linter" ["missing.ss"]%string
     = Done (1, [Perror "missing.ss"])
  /\ lint crash_fs "crash.ss" = AssertionFailed
  /\ main crash_fs "linter" ["missing.ss"; "crash.ss"]%string
     = AssertionFailed.
Proof. repeat split; vm_compute; reflexivity. Qed.

(** ** Comment lines (C8) *)

Lemma lint_line_comment (w : World) (line : list ascii) :
  2 <= Z.of_nat (List.length line) ->
  char_at line (Z.of_nat (List.length line) - 1) = NL ->
  0 <= depth (st w) < MAX_DEPTH ->
  char_at line 0 = ";"%char ->
  printed_of (lint_line line w)
  = Some (printed w ++ comment_line_diags (st w) line)
  /\ option_map in_string (state_of (lint_line line w))
     = Some (in_string (st w)).
Proof.
  intros Hlen Hnl [Hlo Hhi] Hsemi.
  unfold lint_line, comment_line_diags, comment_line, bind, assert, get.
  replace (Z.of_nat (List.length line) >? 0) with true
    by (symmetry; apply Z.gtb_lt; lia).
  rewrite Hnl, Hsemi. cbn [Ascii.eqb]. simpl (NL =c NL).
  cbv iota.
  replace (depth (st w) >=? 0) with true
    by (symmetry; apply Z.geb_le; lia).
  replace (depth (st w) <? MAX_DEPTH) with true
    by (symmetry; apply Z.ltb_lt; lia).
  replace (Z.of_nat (List.length line) =? 1) with false
    by (symmetry; apply Z.eqb_neq; lia).
  cbv iota.
  unfold when, fail, modify, ret. simpl (";"%char =c ";"%char). cbv iota.
  repeat
    (cbn -[Z.add Z.sub Z.gtb Z.eqb dec MAX_COLUMNS String.append semicolons
           ptr_add char_at Ascii.eqb app];
     match goal with
     | |- context [if ?b then _ else _] => destruct b
     end).
  all: cbn -[Z.add Z.sub Z.gtb Z.eqb dec MAX_COLUMNS String.append
             semicolons ptr_add char_at Ascii.eqb app].
  all: split; [| reflexivity].
  all: rewrite <- ?app_assoc; rewrite ?app_nil_r; reflexivity.
Qed.

Lemma semicolons_repeat (k : nat) (r : list ascii) :
  semicolons (repeat ";"%char k ++ r) = Z.of_nat k + semicolons r.
Proof.
  induction k as [| k IH]; [reflexivity |].
  change (repeat ";"%char (S k) ++ r)
    with (";"%char :: (repeat ";"%char k ++ r)).
  cbn [semicolons]. change (";"%char =c ";"%char) with true. cbv iota.
  rewrite IH. lia.
Qed.

Lemma semicolons_other (body : list ascii) :
  hd NL body <> ";"%char -> semicolons (body ++ [NL]) = 0.
Proof.
  destruct body as [| c body]; simpl; [reflexivity |].
  intros Hc. destruct (Ascii.eqb_spec c ";"%char); [contradiction |].
  reflexivity.
Qed.

Lemma char_at_0_app_nl (body : list ascii) :
  char_at (body ++ [NL]) 0 = hd NL body.
Proof. destruct body; reflexivity. Qed.

(** The facts [lint_line] reads off a line of [k >= 1] semicolons followed
    by [body] and the newline, where [body] does not start with a
    semicolon. *)
Lemma semicolon_line_facts (k : nat) (body : list ascii) :
  (1 <= k)%nat ->
  hd NL body <> ";"%char ->
  let line := repeat ";"%char k ++ body ++ [NL] in
  2 <= Z.of_nat (List.length line)
  /\ char_at line (Z.of_nat (List.length line) - 1) = NL
  /\ char_at line 0 = ";"%char
  /\ 1 + semicolons (ptr_add line 1) = Z.of_nat k
  /\ char_at line (Z.of_nat k) = hd NL body.
Proof.
  intros Hk Hhd line. subst line.
  repeat split.
  - rewrite !length_app, repeat_length. simpl. lia.
  - rewrite app_assoc.
    replace (Z.of_nat (List.length ((repeat ";"%char k ++ body) ++ [NL])) - 1)
      with (Z.of_nat (List.length (repeat ";"%char k ++ body)) + 0)
      by (rewrite (length_app _ [NL]); simpl; lia).
    rewrite char_at_app_r by lia. reflexivity.
  - destruct k; [lia | reflexivity].
  - destruct k as [| k]; [lia |].
    change (ptr_add (repeat ";"%char (S k) ++ body ++ [NL]) 1)
      with (repeat ";"%char k ++ body ++ [NL]).
    rewrite semicolons_repeat, semicolons_other by exact Hhd. lia.
  - replace (Z.of_nat k)
      with (Z.of_nat (List.length (repeat ";"%char k)) + 0)
      by (rewrite repeat_length; lia).
    rewrite char_at_app_r by lia. apply char_at_0_app_nl.
Qed.

(** C8.  A line that begins with exactly [k] semicolons (then [body], which
    does not start with a semicolon, then the newline), linted in any state
    that passes the entry assertions:
    - for k = 1 or 2 followed by a space or the terminator, none of the
      semicolon diagnostics is printed;
    - for k >= 4, "too many semicolons" is printed;
    - for k = 3, "';;;' only allowed on first line copyright" is printed
      on every line but line 1, and on line 1 neither that diagnostic nor
      "too many semicolons" is printed. *)
Theorem comment_marker_invariant :
  forall (w : World) (k : nat) (body : list ascii),
    let s := st w in
    let line := repeat ";"%char k ++ body ++ [NL] in
    (1 <= k)%nat ->
    hd NL body <> ";"%char ->
    0 <= depth s < MAX_DEPTH ->
    exists ds,
      printed_of (lint_line line w) = Some (printed w ++ ds)
      /\ ((k = 1 \/ k = 2)%nat ->
          hd NL body = " "%char \/ hd NL body = NL ->
          forall d, In d ds ->
            d_message d <> "too many semicolons"%string
            /\ d_message d
               <> "';;;' only allowed on first line copyright"%string
            /\ d_message d <> "missing space after ';'"%string)
      /\ ((4 <= k)%nat ->
          In (mkDiag (filename s) (lineno s) 1 "too many semicolons") ds)
      /\ (k = 3%nat -> lineno s <> 1 ->
          In (mkDiag (filename s) (lineno s) 1
                "';;;' only allowed on first line copyright") ds)
      /\ (k = 3%nat -> lineno s = 1 ->
          forall d, In d ds ->
            d_message d <> "too many semicolons"%string
            /\ d_message d
               <> "';;;' only allowed on first line copyright"%string).
Proof.
  intros w k body s line Hk Hhd Hd.
  destruct (semicolon_line_facts body Hk Hhd)
    as (Hlen & Hnl & Hsemi & Hrun & Hnext).
  fold line in Hlen, Hnl, Hsemi, Hrun, Hnext.
  exists (comment_line_diags s line).
  split; [apply lint_line_comment; assumption |].
  unfold comment_line_diags. cbv zeta. rewrite Hrun, Hnext.
  assert (Hscan : forall (A B C D : list Diagnostic) d,
            In d (A ++ B ++ C ++ D) ->
            In d A \/ In d B \/ In d C \/ In d D).
  { intros A B C D d H.
    repeat (apply in_app_or in H; destruct H as [H | H]; auto). }
  split; [| split; [| split]].
  - intros Hk12 Hsp x Hin.
    replace (Z.of_nat k >? 3) with false in Hin
      by (symmetry; apply gtb_false; lia).
    replace (Z.of_nat k =? 3) with false in Hin
      by (symmetry; apply Z.eqb_neq; lia).
    replace (negb (hd NL body =c NL) && negb (hd NL body =c " "))
      with false in Hin
      by (destruct Hsp as [-> | ->]; reflexivity).
    cbn [andb negb] in Hin. apply Hscan in Hin.
    destruct Hin as [Hin | [Hin | [Hin | Hin]]];
      repeat match type of Hin with
             | In _ (if ?b then _ else _) => destruct b
             end;
      try contradiction;
      destruct Hin as [<- | []]; cbn; repeat split; discriminate.
  - intros Hk4.
    replace (Z.of_nat k >? 3) with true
      by (symmetry; apply Z.gtb_lt; lia).
    apply in_or_app. right. apply in_or_app. right.
    apply in_or_app. left. left. reflexivity.
  - intros Hk3 Hln.
    replace (Z.of_nat k >? 3) with false
      by (symmetry; apply gtb_false; lia).
    replace (Z.of_nat k =? 3) with true
      by (symmetry; apply Z.eqb_eq; lia).
    replace (lineno s =? 1) with false
      by (symmetry; apply Z.eqb_neq; exact Hln).
    apply in_or_app. right. apply in_or_app. right.
    apply in_or_app. left. left. reflexivity.
  - intros Hk3 Hln x Hin.
    replace (Z.of_nat k >? 3) with false in Hin
      by (symmetry; apply gtb_false; lia).
    replace (lineno s =? 1) with true in Hin
      by (symmetry; apply Z.eqb_eq; exact Hln).
    rewrite andb_false_r in Hin.
    cbn [andb negb] in Hin. apply Hscan in Hin.
    destruct Hin as [Hin | [Hin | [Hin | Hin]]];
      repeat match type of Hin with
             | In _ (if ?b then _ else _) => destruct b
             end;
      try contradiction;
      destruct Hin as [<- | []]; cbn; repeat split; discriminate.
Qed.

Lemma comment_marker_invariant_witness :
  exists ds,
    printed_of (lint_line (repeat ";"%char 4 ++ lit " title" ++ [NL])
                  (mkWorld (initial_state "f.ss") []))
    = Some ([] ++ ds)
    /\ In (mkDiag "f.ss" 1 1 "too many semicolons") ds.
Proof.
  destruct (comment_marker_invariant
              (mkWorld (initial_state "f.ss") []) (k := 4) (lit " title"))
    as [ds [Hrun [_ [H4 _]]]].
  - lia.
  - simpl. discriminate.
  - simpl. unfold MAX_DEPTH. lia.
  - exists ds. split; [exact Hrun | apply H4; lia].
Defined.

(** ** The dotted-identifier comparator (C6) *)

(** While both identifiers agree, the loop of [correct_id_order] runs on
    with no remembered difference. *)
Lemma id_order_loop_agree (n : nat) :
  forall (prev line : list ascii) (start len i : Z) (m : nat),
    (forall k, 0 <= k < Z.of_nat n ->
       char_at prev (i + k) <> NUL
       /\ char_at line (start + (i + k)) = char_at prev (i + k)) ->
    id_order_loop (n + m) prev line start len i 0
    = id_order_loop m prev line start len (i + Z.of_nat n) 0.
Proof.
  induction n as [| n IH]; intros prev line start len i m Hagree.
  - simpl. rewrite Z.add_0_r. reflexivity.
  - destruct (Hagree 0 ltac:(lia)) as [Hnz Heq].
    rewrite Z.add_0_r in Hnz, Heq.
    change (S n + m)%nat with (S (n + m)). cbn [id_order_loop].
    destruct (Ascii.eqb_spec (char_at prev i) NUL) as [E | _];
      [contradiction |].
    rewrite Heq, Ascii.eqb_refl. cbn [negb]. rewrite andb_false_r.
    assert (Hnext : id_order_loop (n + m) prev line start len (i + 1) 0
                    = id_order_loop m prev line start len
                        (i + Z.of_nat (S n)) 0).
    { replace (i + Z.of_nat (S n)) with (i + 1 + Z.of_nat n) by lia.
      apply IH. intros k Hk.
      replace (i + 1 + k) with (i + (k + 1)) by lia.
      apply Hagree. lia. }
    destruct (char_at prev i =c DOT); cbn [andb negb].
    + change (0 =? 0) with true. cbn [negb]. exact Hnext.
    + change (0 =? 0) with true. cbv iota.
      rewrite Z.sub_diag. exact Hnext.
Qed.

Lemma char_at_app_l (s rest : list ascii) (k : Z) :
  0 <= k < Z.of_nat (List.length s) ->
  char_at (s ++ rest) k = char_at s k.
Proof. intros Hk. unfold char_at. apply app_nth1. lia. Qed.

Lemma char_at_not_nul (s : list ascii) (k : Z) :
  ~ In NUL s -> 0 <= k < Z.of_nat (List.length s) -> char_at s k <> NUL.
Proof.
  intros Hs Hk E. apply Hs. rewrite <- E. unfold char_at.
  apply nth_In. lia.
Qed.

Lemma char_at_past_end (s : list ascii) :
  char_at s (Z.of_nat (List.length s)) = NUL.
Proof. unfold char_at. rewrite Nat2Z.id. apply nth_overflow. lia. Qed.

(** The token [cur] at [line + start], for [line = pre ++ cur ++ post]. *)
Lemma char_at_token (pre cur post : list ascii) (k : Z) :
  0 <= k < Z.of_nat (List.length cur) ->
  char_at (pre ++ cur ++ post) (Z.of_nat (List.length pre) + k)
  = char_at cur k.
Proof.
  intros Hk. rewrite char_at_app_r by lia. apply char_at_app_l. exact Hk.
Qed.

(** C6.  [correct_id_order prev line start len] compares the stored
    identifier [prev] with the token of [len] bytes at [line + start];
    true means [prev] may come before the token.
    - Sigils: an identifier with sigil ':' is ordered before any identifier
      with sigil '?', and never after it.
    - Fewer segments first: when one identifier is a proper prefix of the
      other (all compared characters agree, so no difference is pending),
      the shorter one is ordered before the longer one, and never after
      it. *)
Theorem correct_id_order_sigil_and_length :
  forall (pre post : list ascii),
    (forall p c,
       correct_id_order (":"%char :: p) (pre ++ ("?"%char :: c) ++ post)
         (Z.of_nat (List.length pre))
         (Z.of_nat (List.length ("?"%char :: c))) = true)
    /\ (forall p c,
          correct_id_order ("?"%char :: p) (pre ++ (":"%char :: c) ++ post)
            (Z.of_nat (List.length pre))
            (Z.of_nat (List.length (":"%char :: c))) = false)
    /\ (forall short rest,
          rest <> [] -> ~ In NUL short ->
          correct_id_order short (pre ++ (short ++ rest) ++ post)
            (Z.of_nat (List.length pre))
            (Z.of_nat (List.length (short ++ rest))) = true)
    /\ (forall short rest,
          rest <> [] -> ~ In NUL (short ++ rest) ->
          correct_id_order (short ++ rest) (pre ++ short ++ post)
            (Z.of_nat (List.length pre))
            (Z.of_nat (List.length short)) = false).
Proof.
  intros pre post. split; [| split; [| split]].
  - intros p c. unfold correct_id_order. rewrite Nat2Z.id.
    cbn [List.length id_order_loop].
    rewrite (char_at_token pre ("?"%char :: c) post (k := 0))
      by (cbn [List.length]; lia).
    reflexivity.
  - intros p c. unfold correct_id_order. rewrite Nat2Z.id.
    cbn [List.length id_order_loop].
    rewrite (char_at_token pre (":"%char :: c) post (k := 0))
      by (cbn [List.length]; lia).
    reflexivity.
  - intros short rest Hrest Hnul. unfold correct_id_order.
    rewrite Nat2Z.id, length_app.
    rewrite id_order_loop_agree.
    + destruct rest as [| r rest]; [contradiction |].
      cbn [List.length Nat.add id_order_loop Z.add].
      rewrite char_at_past_end. change (NUL =c NUL) with true. cbv iota.
      unfold id_order_end. rewrite char_at_past_end.
      change (NUL =c NUL) with true. cbv iota.
      change (0 =? 0) with true. cbn [negb]. rewrite andb_false_r.
      reflexivity.
    + intros k Hk. rewrite Z.add_0_l. split.
      * apply char_at_not_nul; assumption.
      * rewrite char_at_token by (rewrite length_app; lia).
        apply char_at_app_l. exact Hk.
  - intros short rest Hrest Hnul. unfold correct_id_order.
    rewrite Nat2Z.id.
    pose proof (id_order_loop_agree (List.length short) (short ++ rest)
                  (pre ++ short ++ post) (Z.of_nat (List.length pre))
                  (Z.of_nat (List.length short)) 0 0) as Hag.
    rewrite Nat.add_0_r in Hag. rewrite Hag; clear Hag.
    + cbn [id_order_loop Z.add]. unfold id_order_end.
      assert (Hnz : char_at (short ++ rest) (Z.of_nat (List.length short))
                    <> NUL).
      { apply char_at_not_nul; [exact Hnul |].
        rewrite length_app. destruct rest; [contradiction |].
        cbn [List.length]. lia. }
      destruct (Ascii.eqb_spec
                  (char_at (short ++ rest) (Z.of_nat (List.length short)))
                  NUL) as [E | _]; [contradiction |].
      rewrite Z.eqb_refl. change (DOT =c DOT) with true.
      change (0 =? 0) with true. cbn [negb]. rewrite !andb_false_r.
      reflexivity.
    + intros k Hk. rewrite Z.add_0_l. split.
      * apply char_at_not_nul; [exact Hnul |]. rewrite length_app. lia.
      * rewrite char_at_token by exact Hk.
        symmetry. apply char_at_app_l. exact Hk.
Qed.

Lemma correct_id_order_sigil_and_length_witness :
  (lit ".3" <> [] /\ ~ In NUL (lit ":1.2")
   /\ correct_id_order (lit ":1.2")
        (lit "(" ++ (lit ":1.2" ++ lit ".3") ++ lit " x)") 1 6 = true)
  /\ (lit ".3" <> [] /\ ~ In NUL (lit ":1.2" ++ lit ".3")
      /\ correct_id_order (lit ":1.2" ++ lit ".3")
           (lit "(" ++ lit ":1.2" ++ lit " x)") 1 4 = false).
Proof.
  destruct (correct_id_order_sigil_and_length (lit "(") (lit " x)"))
    as (_ & _ & Hshort & Hlong).
  assert (Hrest : lit ".3" <> []) by discriminate.
  assert (Hn1 : ~ In NUL (lit ":1.2")).
  { simpl. intros H. repeat (destruct H as [H | H]; [discriminate H |]).
    exact H. }
  assert (Hn2 : ~ In NUL (lit ":1.2" ++ lit ".3")).
  { simpl. intros H. repeat (destruct H as [H | H]; [discriminate H |]).
    exact H. }
  split; (split; [exact Hrest | split]); try assumption.
  - exact (Hshort (lit ":1.2") (lit ".3") Hrest Hn1).
  - exact (Hlong (lit ":1.2") (lit ".3") Hrest Hn2).
Defined.

(** ** Running monadic code to completion *)

Lemma fin_elim {A : Type} (m : M A) (w : World) (Q : A -> World -> Prop) :
  finishes m w Q -> exists a w', m w = Done (a, w') /\ Q a w'.
Proof.
  unfold finishes. destruct (m w) as [[a w'] | |]; try contradiction.
  intros H. exists a, w'. split; [reflexivity | exact H].
Qed.

Lemma fin_ret {A : Type} (a : A) w (Q : A -> World -> Prop) :
  Q a w -> finishes (ret a) w Q.
Proof. intros H. exact H. Qed.

Lemma fin_bind {A B : Type} (m : M A) (k : A -> M B) w
    (Q : B -> World -> Prop) :
  finishes m w (fun a w' => finishes (k a) w' Q) -> finishes (bind m k) w Q.
Proof.
  unfold finishes, bind. destruct (m w) as [[a w'] | |]; intros H; exact H.
Qed.

Lemma fin_get w (Q : State -> World -> Prop) : Q (st w) w -> finishes get w Q.
Proof. intros H. exact H. Qed.

Lemma fin_modify f w (Q : unit -> World -> Prop) :
  Q tt (mkWorld (f (st w)) (printed w)) -> finishes (modify f) w Q.
Proof. intros H. exact H. Qed.

Lemma fin_fail col msg w (Q : unit -> World -> Prop) :
  Q tt (mkWorld (set_status 1 (st w))
          (printed w
           ++ [mkDiag (filename (st w)) (lineno (st w)) (col + 1) msg])) ->
  finishes (fail col msg) w Q.
Proof. intros H. exact H. Qed.

Lemma fin_when (b : bool) m w (Q : unit -> World -> Prop) :
  (b = true -> finishes m w Q) ->
  (b = false -> Q tt w) ->
  finishes (when b m) w Q.
Proof. destruct b; intros Ht Hf; [apply Ht | apply Hf]; reflexivity. Qed.

Lemma fin_stack_get n w (Q : Z -> World -> Prop) :
  in_stack n = true ->
  Q (nth (Z.to_nat n) (stack (st w)) 0) w -> finishes (stack_get n) w Q.
Proof. intros Hn H. unfold finishes, stack_get. rewrite Hn. exact H. Qed.

Lemma fin_stack_put n v w (Q : unit -> World -> Prop) :
  in_stack n = true ->
  Q tt (mkWorld (set_stack (list_set (stack (st w)) (Z.to_nat n) (uint8 v))
                   (st w)) (printed w)) ->
  finishes (stack_put n v) w Q.
Proof. intros Hn H. unfold finishes, stack_put. rewrite Hn. exact H. Qed.

Lemma fin_store_name set line start len w (Q : unit -> World -> Prop) :
  0 <= len < MAX_COLUMNS ->
  Q tt (mkWorld (set (substr line start len) (st w)) (printed w)) ->
  finishes (store_name set line start len) w Q.
Proof.
  intros [Hlo Hhi] H. unfold finishes, store_name.
  replace (0 <=? len) with true by (symmetry; apply Z.leb_le; exact Hlo).
  replace (len <? MAX_COLUMNS) with true
    by (symmetry; apply Z.ltb_lt; exact Hhi).
  exact H.
Qed.

(** Reduce the projections of explicit worlds, states and locals. *)
Ltac proj :=
  cbn [st printed filename lineno status prev_blanks in_string num_wrappers
       quoted_align depth stack import_mode last_import_id last_import_name
       set_lineno set_status set_prev_blanks set_in_string set_num_wrappers
       set_quoted_align set_depth set_stack set_import_mode
       set_last_import_id set_last_import_name
       prev escaped two_spaces word_start mode set_mode set_two_spaces].

(** Decide the comparisons of concrete characters. *)
Ltac eval_eqb :=
  repeat match goal with
         | |- context [Ascii.eqb ?a ?b] =>
             let v := eval vm_compute in (Ascii.eqb a b) in
             match v with
             | true => change (Ascii.eqb a b) with true
             | false => change (Ascii.eqb a b) with false
             end
         end;
  cbn [andb orb negb]; cbv iota.

(** ** Import ordering on equal neighbours *)

Lemma c_str_nul_free (s : list ascii) : ~ In NUL s -> c_str s = s.
Proof.
  induction s as [| c s IH]; [reflexivity |]. intros Hn. simpl.
  destruct (Ascii.eqb_spec c NUL) as [E | _].
  - exfalso. apply Hn. left. exact E.
  - f_equal. apply IH. intros Hin. apply Hn. right. exact Hin.
Qed.

Lemma firstn_exact (s rest : list ascii) :
  firstn (List.length s) (s ++ rest) = s.
Proof.
  rewrite firstn_app, firstn_all, Nat.sub_diag. simpl. apply app_nil_r.
Qed.

Lemma substr_token (pre cur post : list ascii) :
  ~ In NUL cur ->
  substr (pre ++ cur ++ post) (Z.of_nat (List.length pre))
    (Z.of_nat (List.length cur)) = cur.
Proof.
  intros Hn. unfold substr. rewrite ptr_add_app, Nat2Z.id, firstn_exact.
  apply c_str_nul_free. exact Hn.
Qed.

(** Equal names: the comparison is strict, so the order is rejected. *)
Lemma correct_name_order_equal (pre name post : list ascii) :
  Z.of_nat (List.length name) < MAX_COLUMNS ->
  correct_name_order name (pre ++ name ++ post)
    (Z.of_nat (List.length pre)) (Z.of_nat (List.length name)) = false.
Proof.
  intros Hlen. unfold correct_name_order.
  rewrite ptr_add_app, size_t_of_length by exact Hlen.
  rewrite <- (app_nil_r name) at 1.
  rewrite strncmp_common_prefix. reflexivity.
Qed.

(** Equal identifiers: the order is accepted. *)
Lemma correct_id_order_equal (pre id post : list ascii) :
  ~ In NUL id ->
  correct_id_order id (pre ++ id ++ post)
    (Z.of_nat (List.length pre)) (Z.of_nat (List.length id)) = true.
Proof.
  intros Hn. unfold correct_id_order. rewrite Nat2Z.id.
  pose proof (id_order_loop_agree (List.length id) id (pre ++ id ++ post)
                (Z.of_nat (List.length pre)) (Z.of_nat (List.length id))
                0 0) as Hag.
  rewrite Nat.add_0_r in Hag. rewrite Hag; clear Hag.
  - cbn [id_order_loop Z.add]. unfold id_order_end.
    rewrite char_at_past_end, Z.eqb_refl.
    change (NUL =c NUL) with true. cbv iota.
    change (0 =? 0) with true. cbn [negb]. rewrite andb_false_r.
    reflexivity.
  - intros k Hk. rewrite Z.add_0_l. split.
    + apply char_at_not_nul; assumption.
    + apply char_at_token. exact Hk.
Qed.

Lemma char_at_after_token (pre cur : list ascii) (c : ascii)
    (post : list ascii) :
  char_at (pre ++ cur ++ c :: post)
    (Z.of_nat (List.length pre) + Z.of_nat (List.length cur)) = c.
Proof.
  rewrite char_at_app_r by lia.
  replace (Z.of_nat (List.length cur))
    with (Z.of_nat (List.length cur) + 0) by lia.
  rewrite char_at_app_r by lia. reflexivity.
Qed.

(** The shared name check, on a word equal to the stored name. *)
Lemma fin_check_name_order_equal (w : World) (pre name post : list ascii)
    (Q : unit -> World -> Prop) :
  last_import_name (st w) = name ->
  ~ In NUL name ->
  Z.of_nat (List.length name) < MAX_COLUMNS ->
  Q tt (mkWorld (set_status 1 (st w))
          (printed w
           ++ [mkDiag (filename (st w)) (lineno (st w))
                 (Z.of_nat (List.length pre) + 1)
                 (name_order_message name name)])) ->
  finishes (check_name_order (pre ++ name ++ post) (Z.of_nat (List.length pre))
          (Z.of_nat (List.length name))) w Q.
Proof.
  intros Hname Hn Hlen HQ. unfold check_name_order.
  apply fin_bind, fin_get. rewrite Hname.
  rewrite correct_name_order_equal by exact Hlen.
  rewrite substr_token by exact Hn.
  apply fin_fail. exact HQ.
Qed.

(** Symbolic execution of straight-line monadic code, one primitive at a
    time; conditions that are still open are split. *)
Ltac fin_go tac :=
  repeat
    (proj; tac;
     match goal with
     | |- finishes (bind _ _) _ _ => apply fin_bind
     | |- finishes (ret _) _ _ => apply fin_ret
     | |- finishes get _ _ => apply fin_get
     | |- finishes (modify _) _ _ => apply fin_modify
     | |- finishes (fail _ _) _ _ => apply fin_fail
     | |- finishes (store_name _ _ _ _) _ _ =>
         apply fin_store_name; [split; [lia | assumption] |]
     | |- finishes (stack_put _ _) _ _ =>
         apply fin_stack_put; [assumption |]
     | |- finishes (if ?b then _ else _) _ _ => destruct b
     end).

(** The appended diagnostics of a concrete run, up to three. *)
Ltac pick_printed :=
  proj; rewrite <- ?app_assoc; cbn [app];
  first
    [ exists []; reflexivity
    | eexists [_]; reflexivity
    | eexists [_; _]; reflexivity
    | eexists [_; _; _]; reflexivity ].

Lemma scan_char_repeated_name (w : World) (l : Locals)
    (pre name : list ascii) (c : ascii) (post : list ascii)
    (no_align : bool) :
  mode l = NORMAL ->
  word_start l = Z.of_nat (List.length pre) ->
  import_mode (st w) = IB_ID ->
  last_import_name (st w) = name ->
  ~ In NUL name ->
  Z.of_nat (List.length name) < MAX_COLUMNS ->
  c = " "%char \/ c = NL \/ c = ")"%char \/ c = "]"%char ->
  finishes
    (scan_char (pre ++ name ++ c :: post) no_align
       (Z.of_nat (List.length pre) + Z.of_nat (List.length name)) l) w
    (fun _ w' =>
       exists ds,
         printed w'
         = printed w ++ ds
           ++ [mkDiag (filename (st w)) (lineno (st w))
                 (Z.of_nat (List.length pre) + 1)
                 (name_order_message name name)]).
Proof.
  intros Hmode Hws Himp Hname Hn Hlen Hc.
  destruct l as [p e t ws m]. cbn in Hmode, Hws. subst m ws.
  unfold scan_char. rewrite char_at_after_token.
  unfold code_char, space_or_newline, close_paren.
  destruct (p =c " ") eqn:Ep; destruct t;
    destruct Hc as [-> | [-> | [-> | ->]]].
  all: repeat (progress (proj; rewrite ?Ep; eval_eqb)); unfold when;
    cbv iota.
  all: replace (Z.of_nat (List.length pre) + Z.of_nat (List.length name)
                - Z.of_nat (List.length pre))
         with (Z.of_nat (List.length name)) by lia.
  all: fin_go ltac:(rewrite ?Himp; cbn [ib_eqb ib_pred negb]; cbv iota).
  all: apply fin_check_name_order_equal;
    [proj; exact Hname | exact Hn | exact Hlen |].
  all: fin_go idtac.
  all: pick_printed.
Qed.

Lemma in_stack_range (n : Z) : 0 <= n < MAX_DEPTH -> in_stack n = true.
Proof.
  intros [Hlo Hhi]. unfold in_stack.
  apply andb_true_intro. split; [apply Z.leb_le | apply Z.ltb_lt]; assumption.
Qed.

(** ** The wrapper counter (C4) *)

Lemma bind_inv {A B : Type} (m : M A) (k : A -> M B) (w : World) (b : B)
    (w' : World) :
  bind m k w = Done (b, w') ->
  exists a w1, m w = Done (a, w1) /\ k a w1 = Done (b, w').
Proof.
  unfold bind. destruct (m w) as [[a w1] | |]; try discriminate.
  intros H. exists a, w1. split; [reflexivity | exact H].
Qed.

(** A conditional [fail] changes only [status] and the output. *)
Lemma when_fail_inv (b : bool) (col : Z) (msg : string) (w : World)
    (u : unit) (w' : World) :
  when b (fail col msg) w = Done (u, w') ->
  num_wrappers (st w') = num_wrappers (st w)
  /\ depth (st w') = depth (st w)
  /\ stack (st w') = stack (st w).
Proof.
  destruct b; unfold when, fail, ret; intros H; injection H as _ <-;
    repeat split.
Qed.

Lemma num_wrappers_frame (n : Z) :
  frame (fun w => num_wrappers (st w) = n).
Proof. constructor; intros; assumption. Qed.

(** One step of a preservation proof for an invariant with frame [HP]. *)
Ltac keep HP :=
  first
    [ apply preserves_bind; [| intros ?]
    | apply preserves_ret
    | apply preserves_get
    | apply preserves_assert
    | apply preserves_when
    | apply (preserves_fail HP)
    | apply preserves_stack_get
    | apply (preserves_stack_put HP)
    | apply (preserves_store_id HP)
    | apply (preserves_store_name HP)
    | apply (preserves_set_import_mode HP)
    | match goal with
      | |- preserves _ (if ?b then _ else _) => destruct b
      | |- preserves _ (match ?x with _ => _ end) => destruct x
      end ].

(** [classify_operator] increments [num_wrappers] exactly when the
    operator's rules carry the WRAPPER flag. *)
Lemma classify_operator_num_wrappers (line : list ascii) (i : Z)
    (c : ascii) (w : World) (u : unit) (w' : World) :
  classify_operator line i c w = Done (u, w') ->
  let start := nth (Z.to_nat (depth (st w))) (stack (st w)) 0 in
  num_wrappers (st w')
  = if has_flag (lookup_indent_rules line start (i - start)) IR_WRAPPER
    then int_incr (num_wrappers (st w))
    else num_wrappers (st w).
Proof.
  intros H start. unfold classify_operator in H.
  apply bind_inv in H. destruct H as (s & w1 & Hget & H).
  unfold get in Hget. injection Hget as <- <-.
  apply bind_inv in H. destruct H as (start' & w2 & Hsg & H).
  unfold stack_get in Hsg.
  destruct (in_stack (depth (st w))); [| discriminate Hsg].
  injection Hsg as <- <-. fold start in H. cbv zeta in H.
  apply bind_inv in H. destruct H as (u1 & w3 & Hw & H).
  set (X := if has_flag (lookup_indent_rules line start (i - start))
                 IR_WRAPPER
            then int_incr (num_wrappers (st w))
            else num_wrappers (st w)).
  assert (HX : num_wrappers (st w3) = X).
  { unfold X.
    destruct (has_flag (lookup_indent_rules line start (i - start))
                IR_WRAPPER);
      unfold when, modify, ret in Hw; injection Hw as _ <-; reflexivity. }
  match type of H with
  | ?m w3 = _ =>
      assert (Hp : preserves (fun w0 => num_wrappers (st w0) = X) m)
        by (repeat keep (num_wrappers_frame X))
  end.
  specialize (Hp w3 HX). rewrite H in Hp. exact Hp.
Qed.

Lemma scan_char_num_wrappers (line : list ascii) (no_align : bool) (i : Z)
    (l : Locals) (w : World) (r : option Locals) (w' : World) :
  scan_char line no_align i l w = Done (r, w') ->
  num_wrappers (st w')
  = if classifies_wrapper line i l (st w)
    then int_incr (num_wrappers (st w))
    else num_wrappers (st w).
Proof.
  intros H. unfold classifies_wrapper.
  assert (Hkeep : (mode l = OPERATOR ->
                   (char_at line i =c " ") || (char_at line i =c NL) = true ->
                   False) ->
                  num_wrappers (st w') = num_wrappers (st w)).
  { intros Hno.
    pose proof (@preserves_scan_char _
                  (num_wrappers_frame (num_wrappers (st w)))
                  line no_align i l) as Hp.
    assert (Hop : mode l = OPERATOR ->
                  (char_at line i =c " ") || (char_at line i =c NL) = true ->
                  preserves (fun w0 => num_wrappers (st w0)
                                       = num_wrappers (st w))
                    (classify_operator line i (char_at line i))).
    { intros Hm Hsp. destruct (Hno Hm Hsp). }
    specialize (Hp Hop w eq_refl). rewrite H in Hp. exact Hp. }
  destruct (mode l) eqn:Hmode;
    try (apply Hkeep; intros Hm; discriminate Hm).
  destruct ((char_at line i =c " ") || (char_at line i =c NL)) eqn:Hsp;
    [| apply Hkeep; intros _ Hf; discriminate Hf].
  cbn [andb]. clear Hkeep.
  unfold scan_char in H. rewrite Hmode in H.
  apply bind_inv in H. destruct H as (u1 & w1 & Htab & H).
  apply when_fail_inv in Htab. destruct Htab as (Hn1 & Hd1 & Hs1).
  apply bind_inv in H. destruct H as (r1 & w2 & H & Hk).
  assert (Hw2 : w' = w2)
    by (destruct r1; unfold ret in Hk; injection Hk as _ <-; reflexivity).
  apply bind_inv in H. destruct H as (l1 & w3 & H & Hk').
  unfold ret in Hk'. injection Hk' as _ Hw3. subst w' w2. clear Hk.
  unfold code_char in H.
  apply bind_inv in H. destruct H as (u2 & w4 & Htwo & H).
  apply when_fail_inv in Htwo. destruct Htwo as (Hn2 & Hd2 & Hs2).
  assert (Hrun : space_or_newline line i (char_at line i)
                   (if two_spaces l && negb (char_at line i =c " ")
                       && negb (char_at line i =c ";")
                    then set_two_spaces false l else l) w4
                 = Done (l1, w3)).
  { apply orb_true_iff in Hsp.
    destruct Hsp as [Hsp | Hsp]; apply Ascii.eqb_eq in Hsp;
      rewrite Hsp in H |- *; exact H. }
  clear H. unfold space_or_newline in Hrun.
  assert (Hm' : forall b1 b2 : bool,
            mode (if b1
                  then set_two_spaces true
                         (if b2 then set_two_spaces false l else l)
                  else if b2 then set_two_spaces false l else l)
            = OPERATOR)
    by (intros [] []; exact Hmode).
  rewrite Hm' in Hrun.
  apply bind_inv in Hrun. destruct Hrun as (u3 & w5 & Hcls & Hret).
  unfold ret in Hret. injection Hret as _ <-.
  rewrite (classify_operator_num_wrappers _ _ _ _ Hcls).
  rewrite Hn2, Hd2, Hs2, Hn1, Hd1, Hs1. reflexivity.
Qed.

(** X20.  [num_wrappers] is only ever incremented: a scanner step changes
    it only when it classifies an operator whose rules carry the WRAPPER
    flag, and then adds one; a step on a closing delimiter leaves it
    unchanged. *)
Theorem num_wrappers_counts_encountered :
  forall (line : list ascii) (no_align : bool) (i : Z) (l : Locals)
         (w : World) (r : option Locals) (w' : World),
    scan_char line no_align i l w = Done (r, w') ->
    num_wrappers (st w')
    = (if classifies_wrapper line i l (st w)
       then int_incr (num_wrappers (st w))
       else num_wrappers (st w))
    /\ (char_at line i = ")"%char \/ char_at line i = "]"%char ->
        num_wrappers (st w') = num_wrappers (st w)).
Proof.
  intros line no_align i l w r w' H.
  pose proof (scan_char_num_wrappers _ _ _ _ _ H) as Hstep.
  split; [exact Hstep |].
  intros Hc. rewrite Hstep. unfold classifies_wrapper.
  destruct (mode l); try reflexivity.
  destruct Hc as [-> | ->]; reflexivity.
Qed.

Lemma num_wrappers_counts_encountered_witness :
  match scan_char (ln "(SICP") false 5
          (mkLocals "P" false false 0 OPERATOR) after_open_paren with
  | Done (_, w') => num_wrappers (st w') = 1
  | _ => False
  end.
Proof.
  destruct (scan_char (ln "(SICP") false 5
              (mkLocals "P" false false 0 OPERATOR) after_open_paren)
    as [[r w'] | |] eqn:E.
  - destruct (num_wrappers_counts_encountered _ _ _ _ _ E) as [H _].
    rewrite H. vm_compute. reflexivity.
  - vm_compute in E. discriminate E.
  - vm_compute in E. discriminate E.
Defined.

(** C4.  The claim: [num_wrappers] is the number of wrapper forms that are
    open, so that closing one lets a later wrapper form be treated like the
    first.  The code never decrements it.  After the top-level form
      (SICP
      x
      )
    is closed no form is open (depth 0), yet [num_wrappers] is 1.  The
    form passes on its own, but a second, identical form after it is
    reported for the layout that the comment on IR_WRAPPER documents:
    "incorrect indentation" on its unindented contents and on its closing
    delimiter.  Likewise a [define] directly inside a [library] wrapper
    passes, but after an inner wrapper form that is already closed its
    closing delimiter is taken for the wrapper's. *)
Theorem second_wrapper_form_misreported :
  printed_of (run_world wrapper_form) = Some []
  /\ option_map depth (state_of (run_world wrapper_form)) = Some 0
  /\ option_map num_wrappers (state_of (run_world wrapper_form)) = Some 1
  /\ printed_of (run_world (wrapper_form ++ wrapper_form))
     = Some [mkDiag "f.ss" 5 1 "incorrect indentation";
             mkDiag "f.ss" 6 1 "incorrect indentation"]
  /\ printed_of (run_world define_in_library) = Some []
  /\ printed_of (run_world define_after_inner_wrapper)
     = Some [mkDiag "f.ss" 6 4 "expected ')' at start of line for wrapper"].
Proof. repeat split; vm_compute; reflexivity. Qed.

(** ** Line length (C3) *)

(** C3.  The claim: a line 81 columns wide (without its terminator) is
    reported as "line too long: 81 > 80" at column 80.  The code tests
    [line_len - 1 > MAX_COLUMNS] but prints [line_len], which counts the
    newline: the message is "line too long: 82 > 80". *)
Theorem line_too_long_reports_length_with_newline :
  List.length line_of_81_columns = 82%nat
  /\ printed_of (lint_line line_of_81_columns
                   (mkWorld (initial_state "f.ss") []))
     = Some [mkDiag "f.ss" 1 80 "line too long: 82 > 80"].
Proof. split; vm_compute; reflexivity. Qed.

(** ** Strings across lines (C5) *)

(** C5.  The claim: a line entered with [in_string] set is scanned in
    string mode, also when it starts with a semicolon.  The code tests
    [line[0] == ';'] before it looks at [in_string]: the second line of
      (display "abc
      ;x")
    is handled as a comment line.  It is reported for a missing space after
    the semicolon, its closing quote is never seen, and the string stays
    open.  A continuation line that does not start with a semicolon is
    scanned in string mode, and the blank-line check does test
    [in_string]. *)
Theorem semicolon_line_inside_string_is_comment_checked :
  option_map in_string (state_of (run_world [string_opening_line]))
  = Some true
  /\ printed_of (run_world [string_opening_line; string_closing_line])
     = Some [mkDiag "f.ss" 2 2 "missing space after ';'"]
  /\ option_map in_string
       (state_of (run_world [string_opening_line; string_closing_line]))
     = Some true
  /\ printed_of (run_world [string_opening_line; string_closing_line'])
     = Some []
  /\ option_map in_string
       (state_of (run_world [string_opening_line; string_closing_line']))
     = Some false.
Proof. repeat split; vm_compute; reflexivity. Qed.

(** The same happens on every line that is entered inside a string and
    starts with a semicolon: it is checked as a comment line, none of its
    characters is scanned, and the string stays open whatever the line
    contains. *)
Lemma semicolon_line_keeps_string_open (w : World) (body : list ascii) :
  in_string (st w) = true ->
  0 <= depth (st w) < MAX_DEPTH ->
  let line := ";"%char :: body ++ [NL] in
  printed_of (lint_line line w)
  = Some (printed w ++ comment_line_diags (st w) line)
  /\ option_map in_string (state_of (lint_line line w)) = Some true.
Proof.
  intros Hstr Hd line. rewrite <- Hstr. apply lint_line_comment.
  - unfold line. cbn [List.length]. rewrite length_app.
    cbn [List.length]. lia.
  - unfold line.
    change (";"%char :: body ++ [NL]) with ((";"%char :: body) ++ [NL]).
    replace (Z.of_nat (List.length ((";"%char :: body) ++ [NL])) - 1)
      with (Z.of_nat (List.length (";"%char :: body)) + 0)
      by (rewrite length_app; cbn [List.length]; lia).
    rewrite char_at_app_r by lia. reflexivity.
  - exact Hd.
  - reflexivity.
Qed.

(** ** Assertions (C7) *)

(** C7.  The claim: with nesting below the maximum depth, linting always
    completes, whatever the input.  An unmatched closing delimiter takes
    [depth] to -1, and the next call of [lint_line] fails
    [assert(state->depth >= 0)]: the two-line file
      )
      x
    aborts the process, although its nesting depth never exceeds 0. *)
Theorem unmatched_close_paren_fails_assertion :
  option_map depth (state_of (run_world [ln ")"])) = Some (-1)
  /\ lint (fun _ => Some (ln ")" ++ ln "x")) "f.ss" = AssertionFailed.
Proof. split; vm_compute; reflexivity. Qed.

(** ** Two facts about every non-blank line *)

Lemma assert_inv (b : bool) (w : World) (u : unit) (w' : World) :
  assert b w = Done (u, w') -> b = true /\ w' = w.
Proof.
  unfold assert. destruct b; intros H; [| discriminate H].
  injection H as _ <-. split; reflexivity.
Qed.

(** The world a non-blank line is checked in after the entry assertions and
    the reset of the blank-line counter, and the rest of [lint_line] as a
    computation [m] that keeps every framed invariant. *)
Lemma lint_line_nonblank_inv (line : list ascii) (w : World) (u : unit)
    (w' : World) :
  lint_line line w = Done (u, w') ->
  Z.of_nat (List.length line) <> 1 ->
  exists m : M unit,
    (when (Z.of_nat (List.length line) - 1 >? MAX_COLUMNS)
       (fail (MAX_COLUMNS - 1)
          ("line too long: " ++ dec (Z.of_nat (List.length line)) ++ " > "
           ++ dec MAX_COLUMNS)) ;; m)
      (mkWorld (set_prev_blanks 0 (st w)) (printed w)) = Done (u, w')
    /\ forall P : World -> Prop,
         frame P ->
         (forall w0 v,
            P w0 -> P (mkWorld (set_num_wrappers v (st w0)) (printed w0))) ->
         preserves P m.
Proof.
  intros H Hlen. unfold lint_line in H.
  apply bind_inv in H. destruct H as (u1 & w1 & Ha & H).
  apply assert_inv in Ha. destruct Ha as [_ ->].
  apply bind_inv in H. destruct H as (u2 & w2 & Ha & H).
  apply assert_inv in Ha. destruct Ha as [_ ->].
  apply bind_inv in H. destruct H as (s & w3 & Hg & H).
  unfold get in Hg. injection Hg as <- <-.
  apply bind_inv in H. destruct H as (u3 & w4 & Ha & H).
  apply assert_inv in Ha. destruct Ha as [_ ->].
  apply bind_inv in H. destruct H as (u4 & w5 & Ha & H).
  apply assert_inv in Ha. destruct Ha as [_ ->].
  destruct (Z.eqb_spec (Z.of_nat (List.length line)) 1) as [E | _];
    [contradiction |].
  apply bind_inv in H. destruct H as (u5 & w6 & Hm & H).
  unfold modify in Hm. injection Hm as _ <-.
  eexists. split; [exact H |].
  intros P HP Hnw. unfold comment_line.
  repeat first [ apply (preserves_scan HP Hnw) | keep HP ].
Qed.

(** Every non-blank line leaves the blank-line counter at 0, the value a
    run of blank lines starts from. *)
Lemma lint_line_resets_prev_blanks (line : list ascii) (w : World)
    (u : unit) (w' : World) :
  lint_line line w = Done (u, w') ->
  Z.of_nat (List.length line) <> 1 ->
  prev_blanks (st w') = 0.
Proof.
  intros H Hlen.
  destruct (lint_line_nonblank_inv _ _ H Hlen) as (m & Hrun & Hm).
  assert (HP : frame (fun w0 => prev_blanks (st w0) = 0))
    by (constructor; intros; assumption).
  assert (Hall : preserves (fun w0 => prev_blanks (st w0) = 0)
                   (when (Z.of_nat (List.length line) - 1 >? MAX_COLUMNS)
                      (fail (MAX_COLUMNS - 1)
                         ("line too long: "
                          ++ dec (Z.of_nat (List.length line)) ++ " > "
                          ++ dec MAX_COLUMNS)) ;; m)).
  { apply preserves_bind.
    - apply preserves_when. apply (preserves_fail HP).
    - intros _. apply Hm; [exact HP | intros; assumption]. }
  specialize (Hall _ (eq_refl : prev_blanks
                          (st (mkWorld (set_prev_blanks 0 (st w))
                                 (printed w))) = 0)).
  rewrite Hrun in Hall. exact Hall.
Qed.

(** Whatever a line longer than 80 columns contains, the first diagnostic
    it prints reports [line_len], the length with the newline. *)
Lemma lint_line_too_long (line : list ascii) (w : World) (u : unit)
    (w' : World) :
  lint_line line w = Done (u, w') ->
  MAX_COLUMNS < Z.of_nat (List.length line) - 1 ->
  exists ds,
    printed w'
    = printed w
      ++ mkDiag (filename (st w)) (lineno (st w)) MAX_COLUMNS
           ("line too long: " ++ dec (Z.of_nat (List.length line)) ++ " > "
            ++ dec MAX_COLUMNS)
         :: ds.
Proof.
  intros H Hlong.
  assert (Hlen : Z.of_nat (List.length line) <> 1)
    by (unfold MAX_COLUMNS in Hlong; lia).
  destruct (lint_line_nonblank_inv _ _ H Hlen) as (m & Hrun & Hm).
  apply bind_inv in Hrun. destruct Hrun as (u1 & w1 & Hf & Hrun).
  replace (Z.of_nat (List.length line) - 1 >? MAX_COLUMNS) with true in Hf
    by (symmetry; apply Z.gtb_lt; exact Hlong).
  unfold when, fail in Hf. injection Hf as _ <-.
  set (D := mkDiag (filename (st w)) (lineno (st w)) MAX_COLUMNS
              ("line too long: " ++ dec (Z.of_nat (List.length line))
               ++ " > " ++ dec MAX_COLUMNS)).
  set (P := fun w0 : World => exists ds, printed w0 = printed w ++ D :: ds).
  assert (HP : frame P).
  { constructor; try (intros w0 v Hw0; exact Hw0).
    intros w0 col msg [ds Hds]. unfold P. cbn [printed]. rewrite Hds.
    exists (ds ++ [mkDiag (filename (st w0)) (lineno (st w0)) (col + 1) msg]).
    rewrite <- app_assoc. reflexivity. }
  assert (Hnw : forall w0 v,
            P w0 -> P (mkWorld (set_num_wrappers v (st w0)) (printed w0)))
    by (intros w0 v Hw0; exact Hw0).
  pose proof (Hm P HP Hnw) as Hkeep.
  match type of Hrun with
  | m ?w1 = _ => assert (H1 : P w1) by (exists []; reflexivity);
                 specialize (Hkeep w1 H1)
  end.
  rewrite Hrun in Hkeep. exact Hkeep.
Qed.

(** * Further properties of the linter *)

(** ** What a line prints *)

Lemma printing_line_frame (f : string) (n : Z) (base : list Diagnostic) :
  frame (printing_line f n base).
Proof.
  constructor; try (intros w v H; exact H).
  intros w col msg (Hf & Hn & ds & Hds & Hall).
  split; [exact Hf | split; [exact Hn |]].
  exists (ds ++ [mkDiag (filename (st w)) (lineno (st w)) (col + 1) msg]).
  cbn [printed]. rewrite Hds, <- app_assoc. split; [reflexivity |].
  apply Forall_app. split; [exact Hall |].
  constructor; [| constructor]. split; assumption.
Qed.

(** X1.  Whatever a line contains, [lint_line] only appends to the output:
    what was printed before is kept, and every diagnostic it adds carries
    the state's file name and current line number, which it leaves
    unchanged. *)
Theorem lint_line_appends_tagged_diagnostics :
  forall (line : list ascii) (w : World) (u : unit) (w' : World),
    lint_line line w = Done (u, w') ->
    filename (st w') = filename (st w)
    /\ lineno (st w') = lineno (st w)
    /\ exists ds,
         printed w' = printed w ++ ds
         /\ Forall (on_line (filename (st w)) (lineno (st w))) ds.
Proof.
  intros line w u w' H.
  pose proof (@preserves_lint_line _
                (printing_line_frame (filename (st w)) (lineno (st w))
                   (printed w))) as Hp.
  assert (Hinit : printing_line (filename (st w)) (lineno (st w))
                    (printed w) w).
  { split; [reflexivity | split; [reflexivity |]].
    exists []. rewrite app_nil_r. split; [reflexivity | constructor]. }
  specialize (Hp (fun w0 v H0 => H0) (fun w0 v H0 => H0) line w Hinit).
  rewrite H in Hp. exact Hp.
Qed.

Lemma lint_line_appends_tagged_diagnostics_witness :
  match lint_line (ln "(f  x) ") (mkWorld (initial_state "f.ss") []) with
  | Done (_, w') =>
      exists ds, printed w' = [] ++ ds /\ Forall (on_line "f.ss" 1) ds
  | _ => False
  end.
Proof.
  destruct (lint_line (ln "(f  x) ") (mkWorld (initial_state "f.ss") []))
    as [[u w'] | |] eqn:E.
  - destruct (lint_line_appends_tagged_diagnostics _ _ E) as (_ & _ & H).
    exact H.
  - vm_compute in E. discriminate E.
  - vm_compute in E. discriminate E.
Defined.

(** ** The status flag *)

(** X2.  Once [status] is 1 it stays 1 for the rest of the file: no line,
    whatever it contains, resets it. *)
Theorem status_stays_failed :
  forall (lines : list (list ascii)) (w : World) (u : unit) (w' : World),
    lint_lines lines w = Done (u, w') ->
    status (st w) = 1 ->
    status (st w') = 1.
Proof.
  intros lines w u w' H Hs.
  assert (HP : frame (fun w0 => status (st w0) = 1))
    by (constructor; intros; first [assumption | reflexivity]).
  pose proof (@preserves_lint_lines _ HP (fun w0 v H0 => H0)
                (fun w0 v H0 => H0) (fun w0 v H0 => H0) lines w Hs) as Hp.
  rewrite H in Hp. exact Hp.
Qed.

Lemma status_stays_failed_witness :
  match lint_lines [ln "(define x 1)"; ln "x"]
          (mkWorld (set_status 1 (initial_state "f.ss")) []) with
  | Done (_, w') => status (st w') = 1
  | _ => False
  end.
Proof.
  destruct (lint_lines [ln "(define x 1)"; ln "x"]
              (mkWorld (set_status 1 (initial_state "f.ss")) []))
    as [[u w'] | |] eqn:E.
  - apply (status_stays_failed _ _ E). reflexivity.
  - vm_compute in E. discriminate E.
  - vm_compute in E. discriminate E.
Defined.

(** ** Blank lines inside a string *)

(** X3.  Inside a string literal that spans lines, blank lines are never
    reported, however many follow each other, and the string stays open. *)
Theorem blank_lines_in_string_silent :
  forall (N : nat) (w : World),
    in_string (st w) = true ->
    0 <= depth (st w) < MAX_DEPTH ->
    printed_of (lint_lines (repeat [NL] N) w) = Some (printed w)
    /\ option_map in_string (state_of (lint_lines (repeat [NL] N) w))
       = Some true.
Proof.
  induction N as [| N IH]; intros w Hstr Hd.
  - split; [reflexivity | simpl; rewrite Hstr; reflexivity].
  - change (repeat [NL] (S N)) with ([NL] :: repeat [NL] N).
    rewrite lint_lines_blank by exact Hd.
    assert (Hq : after_blank w
                 = mkWorld (set_prev_blanks (int_incr (prev_blanks (st w)))
                              (st w)) (printed w))
      by (unfold after_blank; rewrite Hstr; reflexivity).
    rewrite Hq.
    destruct (IH (next_line
                    (mkWorld (set_prev_blanks (int_incr (prev_blanks (st w)))
                                (st w)) (printed w))) Hstr Hd)
      as [Hout Hin].
    split; [exact Hout | exact Hin].
Qed.

Lemma blank_lines_in_string_silent_witness :
  printed_of (lint_lines (repeat [NL] 3)
                (mkWorld (set_in_string true (initial_state "f.ss")) []))
  = Some [].
Proof.
  apply (blank_lines_in_string_silent 3
           (mkWorld (set_in_string true (initial_state "f.ss")) [])).
  - reflexivity.
  - simpl. unfold MAX_DEPTH. lia.
Defined.

(** ** Trailing whitespace *)

Lemma extends_frame (base : list Diagnostic) :
  frame (fun w0 => exists ds, printed w0 = base ++ ds).
Proof.
  constructor; try (intros w v H; exact H).
  intros w col msg [ds Hds].
  exists (ds ++ [mkDiag (filename (st w)) (lineno (st w)) (col + 1) msg]).
  cbn [printed]. rewrite Hds, <- app_assoc. reflexivity.
Qed.

(** The first two checks of a non-blank line, and the rest of [lint_line]
    as a computation [m] that keeps every framed invariant. *)
Lemma lint_line_step1_inv (line : list ascii) (w : World) (u : unit)
    (w' : World) :
  lint_line line w = Done (u, w') ->
  Z.of_nat (List.length line) <> 1 ->
  exists m : M unit,
    (when (Z.of_nat (List.length line) - 1 >? MAX_COLUMNS)
       (fail (MAX_COLUMNS - 1)
          ("line too long: " ++ dec (Z.of_nat (List.length line)) ++ " > "
           ++ dec MAX_COLUMNS)) ;;
     when (char_at line (Z.of_nat (List.length line) - 2) =c " ")
       (fail (Z.of_nat (List.length line) - 2) "trailing whitespace") ;;
     m)
      (mkWorld (set_prev_blanks 0 (st w)) (printed w)) = Done (u, w')
    /\ forall P : World -> Prop,
         frame P ->
         (forall w0 v,
            P w0 -> P (mkWorld (set_num_wrappers v (st w0)) (printed w0))) ->
         preserves P m.
Proof.
  intros H Hlen. unfold lint_line in H.
  apply bind_inv in H. destruct H as (u1 & w1 & Ha & H).
  apply assert_inv in Ha. destruct Ha as [_ ->].
  apply bind_inv in H. destruct H as (u2 & w2 & Ha & H).
  apply assert_inv in Ha. destruct Ha as [_ ->].
  apply bind_inv in H. destruct H as (s & w3 & Hg & H).
  unfold get in Hg. injection Hg as <- <-.
  apply bind_inv in H. destruct H as (u3 & w4 & Ha & H).
  apply assert_inv in Ha. destruct Ha as [_ ->].
  apply bind_inv in H. destruct H as (u4 & w5 & Ha & H).
  apply assert_inv in Ha. destruct Ha as [_ ->].
  destruct (Z.eqb_spec (Z.of_nat (List.length line)) 1) as [E | _];
    [contradiction |].
  apply bind_inv in H. destruct H as (u5 & w6 & Hm & H).
  unfold modify in Hm. injection Hm as _ <-.
  eexists. split; [exact H |].
  intros P HP Hnw. unfold comment_line.
  repeat first [ apply (preserves_scan HP Hnw) | keep HP ].
Qed.

(** X4.  A space right before the newline is always reported: on code
    lines, comment lines and lines inside a string alike, "trailing
    whitespace" is printed at the space's column, preceded by at most the
    line-length diagnostic. *)
Theorem trailing_space_always_flagged :
  forall (line : list ascii) (w : World) (u : unit) (w' : World),
    lint_line line w = Done (u, w') ->
    2 <= Z.of_nat (List.length line) ->
    char_at line (Z.of_nat (List.length line) - 2) = " "%char ->
    exists before after,
      printed w'
      = printed w ++ before
        ++ mkDiag (filename (st w)) (lineno (st w))
             (Z.of_nat (List.length line) - 1) "trailing whitespace"
           :: after
      /\ (List.length before <= 1)%nat.
Proof.
  intros line w u w' H Hlen Hsp.
  destruct (lint_line_step1_inv _ _ H ltac:(lia)) as (m & Hrun & Hm).
  apply bind_inv in Hrun. destruct Hrun as (u1 & w1 & Hlong & Hrun).
  apply bind_inv in Hrun. destruct Hrun as (u2 & w2 & Htr & Hrun).
  rewrite Hsp in Htr. change (" "%char =c " "%char) with true in Htr.
  unfold when, fail in Htr. injection Htr as _ <-.
  assert (H1 : exists before,
             printed w1 = printed w ++ before
             /\ (List.length before <= 1)%nat
             /\ filename (st w1) = filename (st w)
             /\ lineno (st w1) = lineno (st w)).
  { destruct (Z.of_nat (List.length line) - 1 >? MAX_COLUMNS);
      unfold when, fail, ret in Hlong; injection Hlong as _ <-.
    - eexists [_].
      split; [reflexivity | split; [simpl; lia | split; reflexivity]].
    - exists []. cbn [printed]. rewrite app_nil_r.
      split; [reflexivity | split; [simpl; lia | split; reflexivity]]. }
  destruct H1 as (before & Hp1 & Hb & Hf1 & Hn1).
  set (D := mkDiag (filename (st w)) (lineno (st w))
              (Z.of_nat (List.length line) - 1) "trailing whitespace").
  pose proof (Hm _ (extends_frame ((printed w ++ before) ++ [D]))
                (fun w0 v H0 => H0)) as Hkeep.
  match type of Hrun with
  | m ?w2 = _ =>
      assert (H2 : exists ds,
                 printed w2 = ((printed w ++ before) ++ [D]) ++ ds)
  end.
  { exists []. cbn [printed]. rewrite Hp1, Hf1, Hn1, app_nil_r.
    unfold D.
    replace (Z.of_nat (List.length line) - 2 + 1)
      with (Z.of_nat (List.length line) - 1) by lia.
    reflexivity. }
  specialize (Hkeep _ H2). rewrite Hrun in Hkeep.
  destruct Hkeep as [after Hafter].
  exists before, after. split; [| exact Hb].
  rewrite Hafter, <- !app_assoc. reflexivity.
Qed.

Lemma trailing_space_always_flagged_witness :
  match lint_line (ln "; note ") (mkWorld (initial_state "f.ss") []) with
  | Done (_, w') =>
      exists before after,
        printed w'
        = [] ++ before ++ mkDiag "f.ss" 1 7 "trailing whitespace" :: after
        /\ (List.length before <= 1)%nat
  | _ => False
  end.
Proof.
  destruct (lint_line (ln "; note ") (mkWorld (initial_state "f.ss") []))
    as [[u w'] | |] eqn:E.
  - apply (trailing_space_always_flagged _ _ E).
    + vm_compute. discriminate.
    + reflexivity.
  - vm_compute in E. discriminate E.
  - vm_compute in E. discriminate E.
Defined.

(** ** Reading the file *)

Lemma getlines_from_concat (bytes : list ascii) :
  forall cur, List.concat (getlines_from cur bytes) = rev cur ++ bytes.
Proof.
  induction bytes as [| c rest IH]; intros cur; cbn [getlines_from].
  - destruct cur; simpl; rewrite ?app_nil_r; reflexivity.
  - destruct (c =c NL).
    + cbn [List.concat]. rewrite IH. cbn [rev app].
      rewrite <- app_assoc. reflexivity.
    + rewrite IH. cbn [rev]. rewrite <- app_assoc. reflexivity.
Qed.

Lemma getlines_from_well_split (bytes : list ascii) :
  forall cur, ~ In NL cur -> well_split (getlines_from cur bytes).
Proof.
  induction bytes as [| c rest IH]; intros cur Hcur; cbn [getlines_from].
  - destruct cur as [| x cur']; [exact I |].
    right. split; [| reflexivity]. split.
    + intros E. apply (f_equal (@List.length ascii)) in E.
      rewrite length_rev in E. discriminate E.
    + intros Hin. apply Hcur. apply in_rev. exact Hin.
  - destruct (Ascii.eqb_spec c NL) as [-> | Hc].
    + left. split.
      * exists (rev cur). split; [reflexivity |].
        intros Hin. apply Hcur. apply in_rev. exact Hin.
      * apply IH. intros [].
    + apply IH. intros [E | Hin]; [apply Hc; exact E |].
      apply Hcur. exact Hin.
Qed.

(** X5.  Reading loses nothing: the lines handed to [lint_line] are the
    file's bytes cut after each newline.  Concatenated they give the file
    back; every line but the last ends with its only newline, and the last
    one may lack it when the file does. *)
Theorem getlines_round_trip :
  forall bytes : list ascii,
    List.concat (getlines bytes) = bytes /\ well_split (getlines bytes).
Proof.
  intros bytes. unfold getlines. split.
  - apply (getlines_from_concat bytes []).
  - apply getlines_from_well_split. intros [].
Qed.

Lemma getlines_from_unterminated (front : list ascii) (c : ascii) :
  c <> NL ->
  forall cur, ~ In NL cur ->
    exists init l,
      getlines_from cur (front ++ [c]) = init ++ [l] /\ unterminated l.
Proof.
  intros Hc. induction front as [| x front IH]; intros cur Hcur.
  - cbn [app getlines_from].
    destruct (Ascii.eqb_spec c NL) as [E | _]; [contradiction |].
    exists [], (rev (c :: cur)). split; [reflexivity |]. split.
    + intros E. apply (f_equal (@List.length ascii)) in E.
      rewrite length_rev in E. discriminate E.
    + intros Hin. apply in_rev in Hin.
      destruct Hin as [E | Hin]; [apply Hc; exact E |].
      apply Hcur. exact Hin.
  - change ((x :: front) ++ [c]) with (x :: (front ++ [c])).
    cbn [getlines_from].
    destruct (Ascii.eqb_spec x NL) as [-> | Hx].
    + destruct (IH [] (fun H => H)) as (init & l & Hg & Hl).
      exists (rev (NL :: cur) :: init), l. rewrite Hg. split; [| exact Hl].
      reflexivity.
    + apply IH. intros [E | Hin]; [apply Hx; exact E |].
      apply Hcur. exact Hin.
Qed.

Lemma lint_lines_app (a b : list (list ascii)) (w : World) :
  lint_lines (a ++ b) w = (lint_lines a ;; lint_lines b) w.
Proof.
  revert w. induction a as [| l a IH]; intros w; [reflexivity |].
  cbn [app lint_lines]. unfold bind.
  destruct (lint_line l w) as [[u1 w1] | |]; try reflexivity.
  unfold modify. rewrite IH. unfold bind. reflexivity.
Qed.

Lemma lint_line_unterminated (l : list ascii) (w : World) :
  unterminated l -> lint_line l w = AssertionFailed.
Proof.
  intros [Hne Hnl]. unfold lint_line, bind, assert.
  replace (Z.of_nat (List.length l) >? 0) with true
    by (symmetry; apply Z.gtb_lt; destruct l;
        [contradiction | cbn [List.length]; lia]).
  destruct (Ascii.eqb_spec (char_at l (Z.of_nat (List.length l) - 1)) NL)
    as [E | _]; [| reflexivity].
  exfalso. apply Hnl. rewrite <- E. unfold char_at. apply nth_In.
  destruct l; [contradiction | cbn [List.length]; lia].
Qed.

(** X6.  A file whose last byte is not a newline is never linted to
    completion: [getline] returns its last line without a terminator, and
    [lint_line], when the earlier lines let it be reached, fails its
    assertion that the line ends with a newline. *)
Theorem file_without_final_newline_aborts :
  forall (fs : FileSystem) (name : string) (front : list ascii) (c : ascii),
    fs name = Some (front ++ [c]) ->
    c <> NL ->
    lint fs name = AssertionFailed \/ lint fs name = OutOfBounds.
Proof.
  intros fs name front c Hfs Hc. unfold lint. rewrite Hfs. unfold getlines.
  destruct (getlines_from_unterminated front Hc [] (fun H => H))
    as (init & l & Hg & Hl).
  rewrite Hg, lint_lines_app. unfold bind.
  destruct (lint_lines init (mkWorld (initial_state name) []))
    as [[u1 w1] | |]; [| left; reflexivity | right; reflexivity].
  cbn [lint_lines]. unfold bind.
  rewrite (lint_line_unterminated w1 Hl). left. reflexivity.
Qed.

Lemma file_without_final_newline_aborts_witness :
  lint (fun _ => Some (ln "(define x 1)" ++ lit "x")) "f.ss"
  = AssertionFailed
  \/ lint (fun _ => Some (ln "(define x 1)" ++ lit "x")) "f.ss" = OutOfBounds.
Proof.
  apply (file_without_final_newline_aborts
           (fun _ => Some (ln "(define x 1)" ++ lit "x")) "f.ss"
           (ln "(define x 1)") (c := "x"%char)).
  - reflexivity.
  - discriminate.
Defined.

(** ** Line numbers of a file's diagnostics *)

Lemma lint_line_printing_line (line : list ascii) (w : World) (u : unit)
    (w' : World) :
  lint_line line w = Done (u, w') ->
  printing_line (filename (st w)) (lineno (st w)) (printed w) w'.
Proof.
  intros H.
  pose proof (@preserves_lint_line _
                (printing_line_frame (filename (st w)) (lineno (st w))
                   (printed w))) as Hp.
  assert (Hinit : printing_line (filename (st w)) (lineno (st w))
                    (printed w) w).
  { split; [reflexivity | split; [reflexivity |]].
    exists []. rewrite app_nil_r. split; [reflexivity | constructor]. }
  specialize (Hp (fun w0 v H0 => H0) (fun w0 v H0 => H0) line w Hinit).
  rewrite H in Hp. exact Hp.
Qed.

Lemma lines_ascend_app (n : Z) (ds1 ds2 : list Diagnostic) :
  Forall (fun d => d_line d = n) ds1 ->
  Forall (fun d => n <= d_line d) ds2 ->
  lines_ascend ds2 ->
  lines_ascend (ds1 ++ ds2).
Proof.
  intros H1 H2 Hasc. induction H1 as [| d ds1 Hd H1 IH]; [exact Hasc |].
  cbn [app lines_ascend]. split; [| exact IH].
  apply Forall_app. split.
  - apply Forall_impl with (2 := H1). intros e He. lia.
  - apply Forall_impl with (2 := H2). intros e He. lia.
Qed.

Lemma lint_lines_in_order (lines : list (list ascii)) :
  forall (w : World) (u : unit) (w' : World),
    lint_lines lines w = Done (u, w') ->
    0 <= lineno (st w) ->
    lineno (st w) + Z.of_nat (List.length lines) < 2 ^ 31 ->
    filename (st w') = filename (st w)
    /\ lineno (st w') = lineno (st w) + Z.of_nat (List.length lines)
    /\ exists ds,
         printed w' = printed w ++ ds
         /\ Forall (in_lines (filename (st w)) (lineno (st w))
                      (lineno (st w) + Z.of_nat (List.length lines))) ds
         /\ lines_ascend ds.
Proof.
  induction lines as [| l rest IH]; intros w u w' H Hlo Hhi.
  - cbn in H. unfold ret in H. injection H as _ <-.
    split; [reflexivity | split; [cbn [List.length]; lia |]].
    exists []. rewrite app_nil_r.
    split; [reflexivity | split; [constructor | exact I]].
  - cbn [lint_lines] in H.
    apply bind_inv in H. destruct H as (u1 & w1 & Hline & H).
    apply bind_inv in H. destruct H as (u2 & w2 & Hmod & H).
    unfold modify in Hmod. injection Hmod as _ <-.
    destruct (lint_line_printing_line _ _ Hline)
      as (Hf1 & Hn1 & ds1 & Hp1 & Hall1).
    cbn [List.length] in Hhi |- *.
    assert (Hnext : int_incr (lineno (st w1)) = lineno (st w) + 1)
      by (rewrite Hn1; apply int_incr_small; int_lia).
    destruct (IH _ _ _ H) as (Hf2 & Hn2 & ds2 & Hp2 & Hall2 & Hasc2).
    + cbn [st lineno set_lineno]. rewrite Hnext. lia.
    + cbn [st lineno set_lineno]. rewrite Hnext. lia.
    + cbn [st printed filename lineno set_lineno] in Hf2, Hn2, Hp2, Hall2.
      rewrite Hnext in Hn2, Hall2. rewrite Hf1 in Hf2, Hall2.
      split; [exact Hf2 | split; [lia |]].
      exists (ds1 ++ ds2). rewrite Hp2, Hp1, <- app_assoc.
      split; [reflexivity | split].
      * apply Forall_app. split.
        -- apply Forall_impl with (2 := Hall1).
           intros d [Hdf Hdn]. split; [exact Hdf | lia].
        -- apply Forall_impl with (2 := Hall2).
           intros d [Hdf Hdn]. split; [exact Hdf | lia].
      * apply lines_ascend_app with (n := lineno (st w)).
        -- apply Forall_impl with (2 := Hall1). intros d [_ Hdn]. exact Hdn.
        -- apply Forall_impl with (2 := Hall2). intros d [_ Hdn]. lia.
        -- exact Hasc2.
Qed.

(** X7.  The diagnostics of a file come out in the order of its lines: each
    carries the file's name and the one-based number of a line of the file,
    and the line numbers never decrease along the output (for files of
    fewer than 2^31 - 1 lines, where [lineno] cannot wrap). *)
Theorem lint_reports_in_line_order :
  forall (fs : FileSystem) (name : string) (bytes : list ascii) (r : Z)
         (evs : list Event),
    fs name = Some bytes ->
    Z.of_nat (List.length (getlines bytes)) < 2 ^ 31 - 1 ->
    lint fs name = Done (r, evs) ->
    exists ds,
      evs = map Printed ds
      /\ Forall (in_lines name 1
                   (1 + Z.of_nat (List.length (getlines bytes)))) ds
      /\ lines_ascend ds.
Proof.
  intros fs name bytes r evs Hfs Hlen H. unfold lint in H. rewrite Hfs in H.
  destruct (lint_lines (getlines bytes) (mkWorld (initial_state name) []))
    as [[u w'] | |] eqn:E; try discriminate H.
  injection H as _ <-.
  destruct (lint_lines_in_order _ _ E) as (_ & _ & ds & Hp & Hall & Hasc).
  - cbn. lia.
  - cbn [st lineno initial_state]. lia.
  - exists ds. cbn [printed app] in Hp. rewrite Hp.
    split; [reflexivity | split; [exact Hall | exact Hasc]].
Qed.

Lemma lint_reports_in_line_order_witness :
  exists ds,
    [Printed (mkDiag "f.ss" 1 2 "trailing whitespace");
     Printed (mkDiag "f.ss" 3 1 "multiple blank lines")]
    = map Printed ds
    /\ Forall (in_lines "f.ss" 1
                 (1 + Z.of_nat
                        (List.length
                           (getlines (ln "x " ++ [NL] ++ [NL]))))) ds
    /\ lines_ascend ds.
Proof.
  apply (lint_reports_in_line_order
           (fun _ => Some (ln "x " ++ [NL] ++ [NL])) "f.ss"
           (bytes := ln "x " ++ [NL] ++ [NL]) (r := 1)).
  - reflexivity.
  - vm_compute. reflexivity.
  - vm_compute. reflexivity.
Defined.

(** ** The name comparator is the lexicographic order *)

Lemma uchar_range (c : ascii) : 0 <= uchar c < 256.
Proof.
  unfold uchar. pose proof (N_ascii_bounded c). lia.
Qed.

Lemma uchar_inj (x y : ascii) : uchar x = uchar y -> x = y.
Proof.
  unfold uchar. intros H. apply N2Z.inj in H.
  rewrite <- (ascii_N_embedding x), <- (ascii_N_embedding y), H.
  reflexivity.
Qed.

Lemma schar_inj (x y : ascii) : schar x = schar y -> x = y.
Proof.
  unfold schar. intros H. apply uchar_inj.
  pose proof (uchar_range x). pose proof (uchar_range y).
  destruct (Z.ltb_spec (uchar x) 128), (Z.ltb_spec (uchar y) 128); lia.
Qed.

Lemma uchar_pos (c : ascii) : c <> NUL -> 0 < uchar c.
Proof.
  intros Hc. pose proof (uchar_range c).
  assert (uchar c <> 0); [| lia].
  intros E. apply Hc. apply uchar_inj. rewrite E. reflexivity.
Qed.

Lemma strncmp_lex (cur : list ascii) :
  forall prev post,
    ~ In NUL cur -> ~ In NUL prev ->
    (strncmp prev (cur ++ post) (List.length cur) <? 0) = lex_lt prev cur.
Proof.
  induction cur as [| y cur IH]; intros prev post Hcur Hprev.
  - destruct prev; reflexivity.
  - assert (Hy : y <> NUL) by (intros E; apply Hcur; left; exact E).
    assert (Hcur' : ~ In NUL cur) by (intros H; apply Hcur; right; exact H).
    cbn [app List.length strncmp hd tl].
    destruct prev as [| x prev]; cbn [hd tl lex_lt].
    + destruct (Ascii.eqb_spec NUL y) as [E | _];
        [exfalso; apply Hy; symmetry; exact E |].
      cbn [negb]. pose proof (uchar_pos Hy).
      change (uchar NUL) with 0. apply Z.ltb_lt. lia.
    + assert (Hx : x <> NUL) by (intros E; apply Hprev; left; exact E).
      assert (Hprev' : ~ In NUL prev)
        by (intros H; apply Hprev; right; exact H).
      destruct (Ascii.eqb_spec x y) as [-> | Hxy]; cbn [negb].
      * destruct (Ascii.eqb_spec y NUL) as [E | _]; [contradiction |].
        rewrite Z.ltb_irrefl. apply IH; assumption.
      * assert (Hu : uchar x <> uchar y)
          by (intros E; apply Hxy; apply uchar_inj; exact E).
        destruct (Z.ltb_spec (uchar x) (uchar y)) as [Hlt | Hge].
        -- apply Z.ltb_lt. lia.
        -- destruct (Z.ltb_spec (uchar y) (uchar x)) as [Hlt | Hge'];
             [apply Z.ltb_ge; lia | lia].
Qed.

(** X8.  [correct_name_order] accepts a name exactly when the stored name
    comes strictly before it in the lexicographic order of their bytes
    (compared as unsigned char); so a name that extends the stored one is
    accepted, and an equal name or a proper prefix of it is rejected. *)
Theorem correct_name_order_is_lexicographic :
  forall (prev pre cur post : list ascii),
    ~ In NUL prev ->
    ~ In NUL cur ->
    Z.of_nat (List.length cur) < 2 ^ 31 ->
    correct_name_order prev (pre ++ cur ++ post)
      (Z.of_nat (List.length pre)) (Z.of_nat (List.length cur))
    = lex_lt prev cur.
Proof.
  intros prev pre cur post Hprev Hcur Hlen. unfold correct_name_order.
  rewrite ptr_add_app. unfold size_t_of_int.
  rewrite Z.mod_small, Nat2Z.id.
  - apply strncmp_lex; assumption.
  - split; [lia |].
    apply Z.lt_trans with (m := 2 ^ 31); [exact Hlen | reflexivity].
Qed.

Lemma correct_name_order_is_lexicographic_witness :
  correct_name_order (lit "car") (lit "(:1 car " ++ lit "cdr" ++ ln ")") 8 3
  = lex_lt (lit "car") (lit "cdr").
Proof.
  apply (correct_name_order_is_lexicographic (lit "car") (lit "(:1 car ")
           (lit "cdr") (ln ")")).
  - simpl. intros H. repeat (destruct H as [H | H]; [discriminate H |]).
    exact H.
  - simpl. intros H. repeat (destruct H as [H | H]; [discriminate H |]).
    exact H.
  - vm_compute. reflexivity.
Defined.

(** ** The identifier comparator on last segments *)

Lemma seg_result_spec (a : list ascii) :
  forall (b : list ascii) (cmp : Z),
    seg_result a b cmp
    = if (List.length a <? List.length b)%nat then true
      else if (List.length b <? List.length a)%nat then false
      else if cmp =? 0 then seg_le a b else cmp <? 0.
Proof.
  induction a as [| x a IH]; intros b cmp.
  - destruct b; reflexivity.
  - destruct b as [| y b]; [reflexivity |].
    cbn [seg_result seg_le List.length]. rewrite IH.
    change (S (List.length a) <? S (List.length b))%nat
      with (List.length a <? List.length b)%nat.
    change (S (List.length b) <? S (List.length a))%nat
      with (List.length b <? List.length a)%nat.
    destruct (List.length a <? List.length b)%nat; [reflexivity |].
    destruct (List.length b <? List.length a)%nat; [reflexivity |].
    destruct (Z.eqb_spec cmp 0) as [-> | Hcmp].
    + destruct (Ascii.eqb_spec x y) as [-> | Hxy].
      * rewrite Z.sub_diag. reflexivity.
      * assert (Hs : schar x - schar y <> 0)
          by (intros E; apply Hxy; apply schar_inj; lia).
        destruct (Z.eqb_spec (schar x - schar y) 0) as [E | _];
          [contradiction |].
        destruct (Z.ltb_spec (schar x) (schar y));
          [apply Z.ltb_lt | apply Z.ltb_ge]; lia.
    + destruct (Z.eqb_spec cmp 0) as [E | _]; [contradiction | reflexivity].
Qed.

(** The loop of [correct_id_order] on the last segments [a] (of [prev],
    from index [i]) and [b] (of the token). *)
Lemma id_order_loop_segment (b : list ascii) :
  forall (a prev line : list ascii) (start len i cmp : Z),
    0 < i ->
    (forall k, 0 <= k -> char_at prev (i + k) = char_at a k) ->
    (forall k, 0 <= k < Z.of_nat (List.length b) ->
       char_at line (start + (i + k)) = char_at b k) ->
    len = i + Z.of_nat (List.length b) ->
    ~ In NUL a -> ~ In DOT a -> ~ In DOT b ->
    id_order_loop (List.length b) prev line start len i cmp
    = seg_result a b cmp.
Proof.
  induction b as [| y b IH];
    intros a prev line start len i cmp Hi Hprev Hline Hlen Hnul Hda Hdb.
  - assert (Hci : char_at prev i = char_at a 0)
      by (rewrite <- (Z.add_0_r i) at 1; apply Hprev; lia).
    cbn [List.length id_order_loop]. unfold id_order_end. rewrite Hci.
    replace (i =? len) with true
      by (symmetry; apply Z.eqb_eq; cbn [List.length] in Hlen; lia).
    destruct a as [| x a]; cbn [seg_result].
    + change (char_at [] 0) with NUL. change (NUL =c NUL) with true.
      cbv iota. change (DOT =c DOT) with true. cbn [andb].
      destruct (cmp =? 0); reflexivity.
    + change (char_at (x :: a) 0) with x.
      destruct (Ascii.eqb_spec x NUL) as [E | _];
        [exfalso; apply Hnul; left; exact E |].
      destruct (Ascii.eqb_spec x DOT) as [E | _];
        [exfalso; apply Hda; left; exact E |].
      reflexivity.
  - assert (Hy : y <> DOT) by (intros E; apply Hdb; left; exact E).
    assert (Hcj : char_at line (start + i) = y).
    { rewrite <- (Z.add_0_r i). rewrite Hline by (cbn [List.length]; lia).
      reflexivity. }
    assert (Hci : char_at prev i = char_at a 0)
      by (rewrite <- (Z.add_0_r i) at 1; apply Hprev; lia).
    cbn [List.length id_order_loop]. unfold id_order_end.
    rewrite Hci, Hcj.
    destruct a as [| x a]; cbn [seg_result].
    + change (char_at [] 0) with NUL. change (NUL =c NUL) with true.
      cbv iota.
      replace (i =? len) with false
        by (symmetry; apply Z.eqb_neq; cbn [List.length] in Hlen; lia).
      destruct (Ascii.eqb_spec y DOT) as [E | _]; [contradiction |].
      rewrite andb_false_r. reflexivity.
    + change (char_at (x :: a) 0) with x.
      destruct (Ascii.eqb_spec x NUL) as [E | _];
        [exfalso; apply Hnul; left; exact E |].
      destruct (Ascii.eqb_spec x DOT) as [E | _];
        [exfalso; apply Hda; left; exact E |].
      destruct (Ascii.eqb_spec y DOT) as [E | _]; [contradiction |].
      replace (i =? 0) with false by (symmetry; apply Z.eqb_neq; lia).
      cbn [andb]. apply IH.
      * lia.
      * intros k Hk. replace (i + 1 + k) with (i + (k + 1)) by lia.
        rewrite Hprev by lia. unfold char_at.
        replace (Z.to_nat (k + 1)) with (S (Z.to_nat k)) by lia.
        reflexivity.
      * intros k Hk. replace (i + 1 + k) with (i + (k + 1)) by lia.
        rewrite Hline by (cbn [List.length]; lia). unfold char_at.
        replace (Z.to_nat (k + 1)) with (S (Z.to_nat k)) by lia.
        reflexivity.
      * cbn [List.length] in Hlen. lia.
      * intros H. apply Hnul. right. exact H.
      * intros H. apply Hda. right. exact H.
      * intros H. apply Hdb. right. exact H.
Qed.

(** X9.  When two identifiers agree up to their last segments, the last
    segments decide numerically: the one with fewer characters comes first,
    and for equal lengths the first differing character decides.  So
    [:1.9] is accepted before [:1.10], and [:1.10] is rejected before
    [:1.9]. *)
Theorem correct_id_order_last_segment :
  forall (common a b pre post : list ascii),
    common <> [] ->
    ~ In NUL (common ++ a) ->
    ~ In DOT a ->
    ~ In DOT b ->
    correct_id_order (common ++ a) (pre ++ (common ++ b) ++ post)
      (Z.of_nat (List.length pre)) (Z.of_nat (List.length (common ++ b)))
    = last_segment_le a b.
Proof.
  intros common a b pre post Hne Hnul Hda Hdb.
  unfold correct_id_order, last_segment_le.
  rewrite Nat2Z.id, length_app.
  rewrite id_order_loop_agree.
  - rewrite Z.add_0_l.
    rewrite id_order_loop_segment with (a := a).
    + rewrite seg_result_spec. reflexivity.
    + destruct common; [contradiction | cbn [List.length]; lia].
    + intros k Hk. apply char_at_app_r. exact Hk.
    + intros k Hk.
      rewrite char_at_app_r by lia.
      rewrite <- app_assoc. rewrite char_at_app_r by lia.
      apply char_at_app_l. exact Hk.
    + lia.
    + intros H. apply Hnul. apply in_or_app. right. exact H.
    + exact Hda.
    + exact Hdb.
  - intros k Hk. rewrite Z.add_0_l. split.
    + rewrite char_at_app_l by exact Hk.
      apply char_at_not_nul; [| exact Hk].
      intros H. apply Hnul. apply in_or_app. left. exact H.
    + rewrite char_at_app_r by lia.
      rewrite <- app_assoc. rewrite !char_at_app_l by exact Hk.
      reflexivity.
Qed.

Lemma correct_id_order_last_segment_witness :
  correct_id_order (lit ":1." ++ lit "9")
    (lit "(" ++ (lit ":1." ++ lit "10") ++ lit " x)") 1 5 = true
  /\ correct_id_order (lit ":1." ++ lit "10")
       (lit "(" ++ (lit ":1." ++ lit "9") ++ lit " x)") 1 4 = false.
Proof.
  assert (Hne : lit ":1." <> []) by discriminate.
  assert (Hd9 : ~ In DOT (lit "9"))
    by (simpl; intros [H | H]; [discriminate H | exact H]).
  assert (Hd10 : ~ In DOT (lit "10")).
  { simpl. intros H. repeat (destruct H as [H | H]; [discriminate H |]).
    exact H. }
  split.
  - apply (@correct_id_order_last_segment (lit ":1.") (lit "9") (lit "10")
             (lit "(") (lit " x)") Hne); try assumption.
    simpl. intros H. repeat (destruct H as [H | H]; [discriminate H |]).
    exact H.
  - apply (@correct_id_order_last_segment (lit ":1.") (lit "10") (lit "9")
             (lit "(") (lit " x)") Hne); try assumption.
    simpl. intros H. repeat (destruct H as [H | H]; [discriminate H |]).
    exact H.
Defined.

(** ** Partial correctness of monadic code *)

Lemma holds_elim {A : Type} (m : M A) (w : World) (Q : A -> World -> Prop)
    (a : A) (w' : World) :
  holds m w Q -> m w = Done (a, w') -> Q a w'.
Proof. unfold holds. intros H E. rewrite E in H. exact H. Qed.

Lemma holds_ret {A : Type} (a : A) w (Q : A -> World -> Prop) :
  Q a w -> holds (ret a) w Q.
Proof. intros H. exact H. Qed.

Lemma holds_bind {A B : Type} (m : M A) (k : A -> M B) w
    (Q : B -> World -> Prop) :
  holds m w (fun a w' => holds (k a) w' Q) -> holds (bind m k) w Q.
Proof.
  unfold holds, bind. destruct (m w) as [[a w'] | |]; intros H; exact H.
Qed.

Lemma holds_get w (Q : State -> World -> Prop) : Q (st w) w -> holds get w Q.
Proof. intros H. exact H. Qed.

Lemma holds_modify f w (Q : unit -> World -> Prop) :
  Q tt (mkWorld (f (st w)) (printed w)) -> holds (modify f) w Q.
Proof. intros H. exact H. Qed.

Lemma holds_fail col msg w (Q : unit -> World -> Prop) :
  Q tt (mkWorld (set_status 1 (st w))
          (printed w
           ++ [mkDiag (filename (st w)) (lineno (st w)) (col + 1) msg])) ->
  holds (fail col msg) w Q.
Proof. intros H. exact H. Qed.

Lemma holds_assert (b : bool) w (Q : unit -> World -> Prop) :
  (b = true -> Q tt w) -> holds (assert b) w Q.
Proof.
  intros H. unfold holds, assert. destruct b; [apply H; reflexivity | exact I].
Qed.

Lemma holds_stack_get n w (Q : Z -> World -> Prop) :
  (in_stack n = true -> Q (nth (Z.to_nat n) (stack (st w)) 0) w) ->
  holds (stack_get n) w Q.
Proof.
  intros H. unfold holds, stack_get.
  destruct (in_stack n); [apply H; reflexivity | exact I].
Qed.

Lemma holds_stack_put n v w (Q : unit -> World -> Prop) :
  (in_stack n = true ->
   Q tt (mkWorld (set_stack (list_set (stack (st w)) (Z.to_nat n) (uint8 v))
                    (st w)) (printed w))) ->
  holds (stack_put n v) w Q.
Proof.
  intros H. unfold holds, stack_put.
  destruct (in_stack n); [apply H; reflexivity | exact I].
Qed.

Lemma holds_store_name set line start len w (Q : unit -> World -> Prop) :
  Q tt (mkWorld (set (substr line start len) (st w)) (printed w)) ->
  holds (store_name set line start len) w Q.
Proof.
  intros H. unfold holds, store_name.
  destruct ((0 <=? len) && (len <? MAX_COLUMNS)); [exact H | exact I].
Qed.

(** Symbolic execution for [holds]: one primitive at a time, splitting the
    conditions that are still open. *)
Ltac hold_go tac :=
  repeat
    (proj; tac;
     match goal with
     | |- holds (bind _ _) _ _ => apply holds_bind
     | |- holds (ret _) _ _ => apply holds_ret
     | |- holds get _ _ => apply holds_get
     | |- holds (modify _) _ _ => apply holds_modify
     | |- holds (fail _ _) _ _ => apply holds_fail
     | |- holds (stack_get _) _ _ => apply holds_stack_get; intros ?
     | |- holds (stack_put _ _) _ _ => apply holds_stack_put; intros ?
     | |- holds (store_name _ _ _ _) _ _ => apply holds_store_name
     | |- holds (when _ _) _ _ => unfold when
     | |- holds (check_name_order _ _ _) _ _ => unfold check_name_order
     | |- holds (if ?b then _ else _) _ _ => destruct b
     | |- holds (match ?x with _ => _ end) _ _ => destruct x
     end).

(** Every character is one the scanner tests for, or plain. *)
Lemma char_class (c : ascii) :
  c = TAB \/ c = DQUOTE \/ c = ";"%char \/ c = "("%char \/ c = "["%char
  \/ c = ")"%char \/ c = "]"%char \/ c = " "%char \/ c = NL
  \/ plain_char c.
Proof.
  unfold plain_char.
  destruct (Ascii.eqb_spec c TAB); [tauto |].
  destruct (Ascii.eqb_spec c DQUOTE); [tauto |].
  destruct (Ascii.eqb_spec c ";"%char); [tauto |].
  destruct (Ascii.eqb_spec c "("%char); [tauto |].
  destruct (Ascii.eqb_spec c "["%char); [tauto |].
  destruct (Ascii.eqb_spec c ")"%char); [tauto |].
  destruct (Ascii.eqb_spec c "]"%char); [tauto |].
  destruct (Ascii.eqb_spec c " "%char); [tauto |].
  destruct (Ascii.eqb_spec c NL); [tauto |].
  repeat right. repeat split; reflexivity.
Qed.

(** Decide the character tests of the goal in one case of [char_class]. *)
Ltac decide_char Hplain :=
  try (destruct Hplain as (? & ? & ? & ? & ? & ? & ? & ? & ?));
  repeat match goal with
         | H : (?c =c ?k) = false |- context [?c =c ?k] => rewrite H
         end;
  eval_eqb.

(** ** Nesting depth, step by step *)

Lemma scan_char_depth (line : list ascii) (no_align : bool) (i : Z)
    (l : Locals) (w : World) :
  holds (scan_char line no_align i l) w
    (fun _ w' =>
       depth (st w') = depth_after (char_at line i) l (depth (st w))).
Proof.
  unfold scan_char, depth_after, in_code.
  generalize (char_at line i). intros c.
  destruct l as [p e t ws m].
  unfold code_char, check_indent, space_or_newline, open_paren, close_paren,
    classify_operator.
  destruct (char_class c)
    as [-> | [-> | [-> | [-> | [-> | [-> | [-> | [-> | [-> | Hp]]]]]]]]];
    destruct m; proj; decide_char Hp; cbv zeta.
  all: hold_go idtac.
  all: reflexivity.
Qed.

(** X10.  [depth] counts the delimiters scanned as code: a scanner step on
    an opening delimiter outside strings and comments adds one, a step on a
    closing delimiter there subtracts one (also below zero), and every
    other step, in particular on a delimiter inside a string or a comment,
    leaves [depth] unchanged. *)
Theorem depth_counts_code_delimiters :
  forall (line : list ascii) (no_align : bool) (i : Z) (l : Locals)
         (w : World) (r : option Locals) (w' : World),
    scan_char line no_align i l w = Done (r, w') ->
    depth (st w') = depth_after (char_at line i) l (depth (st w)).
Proof.
  intros line no_align i l w r w' H.
  pose proof (scan_char_depth line no_align i l w) as Hh.
  unfold holds in Hh. rewrite H in Hh. exact Hh.
Qed.

Lemma depth_counts_code_delimiters_witness :
  match scan_char (ln "x)") false 1 (mkLocals "x" false false 0 NORMAL)
          (mkWorld (initial_state "f.ss") []) with
  | Done (_, w') => depth (st w') = -1
  | _ => False
  end.
Proof.
  destruct (scan_char (ln "x)") false 1 (mkLocals "x" false false 0 NORMAL)
              (mkWorld (initial_state "f.ss") []))
    as [[r w'] | |] eqn:E.
  - rewrite (depth_counts_code_delimiters _ _ _ _ _ E). reflexivity.
  - vm_compute in E. discriminate E.
  - vm_compute in E. discriminate E.
Defined.

(** ** Strings and lines without a double quote *)

Lemma holds_conseq {A : Type} (m : M A) (w : World)
    (Q1 Q2 : A -> World -> Prop) :
  holds m w Q1 -> (forall a w', Q1 a w' -> Q2 a w') -> holds m w Q2.
Proof.
  unfold holds. destruct (m w) as [[a w'] | |]; intros H HQ; [| exact I ..].
  apply HQ. exact H.
Qed.

Lemma scan_char_in_string (line : list ascii) (no_align : bool) (i : Z)
    (l : Locals) (w : World) :
  holds (scan_char line no_align i l) w
    (fun _ w' =>
       in_string (st w')
       = in_string_after (char_at line i) l (in_string (st w))).
Proof.
  unfold scan_char, in_string_after.
  generalize (char_at line i). intros c.
  destruct l as [p e t ws m].
  unfold code_char, check_indent, space_or_newline, open_paren, close_paren,
    classify_operator.
  destruct (char_class c)
    as [-> | [-> | [-> | [-> | [-> | [-> | [-> | [-> | [-> | Hp]]]]]]]]];
    destruct m; proj; decide_char Hp; cbv zeta.
  all: hold_go idtac.
  all: reflexivity.
Qed.

Lemma char_at_not (c : ascii) (line : list ascii) (k : Z) :
  c <> NUL -> ~ In c line -> (char_at line k =c c) = false.
Proof.
  intros Hc Hin. apply Ascii.eqb_neq. unfold char_at.
  destruct (Nat.lt_ge_cases (Z.to_nat k) (List.length line)) as [Hk | Hk].
  - intros E. apply Hin. rewrite <- E. apply nth_In. exact Hk.
  - rewrite nth_overflow by exact Hk. intros E. apply Hc. symmetry. exact E.
Qed.

Lemma scan_keeps_in_string (line : list ascii) (no_align : bool) (n : nat) :
  ~ In DQUOTE line ->
  forall (i : Z) (l : Locals) (w : World),
    holds (scan n line no_align i l) w
      (fun _ w' => in_string (st w') = in_string (st w)).
Proof.
  intros Hq. induction n as [| n IH]; intros i l w; [reflexivity |].
  cbn [scan]. apply holds_bind.
  apply holds_conseq with (1 := scan_char_in_string line no_align i l w).
  intros r w1 H1.
  assert (Hsame : in_string (st w1) = in_string (st w)).
  { rewrite H1. unfold in_string_after.
    rewrite (char_at_not (c := DQUOTE) line i) by (discriminate || exact Hq).
    rewrite andb_false_r. destruct (mode l); reflexivity. }
  destruct r as [l' |]; [| exact Hsame].
  apply holds_conseq with (1 := IH (i + 1) l' w1).
  intros u2 w2 H2. rewrite H2. exact Hsame.
Qed.

(** X11.  A line without a double quote never opens or closes a string:
    whatever else it contains, [in_string] after the line is what it was
    before. *)
Theorem line_without_quote_keeps_in_string :
  forall (line : list ascii) (w : World) (u : unit) (w' : World),
    ~ In DQUOTE line ->
    lint_line line w = Done (u, w') ->
    in_string (st w') = in_string (st w).
Proof.
  intros line w u w' Hq H.
  assert (Hh : holds (lint_line line) w
                 (fun _ w0 => in_string (st w0) = in_string (st w))).
  { unfold lint_line, comment_line.
    hold_go ltac:(try match goal with
                      | |- holds (assert _) _ _ =>
                          apply holds_assert; intros ?
                      end).
    all: try reflexivity.
    all: eapply holds_conseq;
      [apply scan_keeps_in_string; exact Hq | intros uz wz Hz; exact Hz]. }
  unfold holds in Hh. rewrite H in Hh. exact Hh.
Qed.

Lemma line_without_quote_keeps_in_string_witness :
  match lint_line (ln "(display x) ; end")
          (mkWorld (set_in_string true (initial_state "f.ss")) []) with
  | Done (_, w') => in_string (st w') = true
  | _ => False
  end.
Proof.
  destruct (lint_line (ln "(display x) ; end")
              (mkWorld (set_in_string true (initial_state "f.ss")) []))
    as [[u w'] | |] eqn:E.
  - change true
      with (in_string
              (st (mkWorld (set_in_string true (initial_state "f.ss")) []))).
    eapply line_without_quote_keeps_in_string; [| exact E].
    simpl. intros H. repeat (destruct H as [H | H]; [discriminate H |]).
    exact H.
  - vm_compute in E. discriminate E.
  - vm_compute in E. discriminate E.
Defined.

(** ** Lines without delimiters *)

Lemma fin_conseq {A : Type} (m : M A) (w : World)
    (Q1 Q2 : A -> World -> Prop) :
  finishes m w Q1 -> (forall a w', Q1 a w' -> Q2 a w') -> finishes m w Q2.
Proof.
  unfold finishes. destruct (m w) as [[a w'] | |]; intros H HQ;
    [| exact H ..].
  apply HQ. exact H.
Qed.

Lemma fin_assert (b : bool) w (Q : unit -> World -> Prop) :
  b = true -> Q tt w -> finishes (assert b) w Q.
Proof. intros -> H. exact H. Qed.

(** Symbolic execution for [finishes] when [depth] is known to be a valid
    stack index ([assumption] closes the bounds conditions). *)
Ltac fin_run tac :=
  repeat
    (proj; tac;
     match goal with
     | |- finishes (bind _ _) _ _ => apply fin_bind
     | |- finishes (ret _) _ _ => apply fin_ret
     | |- finishes get _ _ => apply fin_get
     | |- finishes (modify _) _ _ => apply fin_modify
     | |- finishes (fail _ _) _ _ => apply fin_fail
     | |- finishes (stack_get _) _ _ =>
         apply fin_stack_get; [assumption |]
     | |- finishes (stack_put _ _) _ _ =>
         apply fin_stack_put; [assumption |]
     | |- finishes (when _ _) _ _ => unfold when
     | |- finishes (if ?b then _ else _) _ _ => destruct b
     | |- finishes (match ?x with _ => _ end) _ _ => destruct x
     end).

Lemma scan_char_no_delimiter (line : list ascii) (no_align : bool) (i : Z)
    (l : Locals) (w : World) :
  mode l <> OPERATOR ->
  delimiter (char_at line i) = false ->
  in_stack (depth (st w)) = true ->
  import_mode (st w) <> IB_ID ->
  finishes (scan_char line no_align i l) w
    (fun r w' =>
       same_nesting w w'
       /\ match r with
          | Some l' => mode l' <> OPERATOR
          | None => True
          end).
Proof.
  unfold scan_char, same_nesting, delimiter.
  generalize (char_at line i). intros c Hmode Hdel Hin Himp.
  destruct l as [p e t ws m]. cbn [mode] in Hmode.
  unfold code_char, check_indent, space_or_newline, open_paren, close_paren,
    after_switch.
  destruct (import_mode (st w)) eqn:Him; [| | | contradiction].
  all: destruct (char_class c)
    as [-> | [-> | [-> | [-> | [-> | [-> | [-> | [-> | [-> | Hp]]]]]]]]];
    try discriminate Hdel.
  all: destruct m; try contradiction; destruct (p =c " ") eqn:Ep;
    destruct t; repeat (progress (proj; rewrite ?Ep; decide_char Hp)).
  all: fin_run ltac:(rewrite ?Him, ?Ep; cbn [ib_eqb andb]; cbv iota).
  all: repeat split; try reflexivity; try assumption;
    try (intros E; discriminate E).
Qed.

Lemma scan_no_delimiter (line : list ascii) (no_align : bool) (n : nat) :
  (forall k, delimiter (char_at line k) = false) ->
  forall (i : Z) (l : Locals) (w : World),
    mode l <> OPERATOR ->
    in_stack (depth (st w)) = true ->
    import_mode (st w) <> IB_ID ->
    finishes (scan n line no_align i l) w (fun _ w' => same_nesting w w').
Proof.
  intros Hdel. induction n as [| n IH]; intros i l w Hmode Hin Himp.
  - repeat split.
  - cbn [scan]. apply fin_bind.
    apply fin_conseq
      with (1 := scan_char_no_delimiter line no_align i l w Hmode (Hdel i)
                   Hin Himp).
    intros r w1 [(Hd & Hi & Hn) Hr].
    destruct r as [l' |]; [| split; [exact Hd | split; assumption]].
    apply fin_conseq with (Q1 := fun _ w2 => same_nesting w1 w2).
    + apply IH; [exact Hr | rewrite Hd; exact Hin | rewrite Hi; exact Himp].
    + intros u2 w2 (Hd2 & Hi2 & Hn2).
      split; [congruence | split; congruence].
Qed.

Lemma delimiter_char_at (body : list ascii) (k : Z) :
  (forall c, In c body -> delimiter c = false) ->
  delimiter (char_at (body ++ [NL]) k) = false.
Proof.
  intros Hbody. unfold char_at.
  destruct (Nat.lt_ge_cases (Z.to_nat k) (List.length (body ++ [NL])))
    as [Hk | Hk].
  - pose proof (nth_In (body ++ [NL]) NUL Hk) as Hin.
    apply in_app_or in Hin. destruct Hin as [Hin | [<- | []]].
    + apply Hbody. exact Hin.
    + reflexivity.
  - rewrite nth_overflow by exact Hk. reflexivity.
Qed.

(** X12.  A line without parentheses and brackets cannot stop the linter:
    in every state that passes the entry assertions and is not inside an
    import ID block, [lint_line] runs to completion, and the line leaves
    the nesting depth, the wrapper count and the import stage unchanged. *)
Theorem line_without_delimiters_completes :
  forall (body : list ascii) (w : World),
    (forall c, In c body -> delimiter c = false) ->
    0 <= depth (st w) < MAX_DEPTH ->
    import_mode (st w) <> IB_ID ->
    exists w',
      lint_line (body ++ [NL]) w = Done (tt, w') /\ same_nesting w w'.
Proof.
  intros body w Hbody Hd Himp.
  assert (Hfin : finishes (lint_line (body ++ [NL])) w
                   (fun _ w' => same_nesting w w')).
  { pose proof (in_stack_range Hd) as Hin.
    unfold lint_line, comment_line.
    apply fin_bind, fin_assert;
      [apply Z.gtb_lt; rewrite length_app; cbn [List.length]; lia |].
    apply fin_bind, fin_assert.
    { replace (Z.of_nat (List.length (body ++ [NL])) - 1)
        with (Z.of_nat (List.length body) + 0)
        by (rewrite length_app; cbn [List.length]; lia).
      rewrite char_at_app_r by lia. reflexivity. }
    apply fin_bind, fin_get.
    apply fin_bind, fin_assert; [apply Z.geb_le; lia |].
    apply fin_bind, fin_assert; [apply Z.ltb_lt; lia |].
    fin_run idtac.
    all: try (repeat split; reflexivity).
    all: eapply fin_conseq;
      [apply scan_no_delimiter;
       [intros k; apply delimiter_char_at; exact Hbody
       | destruct (in_string (st w)); discriminate
       | proj; exact Hin
       | proj; exact Himp]
      | intros uz wz Hz; exact Hz]. }
  apply fin_elim in Hfin. destruct Hfin as ([] & w' & Hrun & Hsame).
  exists w'. split; assumption.
Qed.

Lemma line_without_delimiters_completes_witness :
  exists w',
    lint_line (lit "some  text; and more" ++ [NL])
      (mkWorld (initial_state "notes.md") []) = Done (tt, w')
    /\ same_nesting (mkWorld (initial_state "notes.md") []) w'.
Proof.
  apply (line_without_delimiters_completes (lit "some  text; and more")
           (mkWorld (initial_state "notes.md") [])).
  - simpl. intros c H.
    repeat (destruct H as [<- | H]; [reflexivity |]). destruct H.
  - simpl. unfold MAX_DEPTH. lia.
  - discriminate.
Defined.

(** ** Lines inside a string *)

Lemma scan_char_string_mode (line : list ascii) (no_align : bool) (i : Z)
    (l : Locals) (w : World) :
  mode l = STRING ->
  (char_at line i =c DQUOTE) = false ->
  scan_char line no_align i l w
  = Done (Some (after_switch i (char_at line i) l),
          if char_at line i =c TAB then
            mkWorld (set_status 1 (st w))
              (printed w
               ++ [mkDiag (filename (st w)) (lineno (st w)) (i + 1)
                     "illegal character '\t'"])
          else w).
Proof.
  intros Hmode Hq. unfold scan_char. rewrite Hmode, Hq, andb_false_r.
  unfold bind, when, fail, ret.
  destruct (char_at line i =c TAB); reflexivity.
Qed.

Lemma scan_string_mode (line : list ascii) (no_align : bool) (n : nat) :
  (forall k, (char_at line k =c DQUOTE) = false) ->
  forall (i : Z) (l : Locals) (w : World),
    mode l = STRING ->
    finishes (scan n line no_align i l) w
      (fun _ w' =>
         set_status 0 (st w') = set_status 0 (st w)
         /\ exists ds,
              printed w' = printed w ++ ds
              /\ Forall (fun d => string_line_message (d_message d)) ds).
Proof.
  intros Hq. induction n as [| n IH]; intros i l w Hmode.
  - split; [reflexivity |]. exists []. rewrite app_nil_r.
    split; [reflexivity | constructor].
  - cbn [scan]. unfold finishes, bind.
    rewrite (scan_char_string_mode line no_align i l w Hmode (Hq i)).
    assert (Hmode' : mode (after_switch i (char_at line i) l) = STRING)
      by (destruct l; exact Hmode).
    destruct (char_at line i =c TAB).
    + specialize (IH (i + 1) _
                    (mkWorld (set_status 1 (st w))
                       (printed w
                        ++ [mkDiag (filename (st w)) (lineno (st w)) (i + 1)
                              "illegal character '\t'"])) Hmode').
      unfold finishes in IH.
      destruct (scan n line no_align (i + 1) _ _) as [[u w'] | |];
        try contradiction.
      destruct IH as (Hs & ds & Hp & Hall). split; [exact Hs |].
      eexists. split; [rewrite Hp; cbn [printed]; rewrite <- app_assoc;
                       reflexivity |].
      cbn [app]. constructor; [right; left; reflexivity | exact Hall].
    + exact (IH (i + 1) _ w Hmode').
Qed.

(** X13.  Inside a string nothing but the line itself is checked: a
    non-blank line that is entered with a string open, does not start with
    a semicolon and contains no double quote is linted to completion, gets
    only length, trailing-whitespace and tab diagnostics, and leaves the
    state as it was (the string stays open), except for the status flag and
    the reset blank-line counter. *)
Theorem line_inside_string_only_line_checks :
  forall (c0 : ascii) (body : list ascii) (w : World),
    in_string (st w) = true ->
    c0 <> ";"%char ->
    ~ In DQUOTE (c0 :: body) ->
    0 <= depth (st w) < MAX_DEPTH ->
    exists w',
      lint_line (c0 :: body ++ [NL]) w = Done (tt, w')
      /\ set_status 0 (st w') = set_status 0 (set_prev_blanks 0 (st w))
      /\ exists ds,
           printed w' = printed w ++ ds
           /\ Forall (fun d => string_line_message (d_message d)) ds.
Proof.
  intros c0 body w Hstr Hc0 Hq Hd.
  set (line := c0 :: body ++ [NL]).
  assert (Hquote : forall k, (char_at line k =c DQUOTE) = false).
  { intros k. apply char_at_not; [discriminate |].
    unfold line. change (c0 :: body ++ [NL]) with ((c0 :: body) ++ [NL]).
    intros Hin. apply in_app_or in Hin.
    destruct Hin as [Hin | [E | []]]; [exact (Hq Hin) | discriminate E]. }
  assert (Hfin : finishes (lint_line line) w
                   (fun _ w' =>
                      set_status 0 (st w')
                      = set_status 0 (set_prev_blanks 0 (st w))
                      /\ exists ds,
                           printed w' = printed w ++ ds
                           /\ Forall
                                (fun d => string_line_message (d_message d))
                                ds)).
  { unfold lint_line.
    assert (Hlen : Z.of_nat (List.length line)
                   = Z.of_nat (List.length body) + 2)
      by (unfold line; cbn [List.length]; rewrite length_app;
          cbn [List.length]; lia).
    apply fin_bind, fin_assert; [apply Z.gtb_lt; lia |].
    apply fin_bind, fin_assert.
    { unfold line. change (c0 :: body ++ [NL]) with ((c0 :: body) ++ [NL]).
      replace (Z.of_nat (List.length ((c0 :: body) ++ [NL])) - 1)
        with (Z.of_nat (List.length (c0 :: body)) + 0)
        by (rewrite length_app; cbn [List.length]; lia).
      rewrite char_at_app_r by lia. reflexivity. }
    apply fin_bind, fin_get.
    apply fin_bind, fin_assert; [apply Z.geb_le; lia |].
    apply fin_bind, fin_assert; [apply Z.ltb_lt; lia |].
    replace (Z.of_nat (List.length line) =? 1) with false
      by (symmetry; apply Z.eqb_neq; lia).
    change (char_at line 0) with c0.
    replace (c0 =c ";") with false
      by (symmetry; apply Ascii.eqb_neq; exact Hc0).
    rewrite Hstr. cbv zeta.
    fin_run idtac.
    all: eapply fin_conseq;
      [apply scan_string_mode; [exact Hquote | reflexivity] |].
    all: intros uz wz (Hs & ds & Hp & Hall); proj; split;
      [exact Hs |];
      eexists; split;
      [rewrite Hp; proj; rewrite <- ?app_assoc; reflexivity |];
      cbn [app];
      repeat (apply Forall_cons;
              [cbn [d_message];
               first [left; reflexivity
                     | right; right; eexists; reflexivity] |]);
      exact Hall. }
  apply fin_elim in Hfin. destruct Hfin as ([] & w' & Hrun & HQ).
  exists w'. split; assumption.
Qed.

Lemma line_inside_string_only_line_checks_witness :
  exists w',
    lint_line ("("%char :: lit "not code) ; x " ++ [NL])
      (mkWorld (set_in_string true (initial_state "f.ss")) []) = Done (tt, w')
    /\ set_status 0 (st w')
       = set_status 0
           (set_prev_blanks 0 (set_in_string true (initial_state "f.ss")))
    /\ exists ds,
         printed w' = [] ++ ds
         /\ Forall (fun d => string_line_message (d_message d)) ds.
Proof.
  apply (@line_inside_string_only_line_checks "("%char
           (lit "not code) ; x ")
           (mkWorld (set_in_string true (initial_state "f.ss")) [])).
  - reflexivity.
  - discriminate.
  - simpl. intros H. repeat (destruct H as [H | H]; [discriminate H |]).
    exact H.
  - simpl. unfold MAX_DEPTH. lia.
Defined.

(** ** Writes outside the arrays *)

(** X14.  The depth assertion guards only the start of a line.  An opening
    delimiter scanned as code at depth MAX_DEPTH - 1 increments [depth] to
    MAX_DEPTH and writes [stack[MAX_DEPTH]], one past the end of the
    array. *)
Theorem open_paren_at_max_depth_writes_past_stack :
  forall (line : list ascii) (no_align : bool) (i : Z) (l : Locals)
         (w : World),
    mode l = NORMAL \/ mode l = OPERATOR ->
    char_at line i = "("%char \/ char_at line i = "["%char ->
    depth (st w) = MAX_DEPTH - 1 ->
    scan_char line no_align i l w = OutOfBounds.
Proof.
  intros line no_align i l w. unfold scan_char.
  generalize (char_at line i). intros c Hmode Hc Hd.
  destruct l as [p e t ws m]. cbn [mode] in Hmode.
  unfold code_char, open_paren.
  assert (Hin : in_stack (int_incr (depth (st w))) = false)
    by (rewrite Hd; reflexivity).
  destruct Hmode as [-> | ->]; destruct Hc as [-> | ->]; destruct t;
    proj; eval_eqb.
  all: unfold bind, when, fail, ret, modify, get, stack_put; proj.
  all: rewrite Hin; reflexivity.
Qed.

Lemma open_paren_at_max_depth_writes_past_stack_witness :
  scan_char (ln "((") false 1 (mkLocals "(" false false 0 OPERATOR)
    (mkWorld (set_depth 63 (initial_state "f.ss")) [])
  = OutOfBounds.
Proof.
  apply open_paren_at_max_depth_writes_past_stack.
  - right. reflexivity.
  - left. reflexivity.
  - reflexivity.
Defined.

Lemma space_or_newline_long_name (line : list ascii) (i : Z) (c : ascii)
    (l : Locals) (w : World) :
  mode l = NORMAL ->
  import_mode (st w) = IB_ID ->
  MAX_COLUMNS <= i - word_start l ->
  space_or_newline line i c l w = OutOfBounds.
Proof.
  intros Hmode Himp Hlen.
  assert (Hfit : forall a : bool,
            a && (i - word_start l <? MAX_COLUMNS) = false).
  { intros a. replace (i - word_start l <? MAX_COLUMNS) with false
      by (symmetry; apply Z.ltb_ge; exact Hlen).
    apply andb_false_r. }
  destruct l as [p e t ws m]. cbn [mode word_start] in Hmode, Hfit.
  subst m. unfold space_or_newline.
  destruct ((c =c " ") && (prev (mkLocals p e t ws NORMAL) =c " "));
    proj; cbv zeta.
  all: unfold bind at 1; unfold get; unfold bind at 1; rewrite Himp;
    cbn [ib_eqb]; unfold when at 1; unfold bind at 1;
    unfold check_name_order; unfold bind at 1; unfold get;
    destruct (negb (correct_name_order _ _ _ _));
    unfold when, fail, store_name; proj; rewrite Hfit; reflexivity.
Qed.

(** X15.  The name buffers hold MAX_COLUMNS bytes.  Inside an import ID
    block, completing a word of MAX_COLUMNS or more bytes (at a space or
    at the newline) copies it into [last_import_name] past the end of the
    buffer. *)
Theorem long_import_name_overflows_buffer :
  forall (line : list ascii) (no_align : bool) (i : Z) (l : Locals)
         (w : World),
    mode l = NORMAL ->
    char_at line i = " "%char \/ char_at line i = NL ->
    import_mode (st w) = IB_ID ->
    MAX_COLUMNS <= i - word_start l ->
    scan_char line no_align i l w = OutOfBounds.
Proof.
  intros line no_align i l w Hmode Hc Himp Hlen.
  unfold scan_char. rewrite Hmode. revert Hc.
  generalize (char_at line i). intros c Hc. cbv zeta.
  assert (Hcode : forall w0, import_mode (st w0) = IB_ID ->
                             code_char line i c l w0 = OutOfBounds).
  { intros w0 Him0. unfold code_char. cbv zeta.
    set (l' := if two_spaces l && negb (c =c " ") && negb (c =c ";")
               then set_two_spaces false l else l).
    assert (Hl' : mode l' = NORMAL /\ word_start l' = word_start l)
      by (unfold l'; destruct l;
          destruct (_ && _ && _); split; first [exact Hmode | reflexivity]).
    destruct Hl' as [Hm' Hw'].
    assert (Hsp : forall w1, import_mode (st w1) = IB_ID ->
                             space_or_newline line i c l' w1 = OutOfBounds)
      by (intros w1 H1; apply space_or_newline_long_name;
          [exact Hm' | exact H1 | rewrite Hw'; exact Hlen]).
    clearbody l'.
    unfold bind at 1.
    destruct (two_spaces l && negb (c =c " ") && negb (c =c ";"));
      unfold when, fail, ret; proj.
    all: destruct Hc as [-> | ->]; eval_eqb; apply Hsp; proj;
      exact Him0. }
  unfold bind at 1.
  destruct Hc as [Hc | Hc];
    (replace (c =c TAB) with false by (rewrite Hc; reflexivity)).
  all: unfold when at 1, ret at 1; unfold bind at 1, bind at 1;
    rewrite (Hcode w Himp); reflexivity.
Qed.

Lemma long_import_name_overflows_buffer_witness :
  scan_char
    (lit "(:1 " ++ repeat "a"%char 80 ++ ln " b)") false 84
    (mkLocals "a" false false 4 NORMAL) in_id_block
  = OutOfBounds.
Proof.
  apply long_import_name_overflows_buffer.
  - reflexivity.
  - left. reflexivity.
  - reflexivity.
  - cbn [word_start]. unfold MAX_COLUMNS. lia.
Defined.

(** ** The lookups' tables *)

Lemma scan_indent_rules_off_top_level (s : list ascii) (start len : Z)
    (table : list (string * Z)) :
  start <> 1 ->
  Z.land (scan_indent_rules s start len table) IR_WRAPPER = 0.
Proof.
  intros Hs. induction table as [| [n r] rest IH];
    cbn [scan_indent_rules]; [reflexivity |].
  destruct (strncmp s (lit n) (size_t_of_int len) =? 0); [| exact IH].
  replace (start =? 1) with false by (symmetry; apply Z.eqb_neq; exact Hs).
  cbn [negb]. rewrite <- Z.land_assoc.
  replace (Z.land (Z.lnot IR_WRAPPER) IR_WRAPPER) with 0
    by (rewrite Z.land_comm, Z.land_lnot_diag; reflexivity).
  apply Z.land_0_r.
Qed.

(** X16.  Wrapper forms are recognised at the top level only: for an
    operator that does not start in column 1 the lookup never reports the
    WRAPPER flag, whatever the operator and whatever the table holds for
    it. *)
Theorem lookup_indent_rules_wrapper_only_in_column_1 :
  forall (line : list ascii) (start len : Z),
    start <> 1 ->
    has_flag (lookup_indent_rules line start len) IR_WRAPPER = false.
Proof.
  intros line start len Hs. unfold has_flag, lookup_indent_rules.
  rewrite (scan_indent_rules_off_top_level _ len INDENT_RULES Hs).
  reflexivity.
Qed.

Lemma lookup_indent_rules_wrapper_only_in_column_1_witness :
  has_flag (lookup_indent_rules (ln "  (SICP") 3 4) IR_WRAPPER = false.
Proof.
  apply lookup_indent_rules_wrapper_only_in_column_1. discriminate.
Defined.

(** X17.  The import-block lookup goes by the operator's column: it answers
    IB_SEC only for an operator starting in column 1, IB_USE only for one
    starting in column 3, and never IB_ID. *)
Theorem lookup_import_block_by_column :
  forall (line : list ascii) (start len : Z),
    lookup_import_block line start len <> IB_ID
    /\ (lookup_import_block line start len = IB_SEC -> start = 1)
    /\ (lookup_import_block line start len = IB_USE -> start = 3).
Proof.
  intros line start len. unfold lookup_import_block. cbv zeta.
  destruct (Z.eqb_spec start 1) as [E1 | E1];
    destruct (Z.eqb_spec start 3) as [E3 | E3];
    cbn [andb];
    repeat match goal with
           | |- context [if ?b then _ else _] => destruct b
           end;
    repeat split; intros H; try discriminate H; try assumption; lia.
Qed.

(** X18.  The import-block lookup compares only the operator's own length:
    in column 1, every operator that is a prefix of [Chapter], [Section] or
    [Exercise] (the empty operator included) opens an IB_SEC block. *)
Theorem lookup_import_block_accepts_prefixes :
  forall (pre tok more post : list ascii) (name : string),
    In name ["Chapter"; "Section"; "Exercise"]%string ->
    lit name = tok ++ more ->
    List.length pre = 1%nat ->
    lookup_import_block (pre ++ tok ++ post) 1 (Z.of_nat (List.length tok))
    = IB_SEC.
Proof.
  intros pre tok more post name Hin Hname Hpre.
  assert (Hlen : Z.of_nat (List.length tok) < MAX_COLUMNS).
  { assert (Hle : (List.length tok <= List.length (lit name))%nat)
      by (rewrite Hname, length_app; lia).
    destruct Hin as [<- | [<- | [<- | []]]]; cbn in Hle;
      unfold MAX_COLUMNS; lia. }
  unfold lookup_import_block. cbv zeta.
  replace (ptr_add (pre ++ tok ++ post) 1) with (tok ++ post)
    by (symmetry; replace 1 with (Z.of_nat (List.length pre))
          by (rewrite Hpre; reflexivity);
        apply ptr_add_app).
  rewrite size_t_of_length by exact Hlen.
  assert (Hcmp : strncmp (tok ++ post) (lit name) (List.length tok) = 0)
    by (rewrite Hname; apply strncmp_common_prefix).
  destruct Hin as [<- | [<- | [<- | []]]]; rewrite Hcmp;
    cbn [Z.eqb andb orb]; rewrite ?orb_true_r; reflexivity.
Qed.

Lemma lookup_import_block_accepts_prefixes_witness :
  lookup_import_block (lit "(" ++ lit "Sec" ++ ln " :1.2") 1
    (Z.of_nat (List.length (lit "Sec")))
  = IB_SEC.
Proof.
  apply (@lookup_import_block_accepts_prefixes
           (lit "(") (lit "Sec") (lit "tion") (ln " :1.2") "Section").
  - right. left. reflexivity.
  - reflexivity.
  - reflexivity.
Defined.

(** ** The NOALIGN marker *)

Lemma appends_only_refl (P : Diagnostic -> Prop) (w : World) :
  appends_only P w w.
Proof. exists []. split; [symmetry; apply app_nil_r | constructor]. Qed.

Lemma appends_only_trans (P : Diagnostic -> Prop) (w1 w2 w3 : World) :
  appends_only P w1 w2 -> appends_only P w2 w3 -> appends_only P w1 w3.
Proof.
  intros (d1 & E1 & H1) (d2 & E2 & H2). exists (d1 ++ d2). split.
  - rewrite E2, E1. symmetry. apply app_assoc.
  - apply Forall_app. split; assumption.
Qed.

(** Closes [appends_only not_indentation w w'] for a world [w'] that lists
    what was appended to [w]. *)
Ltac appended :=
  unfold appends_only; proj; eexists; split;
  [ rewrite <- ?app_assoc;
    first [reflexivity | symmetry; apply app_nil_r]
  | repeat (apply Forall_cons;
            [unfold not_indentation; cbn [d_message String.append];
             discriminate |]);
    apply Forall_nil ].

Lemma scan_char_no_align (line : list ascii) (i : Z) (l : Locals)
    (w : World) :
  holds (scan_char line true i l) w
    (fun _ w' => appends_only not_indentation w w').
Proof.
  unfold scan_char.
  generalize (char_at line i). intros c.
  destruct l as [p e t ws m].
  unfold code_char, check_indent, space_or_newline, open_paren, close_paren,
    classify_operator.
  destruct (char_class c)
    as [-> | [-> | [-> | [-> | [-> | [-> | [-> | [-> | [-> | Hp]]]]]]]]];
    destruct m; proj; decide_char Hp; cbv zeta.
  all: hold_go idtac.
  all: appended.
Qed.

Lemma scan_no_align (line : list ascii) (n : nat) :
  forall (i : Z) (l : Locals) (w : World),
    holds (scan n line true i l) w
      (fun _ w' => appends_only not_indentation w w').
Proof.
  induction n as [| n IH]; intros i l w; [apply appends_only_refl |].
  cbn [scan]. apply holds_bind.
  apply holds_conseq with (1 := scan_char_no_align line i l w).
  intros r w1 H1.
  destruct r as [l' |]; [| exact H1].
  apply holds_conseq with (1 := IH (i + 1) l' w1).
  intros u2 w2 H2. exact (appends_only_trans H1 H2).
Qed.

Lemma no_align_marker_found (body : list ascii) :
  let line := body ++ NO_ALIGN_COMMENT in
  (Z.of_nat (List.length line) >=? Z.of_nat (List.length NO_ALIGN_COMMENT))
  && (strncmp
        (ptr_add line
           (Z.of_nat (List.length line)
            - Z.of_nat (List.length NO_ALIGN_COMMENT)))
        NO_ALIGN_COMMENT (Z.to_nat (Z.of_nat (List.length NO_ALIGN_COMMENT)))
      =? 0)
  = true.
Proof.
  cbv zeta. rewrite length_app.
  replace (Z.of_nat (List.length body + List.length NO_ALIGN_COMMENT)
           - Z.of_nat (List.length NO_ALIGN_COMMENT))
    with (Z.of_nat (List.length body)) by lia.
  rewrite ptr_add_app. apply andb_true_intro. split.
  - apply Z.geb_le. lia.
  - reflexivity.
Qed.

(** X19.  The NOALIGN marker switches the alignment check off: a line that
    ends in [; NOALIGN] is never reported for incorrect indentation,
    whatever its indentation and whatever state it is linted in. *)
Theorem no_align_line_never_reports_indentation :
  forall (body : list ascii) (w : World) (u : unit) (w' : World),
    lint_line (body ++ NO_ALIGN_COMMENT) w = Done (u, w') ->
    appends_only not_indentation w w'.
Proof.
  intros body w u w' H.
  assert (Hh : holds (lint_line (body ++ NO_ALIGN_COMMENT)) w
                 (fun _ w0 => appends_only not_indentation w w0)).
  { unfold lint_line. cbv zeta. rewrite (no_align_marker_found body).
    unfold comment_line.
    hold_go ltac:(try match goal with
                      | |- holds (assert _) _ _ =>
                          apply holds_assert; intros ?
                      end).
    all: try appended.
    all: eapply holds_conseq; [apply scan_no_align |].
    all: intros uz wz Hz; refine (appends_only_trans _ Hz); appended. }
  unfold holds in Hh. rewrite H in Hh. exact Hh.
Qed.

Lemma no_align_line_never_reports_indentation_witness :
  match lint_line (lit "       (f x) " ++ NO_ALIGN_COMMENT)
          (mkWorld (set_depth 1 (initial_state "f.ss")) []) with
  | Done (_, w') =>
      appends_only not_indentation
        (mkWorld (set_depth 1 (initial_state "f.ss")) []) w'
  | _ => False
  end.
Proof.
  destruct (lint_line (lit "       (f x) " ++ NO_ALIGN_COMMENT)
              (mkWorld (set_depth 1 (initial_state "f.ss")) []))
    as [[u w'] | |] eqn:E.
  - exact (no_align_line_never_reports_indentation _ _ E).
  - vm_compute in E. discriminate E.
  - vm_compute in E. discriminate E.
Defined.

(** ** Consecutive names and identifiers of an import list (C10) *)

Lemma reaches_step (line : list ascii) (no_align : bool) (i : Z)
    (l : Locals) (w : World) (l' : Locals) (w' : World) :
  scan_char line no_align i l w = Done (Some l', w') ->
  scan_reaches line no_align 1 i l w l' w'.
Proof.
  intros H n. cbn [Nat.add scan]. unfold bind. rewrite H. reflexivity.
Qed.

Lemma reaches_trans (line : list ascii) (no_align : bool) (k1 k2 : nat)
    (i : Z) (l : Locals) (w : World) (l1 : Locals) (w1 : World)
    (l2 : Locals) (w2 : World) :
  scan_reaches line no_align k1 i l w l1 w1 ->
  scan_reaches line no_align k2 (i + Z.of_nat k1) l1 w1 l2 w2 ->
  scan_reaches line no_align (k1 + k2) i l w l2 w2.
Proof.
  intros H1 H2 n. rewrite <- Nat.add_assoc, H1, H2.
  rewrite Nat2Z.inj_add, Z.add_assoc. reflexivity.
Qed.

Lemma reaches_done (line : list ascii) (no_align : bool) (k : nat) (i : Z)
    (l : Locals) (w : World) (l' : Locals) (w' : World) :
  scan_reaches line no_align k i l w l' w' ->
  scan k line no_align i l w = Done (tt, w').
Proof. intros H. specialize (H 0%nat). rewrite Nat.add_0_r in H. exact H. Qed.

(** One more iteration after [k]: whatever it returns, the loop of [k + 1]
    iterations ends in its world. *)
Lemma reaches_then_step (line : list ascii) (no_align : bool) (k : nat)
    (i : Z) (l : Locals) (w : World) (l' : Locals) (w' : World)
    (r : option Locals) (w2 : World) :
  scan_reaches line no_align k i l w l' w' ->
  scan_char line no_align (i + Z.of_nat k) l' w' = Done (r, w2) ->
  scan (S k) line no_align i l w = Done (tt, w2).
Proof.
  intros H Hstep. specialize (H 1%nat).
  replace (k + 1)%nat with (S k) in H by lia. rewrite H.
  cbn [scan]. unfold bind. rewrite Hstep. destruct r; reflexivity.
Qed.

Lemma only_printed_refl (w : World) : only_printed w w.
Proof. split; [reflexivity |]. exists []. symmetry. apply app_nil_r. Qed.

Lemma only_printed_trans (w1 w2 w3 : World) :
  only_printed w1 w2 -> only_printed w2 w3 -> only_printed w1 w3.
Proof.
  intros [E1 (d1 & P1)] [E2 (d2 & P2)]. split; [congruence |].
  exists (d1 ++ d2). rewrite P2, P1. symmetry. apply app_assoc.
Qed.

(** Every field but [status] is the same in two such worlds. *)
Lemma only_printed_fields (w w' : World) :
  only_printed w w' ->
  filename (st w') = filename (st w)
  /\ lineno (st w') = lineno (st w)
  /\ depth (st w') = depth (st w)
  /\ stack (st w') = stack (st w)
  /\ import_mode (st w') = import_mode (st w)
  /\ last_import_id (st w') = last_import_id (st w)
  /\ last_import_name (st w') = last_import_name (st w).
Proof.
  intros [E _]. destruct (st w), (st w'). cbn in E. injection E as -> ->.
  intros. subst. repeat split.
Qed.

Lemma char_at_middle (pre : list ascii) (c : ascii) (post : list ascii) :
  char_at (pre ++ c :: post) (Z.of_nat (List.length pre)) = c.
Proof. unfold char_at. rewrite Nat2Z.id. apply nth_middle. Qed.

Lemma plain_not_space (c : ascii) : plain_char c -> (c =c " ") = false.
Proof. intros Hp. apply Hp. Qed.

(** Names the diagnostics that an explicit world appends. *)
Ltac appended_some :=
  first [ exists []; symmetry; apply app_nil_r | pick_printed ].

(** A character that the scanner has no case for, in code. *)
Lemma scan_char_plain (line : list ascii) (no_align : bool) (i : Z)
    (l : Locals) (w : World) :
  plain_char (char_at line i) ->
  mode l = NORMAL \/ mode l = OPERATOR ->
  finishes (scan_char line no_align i l) w
    (fun r w' =>
       exists l',
         r = Some l'
         /\ mode l' = mode l
         /\ prev l' = char_at line i
         /\ two_spaces l' = false
         /\ word_start l'
            = match mode l with
              | NORMAL => if prev l =c " " then i else word_start l
              | _ => word_start l
              end
         /\ only_printed w w').
Proof.
  unfold scan_char, only_printed. generalize (char_at line i).
  intros c Hp Hm. destruct l as [p e t ws m]. cbn [mode] in Hm.
  unfold code_char, after_switch.
  destruct Hm as [-> | ->]; destruct t; destruct (p =c " ") eqn:Ep;
    repeat (progress (proj; rewrite ?Ep; decide_char Hp)).
  all: fin_run idtac.
  all: eexists; split; [reflexivity |]; proj; rewrite ?Ep;
    repeat split; try reflexivity.
  all: try (destruct (st w); reflexivity).
  all: appended_some.
Qed.

(** A word of such characters. *)
Lemma scan_word (no_align : bool) (tok : list ascii) :
  Forall plain_char tok ->
  tok <> [] ->
  forall (pre post : list ascii) (l : Locals) (w : World),
    mode l = NORMAL \/ mode l = OPERATOR ->
    exists l' w',
      scan_reaches (pre ++ tok ++ post) no_align (List.length tok)
        (Z.of_nat (List.length pre)) l w l' w'
      /\ mode l' = mode l
      /\ (prev l' =c " ") = false
      /\ two_spaces l' = false
      /\ word_start l'
         = match mode l with
           | NORMAL =>
               if prev l =c " " then Z.of_nat (List.length pre)
               else word_start l
           | _ => word_start l
           end
      /\ only_printed w w'.
Proof.
  induction 1 as [| c tok Hc Htok IH]; intros Hne pre post l w Hm;
    [contradiction |].
  assert (Hat : char_at (pre ++ (c :: tok) ++ post)
                  (Z.of_nat (List.length pre)) = c)
    by apply char_at_middle.
  pose proof (@scan_char_plain (pre ++ (c :: tok) ++ post) no_align
                (Z.of_nat (List.length pre)) l w) as Hstep.
  rewrite Hat in Hstep. specialize (Hstep Hc Hm).
  apply fin_elim in Hstep.
  destruct Hstep as (r & w1 & Hrun & l1 & -> & Hm1 & Hp1 & Ht1 & Hw1 & Ho1).
  apply reaches_step in Hrun.
  destruct tok as [| c2 tok].
  - exists l1, w1. repeat split; try assumption.
    + rewrite Hp1. apply plain_not_space. exact Hc.
    + apply Ho1.
    + apply Ho1.
  - assert (Hm1' : mode l1 = NORMAL \/ mode l1 = OPERATOR)
      by (rewrite Hm1; exact Hm).
    destruct (IH ltac:(discriminate) (pre ++ [c]) post l1 w1 Hm1')
      as (l2 & w2 & Hrun2 & Hm2 & Hp2 & Ht2 & Hw2 & Ho2).
    exists l2, w2.
    replace ((pre ++ [c]) ++ (c2 :: tok) ++ post)
      with (pre ++ (c :: c2 :: tok) ++ post) in Hrun2
      by (rewrite <- app_assoc; reflexivity).
    replace (Z.of_nat (List.length (pre ++ [c])))
      with (Z.of_nat (List.length pre) + Z.of_nat 1) in Hrun2, Hw2
      by (rewrite length_app; cbn [List.length]; lia).
    split; [exact (reaches_trans Hrun Hrun2) |].
    split; [congruence |]. split; [exact Hp2 |]. split; [exact Ht2 |].
    split; [| exact (only_printed_trans Ho1 Ho2)].
    rewrite Hw2, Hm1, Hp1, (plain_not_space Hc), Hw1.
    destruct (mode l); reflexivity.
Qed.

(** A space after a name inside an ID block: the name is compared with the
    stored one and then stored. *)
Lemma scan_char_space_stores_name (line : list ascii) (no_align : bool)
    (i : Z) (l : Locals) (w : World) :
  char_at line i = " "%char ->
  mode l = NORMAL ->
  (prev l =c " ") = false ->
  import_mode (st w) = IB_ID ->
  0 <= i - word_start l < MAX_COLUMNS ->
  finishes (scan_char line no_align i l) w
    (fun r w' =>
       exists l',
         r = Some l'
         /\ mode l' = NORMAL
         /\ prev l' = " "%char
         /\ word_start l' = word_start l
         /\ import_mode (st w') = IB_ID
         /\ last_import_name (st w')
            = substr line (word_start l) (i - word_start l)
         /\ filename (st w') = filename (st w)
         /\ lineno (st w') = lineno (st w)
         /\ depth (st w') = depth (st w)
         /\ stack (st w') = stack (st w)
         /\ last_import_id (st w') = last_import_id (st w)
         /\ exists ds, printed w' = printed w ++ ds).
Proof.
  unfold scan_char. intros -> Hm Hp Himp Hlen.
  destruct l as [p e t ws m]. cbn [mode prev word_start] in Hm, Hp, Hlen.
  subst m. unfold code_char, space_or_newline, check_name_order, after_switch.
  destruct t; repeat (progress (proj; rewrite ?Hp; eval_eqb)).
  all: fin_run ltac:(rewrite ?Himp; cbn [ib_eqb]; cbv iota;
                try match goal with
                    | |- finishes (store_name _ _ _ _) _ _ =>
                        apply fin_store_name; [exact Hlen |]
                    end).
  all: eexists; split; [reflexivity |]; proj; rewrite ?Hp;
    repeat split; try reflexivity; try assumption.
  all: appended_some.
Qed.

Lemma names_twice (pre tok : list ascii) (c : ascii) (post : list ascii)
    (no_align : bool) (l : Locals) (w : World) :
  tok <> [] ->
  Forall plain_char tok ->
  ~ In NUL tok ->
  Z.of_nat (List.length tok) < MAX_COLUMNS ->
  c = " "%char \/ c = NL \/ c = ")"%char \/ c = "]"%char ->
  mode l = NORMAL ->
  prev l = " "%char ->
  import_mode (st w) = IB_ID ->
  exists w1 w2 before,
    scan (2 * List.length tok + 1) (pre ++ tok ++ " "%char :: tok ++ c :: post)
      no_align (Z.of_nat (List.length pre)) l w = Done (tt, w1)
    /\ scan (S (2 * List.length tok + 1))
         (pre ++ tok ++ " "%char :: tok ++ c :: post)
         no_align (Z.of_nat (List.length pre)) l w = Done (tt, w2)
    /\ printed w2
       = printed w1 ++ before
         ++ [mkDiag (filename (st w)) (lineno (st w))
               (Z.of_nat (List.length pre) + Z.of_nat (List.length tok) + 2)
               (name_order_message tok tok)].
Proof.
  intros Hne Hplain Hnul Hlen Hc Hm Hp Himp.
  set (line := pre ++ tok ++ " "%char :: tok ++ c :: post).
  set (i0 := Z.of_nat (List.length pre)).
  set (n := List.length tok).
  (* the first name *)
  destruct (@scan_word no_align tok Hplain Hne pre
              (" "%char :: tok ++ c :: post) l w (or_introl Hm))
    as (l1 & w1 & R1 & Hm1 & Hp1 & _ & Hw1 & Ho1).
  fold line i0 n in R1. rewrite Hm, Hp in Hw1. cbn in Hw1. rewrite Hm in Hm1.
  destruct (only_printed_fields Ho1) as (Hf1 & Hn1 & _ & _ & Hi1 & _ & _).
  (* the space: the name is stored *)
  assert (Hsp : char_at line (i0 + Z.of_nat n) = " "%char)
    by apply char_at_after_token.
  pose proof (@scan_char_space_stores_name line no_align (i0 + Z.of_nat n)
                l1 w1 Hsp Hm1 Hp1) as Hstep.
  rewrite Hw1 in Hstep.
  replace (i0 + Z.of_nat n - Z.of_nat (List.length pre)) with (Z.of_nat n)
    in Hstep by (unfold i0; lia).
  specialize (Hstep ltac:(rewrite Hi1; exact Himp)
                    ltac:(unfold n; lia)).
  apply fin_elim in Hstep.
  destruct Hstep
    as (r & w2 & Hrun2 & l2 & -> & Hm2 & Hp2 & Hw2 & Hi2 & Hl2 & Hf2 & Hn2
        & _).
  apply reaches_step in Hrun2.
  pose proof (reaches_trans R1 Hrun2) as R2.
  assert (Hstored : last_import_name (st w2) = tok)
    by (rewrite Hl2; apply substr_token; exact Hnul).
  (* the second name *)
  assert (Hline : line = (pre ++ tok ++ [" "%char]) ++ tok ++ c :: post)
    by (unfold line; rewrite <- !app_assoc; reflexivity).
  assert (Hidx : i0 + Z.of_nat n + Z.of_nat 1
                 = Z.of_nat (List.length (pre ++ tok ++ [" "%char])))
    by (rewrite !length_app; cbn [List.length]; unfold i0, n; lia).
  destruct (@scan_word no_align tok Hplain Hne (pre ++ tok ++ [" "%char])
              (c :: post) l2 w2 (or_introl Hm2))
    as (l3 & w3 & R3 & Hm3 & _ & _ & Hw3 & Ho3).
  rewrite <- Hline, <- Hidx in R3. fold n in R3.
  replace (i0 + Z.of_nat n + Z.of_nat 1) with (i0 + Z.of_nat (n + 1))
    in R3 by lia.
  pose proof (reaches_trans R2 R3) as R.
  rewrite Hm2, Hp2 in Hw3. cbn in Hw3. rewrite Hm2 in Hm3.
  destruct (only_printed_fields Ho3) as (Hf3 & Hn3 & _ & _ & Hi3 & _ & Hl3).
  (* the delimiter after it *)
  pose proof (@scan_char_repeated_name w3 l3 (pre ++ tok ++ [" "%char]) tok
                c post no_align Hm3 Hw3
                ltac:(rewrite Hi3; exact Hi2)
                ltac:(rewrite Hl3; exact Hstored) Hnul Hlen Hc) as Hlast.
  rewrite <- Hline in Hlast. apply fin_elim in Hlast.
  destruct Hlast as (r4 & w4 & Hrun4 & before & Hprinted).
  replace (Z.of_nat (List.length (pre ++ tok ++ [" "%char]))
           + Z.of_nat (List.length tok))
    with (i0 + Z.of_nat (n + 1 + n)) in Hrun4
    by (rewrite !length_app; cbn [List.length]; unfold i0, n; lia).
  replace (2 * n + 1)%nat with (n + 1 + n)%nat by lia.
  exists w3, w4, before. split; [exact (reaches_done R) |].
  split; [exact (reaches_then_step R Hrun4) |].
  rewrite Hprinted, Hf3, Hf2, Hf1, Hn3, Hn2, Hn1.
  replace (Z.of_nat (List.length (pre ++ tok ++ [" "%char])) + 1)
    with (i0 + Z.of_nat n + 2)
    by (rewrite !length_app; cbn [List.length]; unfold i0, n; lia).
  reflexivity.
Qed.

Lemma reaches_refl (line : list ascii) (no_align : bool) (i : Z)
    (l : Locals) (w : World) :
  scan_reaches line no_align 0 i l w l w.
Proof. intros n. cbn [Nat.add Z.of_nat]. rewrite Z.add_0_r. reflexivity. Qed.

(** The loop segment grows by one iteration that goes on. *)
Lemma reaches_snoc (line : list ascii) (no_align : bool) (k : nat)
    (i j : Z) (l : Locals) (w : World) (l1 : Locals) (w1 : World)
    (Q : Locals -> World -> Prop) :
  scan_reaches line no_align k i l w l1 w1 ->
  j = i + Z.of_nat k ->
  finishes (scan_char line no_align j l1) w1
    (fun r w' => exists l', r = Some l' /\ Q l' w') ->
  exists l2 w2,
    scan_reaches line no_align (k + 1) i l w l2 w2 /\ Q l2 w2.
Proof.
  intros R -> Hstep. apply fin_elim in Hstep.
  destruct Hstep as (r & w2 & Hrun & l2 & -> & HQ).
  exists l2, w2. split; [| exact HQ].
  apply reaches_step in Hrun. exact (reaches_trans R Hrun).
Qed.

(** The loop segment grows by a word. *)
Lemma reaches_word (line : list ascii) (no_align : bool) (k : nat) (i : Z)
    (l : Locals) (w : World) (l1 : Locals) (w1 : World)
    (pre tok post : list ascii) :
  scan_reaches line no_align k i l w l1 w1 ->
  line = pre ++ tok ++ post ->
  Z.of_nat (List.length pre) = i + Z.of_nat k ->
  Forall plain_char tok ->
  tok <> [] ->
  mode l1 = NORMAL \/ mode l1 = OPERATOR ->
  exists l2 w2,
    scan_reaches line no_align (k + List.length tok) i l w l2 w2
    /\ mode l2 = mode l1
    /\ (prev l2 =c " ") = false
    /\ two_spaces l2 = false
    /\ word_start l2
       = match mode l1 with
         | NORMAL =>
             if prev l1 =c " " then Z.of_nat (List.length pre)
             else word_start l1
         | _ => word_start l1
         end
    /\ only_printed w1 w2.
Proof.
  intros R -> Hidx Hplain Hne Hm.
  destruct (@scan_word no_align tok Hplain Hne pre post l1 w1 Hm)
    as (l2 & w2 & R2 & Hfacts).
  exists l2, w2. split; [| exact Hfacts].
  rewrite Hidx in R2. exact (reaches_trans R R2).
Qed.

Lemma length_list_set (s : list Z) (n : nat) (v : Z) :
  List.length (list_set s n v) = List.length s.
Proof.
  revert n. induction s as [| h s IH]; intros n; [reflexivity |].
  destruct n as [| n]; cbn [list_set List.length]; [reflexivity |].
  rewrite IH. reflexivity.
Qed.

Lemma nth_list_set (s : list Z) (n : nat) (v : Z) :
  (n < List.length s)%nat -> nth n (list_set s n v) 0 = v.
Proof.
  revert n. induction s as [| h s IH]; intros n Hn;
    cbn [List.length] in Hn; [lia |].
  destruct n as [| n]; cbn [list_set nth]; [reflexivity |].
  apply IH. lia.
Qed.

Lemma int_decr_small z :
  - 2 ^ 31 < z < 2 ^ 31 -> int_decr z = z - 1.
Proof.
  intros H. unfold int_decr, int_wrap.
  rewrite Z.mod_small by int_lia. int_lia.
Qed.

(** An opening delimiter in code, with room on the stack. *)
Lemma scan_char_opens (line : list ascii) (no_align : bool) (i : Z)
    (l : Locals) (w : World) :
  char_at line i = "("%char ->
  mode l = NORMAL ->
  0 <= depth (st w) < MAX_DEPTH - 1 ->
  List.length (stack (st w)) = Z.to_nat MAX_DEPTH ->
  0 <= i < 255 ->
  finishes (scan_char line no_align i l) w
    (fun r w' =>
       exists l',
         r = Some l'
         /\ mode l' = OPERATOR
         /\ two_spaces l' = false
         /\ depth (st w') = depth (st w) + 1
         /\ nth (Z.to_nat (depth (st w'))) (stack (st w')) 0 = i + 1
         /\ List.length (stack (st w')) = Z.to_nat MAX_DEPTH
         /\ import_mode (st w') = import_mode (st w)
         /\ last_import_id (st w') = last_import_id (st w)).
Proof.
  unfold scan_char. intros -> Hm Hd Hlen Hi.
  destruct l as [p e t ws m]. cbn [mode] in Hm. subst m.
  assert (Hincr : int_incr (depth (st w)) = depth (st w) + 1)
    by (apply int_incr_small; int_lia).
  assert (Hin : in_stack (depth (st w) + 1) = true)
    by (apply in_stack_range; lia).
  assert (Hnth : forall s,
            List.length s = Z.to_nat MAX_DEPTH ->
            nth (Z.to_nat (depth (st w) + 1))
              (list_set s (Z.to_nat (depth (st w) + 1)) (uint8 (i + 1))) 0
            = i + 1).
  { intros s Hs. rewrite nth_list_set by (rewrite Hs; int_lia).
    unfold uint8. apply Z.mod_small. lia. }
  unfold code_char, open_paren, after_switch.
  destruct t; repeat (progress (proj; eval_eqb)).
  all: fin_run ltac:(rewrite ?Hincr).
  all: eexists; split; [reflexivity |]; proj; rewrite ?Hincr;
    repeat split; try reflexivity.
  all: first [ apply Hnth; exact Hlen
             | rewrite length_list_set; exact Hlen ].
Qed.

(** The delimiter after the first identifier of an ID block: the
    identifier is compared with the stored one and then stored. *)
Lemma scan_char_stores_id (line : list ascii) (no_align : bool) (i : Z)
    (l : Locals) (w : World) (start : Z) :
  char_at line i = " "%char ->
  mode l = OPERATOR ->
  (prev l =c " ") = false ->
  two_spaces l = false ->
  import_mode (st w) = IB_USE ->
  0 <= depth (st w) < MAX_DEPTH ->
  nth (Z.to_nat (depth (st w))) (stack (st w)) 0 = start ->
  List.length (stack (st w)) = Z.to_nat MAX_DEPTH ->
  0 <= i - start < MAX_COLUMNS ->
  finishes (scan_char line no_align i l) w
    (fun r w' =>
       exists l',
         r = Some l'
         /\ mode l' = NORMAL
         /\ prev l' = " "%char
         /\ two_spaces l' = false
         /\ depth (st w') = depth (st w)
         /\ List.length (stack (st w')) = Z.to_nat MAX_DEPTH
         /\ import_mode (st w') = IB_ID
         /\ last_import_id (st w') = substr line start (i - start)).
Proof.
  unfold scan_char. intros -> Hm Hp Ht Himp Hd Hstart Hlen Hfit.
  destruct l as [p e t ws m]. cbn [mode prev two_spaces] in Hm, Hp, Ht.
  subst m t. pose proof (in_stack_range Hd) as Hin.
  unfold code_char, space_or_newline, classify_operator, after_switch.
  repeat (progress (proj; rewrite ?Hp; eval_eqb)).
  fin_run ltac:(rewrite ?Hstart, ?Himp; cbn [ib_eqb ib_succ]; cbv iota zeta;
                try match goal with
                    | |- finishes (store_name _ _ _ _) _ _ =>
                        apply fin_store_name; [exact Hfit |]
                    end).
  all: eexists; split; [reflexivity |]; proj; rewrite ?Hp, ?Himp;
    repeat split; try reflexivity.
  all: rewrite length_list_set; exact Hlen.
Qed.

(** The closing delimiter of an ID block. *)
Lemma scan_char_closes_id_block (line : list ascii) (no_align : bool)
    (i : Z) (l : Locals) (w : World) :
  char_at line i = ")"%char ->
  mode l = NORMAL ->
  import_mode (st w) = IB_ID ->
  0 < depth (st w) < MAX_DEPTH ->
  finishes (scan_char line no_align i l) w
    (fun r w' =>
       exists l',
         r = Some l'
         /\ mode l' = NORMAL
         /\ (prev l' =c " ") = false
         /\ two_spaces l' = false
         /\ depth (st w') = depth (st w) - 1
         /\ stack (st w') = stack (st w)
         /\ import_mode (st w') = IB_USE
         /\ last_import_id (st w') = last_import_id (st w)).
Proof.
  unfold scan_char. intros -> Hm Himp Hd.
  destruct l as [p e t ws m]. cbn [mode] in Hm. subst m.
  assert (Hdecr : int_decr (depth (st w)) = depth (st w) - 1)
    by (apply int_decr_small; int_lia).
  unfold code_char, close_paren, check_name_order, after_switch.
  destruct t; repeat (progress (proj; eval_eqb)).
  all: fin_run ltac:(rewrite ?Himp, ?Hdecr; cbn [ib_eqb ib_pred negb];
                     cbv iota).
  all: eexists; split; [reflexivity |]; proj; rewrite ?Himp, ?Hdecr;
    repeat split; reflexivity.
Qed.

(** A space between two ID blocks. *)
Lemma scan_char_space_in_use_block (line : list ascii) (no_align : bool)
    (i : Z) (l : Locals) (w : World) :
  char_at line i = " "%char ->
  mode l = NORMAL ->
  (prev l =c " ") = false ->
  two_spaces l = false ->
  import_mode (st w) = IB_USE ->
  finishes (scan_char line no_align i l) w
    (fun r w' =>
       exists l',
         r = Some l' /\ mode l' = NORMAL /\ two_spaces l' = false /\ w' = w).
Proof.
  unfold scan_char. intros -> Hm Hp Ht Himp.
  destruct l as [p e t ws m]. cbn [mode prev two_spaces] in Hm, Hp, Ht.
  subst m t.
  unfold code_char, space_or_newline, after_switch.
  repeat (progress (proj; rewrite ?Hp; eval_eqb)).
  fin_run ltac:(rewrite ?Himp; cbn [ib_eqb]; cbv iota).
  eexists. split; [reflexivity |]. proj. rewrite ?Hp.
  repeat split; reflexivity.
Qed.

(** The delimiter after an identifier equal to the stored one. *)
Lemma scan_char_repeated_id_quiet (w : World) (l : Locals)
    (pre id : list ascii) (c : ascii) (post : list ascii)
    (no_align : bool) :
  mode l = OPERATOR ->
  two_spaces l = false ->
  import_mode (st w) = IB_USE ->
  last_import_id (st w) = id ->
  0 <= depth (st w) < MAX_DEPTH ->
  nth (Z.to_nat (depth (st w))) (stack (st w)) 0
  = Z.of_nat (List.length pre) ->
  ~ In NUL id ->
  Z.of_nat (List.length id) < MAX_COLUMNS ->
  c = " "%char \/ c = NL ->
  finishes
    (scan_char (pre ++ id ++ c :: post) no_align
       (Z.of_nat (List.length pre) + Z.of_nat (List.length id)) l) w
    (fun _ w' => printed w' = printed w).
Proof.
  intros Hmode Hts Himp Hid Hd Hstart Hn Hlen Hc.
  destruct l as [p e t ws m]. cbn in Hmode, Hts. subst m t.
  pose proof (in_stack_range Hd) as Hin.
  unfold scan_char. rewrite char_at_after_token.
  unfold code_char, space_or_newline.
  destruct (p =c " ") eqn:Ep; destruct Hc as [-> | ->].
  all: repeat (progress (proj; rewrite ?Ep; eval_eqb)); unfold when;
    cbv iota.
  all: fin_go idtac.
  all: unfold classify_operator; apply fin_bind, fin_get; proj;
    apply fin_bind, fin_stack_get; [exact Hin |]; proj; rewrite Hstart;
    cbv zeta;
    replace (Z.of_nat (List.length pre) + Z.of_nat (List.length id)
             - Z.of_nat (List.length pre))
      with (Z.of_nat (List.length id)) by lia;
    rewrite Himp, Hid, correct_id_order_equal by exact Hn;
    unfold when; cbn [negb]; eval_eqb.
  all: fin_go idtac.
  all: reflexivity.
Qed.

(** Lists in the shape of a prefix, a token and a rest. *)
Ltac reassoc :=
  repeat (rewrite <- app_assoc; cbn [app]); reflexivity.

Ltac len_lia :=
  repeat (rewrite length_app || cbn [List.length]); lia.

(** The names of an ID block, up to its closing delimiter. *)
Lemma scan_names (no_align : bool) (names : list (list ascii)) :
  Forall import_word names ->
  names <> [] ->
  forall (pre post : list ascii) (l : Locals) (w : World),
    mode l = NORMAL ->
    prev l = " "%char ->
    import_mode (st w) = IB_ID ->
    exists l' w',
      scan_reaches (pre ++ spaced names ++ post) no_align
        (List.length (spaced names)) (Z.of_nat (List.length pre)) l w l' w'
      /\ mode l' = NORMAL
      /\ (prev l' =c " ") = false
      /\ two_spaces l' = false
      /\ import_mode (st w') = IB_ID
      /\ last_import_id (st w') = last_import_id (st w)
      /\ depth (st w') = depth (st w)
      /\ stack (st w') = stack (st w).
Proof.
  induction 1 as [| n names (Hne & Hplain & Hshort) Hrest IH];
    intros Hnn pre post l w Hm Hp Himp;
    [exfalso; apply Hnn; reflexivity |].
  destruct names as [| n2 names].
  - cbn [spaced].
    destruct (@scan_word no_align n Hplain Hne pre post l w (or_introl Hm))
      as (l1 & w1 & R1 & Hm1 & Hp1 & Ht1 & _ & Ho1).
    destruct (only_printed_fields Ho1) as (_ & _ & Hd1 & Hs1 & Hi1 & Hl1 & _).
    exists l1, w1. rewrite Hm in Hm1.
    repeat split; try assumption. rewrite Hi1. exact Himp.
  - remember (n2 :: names) as more eqn:Emore.
    assert (Hsp : spaced (n :: more) = n ++ " "%char :: spaced more)
      by (rewrite Emore; reflexivity).
    rewrite Hsp. clear Hsp.
    set (line := pre ++ (n ++ " "%char :: spaced more) ++ post).
    assert (L1 : line = pre ++ n ++ " "%char :: spaced more ++ post)
      by (unfold line; reassoc).
    (* the first name *)
    destruct (@scan_word no_align n Hplain Hne pre
                (" "%char :: spaced more ++ post) l w (or_introl Hm))
      as (l1 & w1 & R1 & Hm1 & Hp1 & _ & Hw1 & Ho1).
    rewrite <- L1 in R1. rewrite Hm, Hp in Hw1. cbn in Hw1.
    rewrite Hm in Hm1.
    destruct (only_printed_fields Ho1) as (_ & _ & Hd1 & Hs1 & Hi1 & Hl1 & _).
    (* the space after it *)
    assert (C2 : char_at line
                   (Z.of_nat (List.length pre)
                    + Z.of_nat (List.length n)) = " "%char)
      by (rewrite L1; apply char_at_after_token).
    pose proof (@scan_char_space_stores_name line no_align
                  (Z.of_nat (List.length pre) + Z.of_nat (List.length n))
                  l1 w1 C2 Hm1 Hp1
                  ltac:(rewrite Hi1; exact Himp)
                  ltac:(rewrite Hw1; lia)) as S2.
    destruct (@reaches_snoc _ _ _ _ _ _ _ _ _ _ R1 eq_refl S2)
      as (l2 & w2 & R2 & Hm2 & Hp2 & _ & Hi2 & _ & _ & _ & Hd2 & Hs2 & Hl2
          & _).
    clear S2.
    (* the other names *)
    assert (L3 : line = (pre ++ n ++ [" "%char]) ++ spaced more ++ post)
      by (unfold line; reassoc).
    destruct (IH ltac:(rewrite Emore; discriminate)
                 (pre ++ n ++ [" "%char]) post l2 w2 Hm2 Hp2 Hi2)
      as (l3 & w3 & R3 & Hm3 & Hp3 & Ht3 & Hi3 & Hl3 & Hd3 & Hs3).
    rewrite <- L3 in R3.
    replace (Z.of_nat (List.length (pre ++ n ++ [" "%char])))
      with (Z.of_nat (List.length pre) + Z.of_nat (List.length n + 1))
      in R3 by len_lia.
    pose proof (reaches_trans R2 R3) as R.
    replace (List.length n + 1 + List.length (spaced more))%nat
      with (List.length (n ++ " "%char :: spaced more)) in R by len_lia.
    exists l3, w3. split; [exact R |].
    repeat split; try assumption; congruence.
Qed.

Lemma ids_twice (pre id : list ascii) (names : list (list ascii))
    (c : ascii) (post : list ascii)
    (no_align : bool) (l : Locals) (w : World) :
  id <> [] ->
  Forall plain_char id ->
  names <> [] ->
  Forall import_word names ->
  ~ In NUL id ->
  Z.of_nat (List.length id) < MAX_COLUMNS ->
  Z.of_nat (List.length pre) + Z.of_nat (List.length id)
  + Z.of_nat (List.length (spaced names)) + 5 < 256 ->
  c = " "%char \/ c = NL ->
  mode l = NORMAL ->
  import_mode (st w) = IB_USE ->
  0 <= depth (st w) < MAX_DEPTH - 1 ->
  List.length (stack (st w)) = Z.to_nat MAX_DEPTH ->
  exists w1 w2,
    scan (2 * List.length id + List.length (spaced names) + 5)
      (pre ++ "("%char :: id ++ " "%char :: spaced names
           ++ ")"%char :: " "%char :: "("%char :: id ++ c :: post)
      no_align (Z.of_nat (List.length pre)) l w = Done (tt, w1)
    /\ scan (S (2 * List.length id + List.length (spaced names) + 5))
         (pre ++ "("%char :: id ++ " "%char :: spaced names
              ++ ")"%char :: " "%char :: "("%char :: id ++ c :: post)
         no_align (Z.of_nat (List.length pre)) l w = Done (tt, w2)
    /\ printed w2 = printed w1.
Proof.
  intros Hid Pid Hnm Pnm Hnul Hlen Hcol Hc Hm Himp Hd Hstack.
  set (tail2 := c :: post).
  set (tail1 := ")"%char :: " "%char :: "("%char :: id ++ tail2).
  set (line := pre ++ "("%char :: id ++ " "%char :: spaced names ++ tail1).
  set (i0 := Z.of_nat (List.length pre)) in *.
  set (a := List.length id) in *. set (b := List.length (spaced names)) in *.
  pose proof (reaches_refl line no_align i0 l w) as R0.
  (* the opening delimiter of the first ID block *)
  assert (C1 : char_at line (i0 + Z.of_nat 0) = "("%char)
    by (rewrite Z.add_0_r; apply char_at_middle).
  pose proof (@scan_char_opens line no_align (i0 + Z.of_nat 0) l w C1 Hm Hd
                Hstack ltac:(unfold i0; lia)) as S1.
  destruct (@reaches_snoc _ _ _ _ _ _ _ _ _ _ R0 eq_refl S1)
    as (l1 & w1 & R1 & Hm1 & Ht1 & Hd1 & Hs1 & Hk1 & Hi1 & _).
  clear S1.
  (* the first identifier *)
  assert (L2 : line
               = (pre ++ ["("%char]) ++ id
                 ++ " "%char :: spaced names ++ tail1)
    by (unfold line; reassoc).
  assert (N2 : Z.of_nat (List.length (pre ++ ["("%char]))
               = i0 + Z.of_nat (0 + 1)) by (unfold i0; len_lia).
  destruct (@reaches_word _ _ _ _ _ _ _ _ _ _ _ R1 L2 N2 Pid Hid
              (or_intror Hm1))
    as (l2 & w2 & R2 & Hm2 & Hp2 & Ht2 & _ & Ho2).
  fold a in R2. rewrite Hm1 in Hm2.
  destruct (only_printed_fields Ho2) as (_ & _ & Hd2 & Hs2 & Hi2 & _ & _).
  (* the space after it: the identifier is stored *)
  assert (C3 : char_at line (i0 + Z.of_nat (0 + 1 + a)) = " "%char).
  { rewrite L2.
    replace (i0 + Z.of_nat (0 + 1 + a))
      with (Z.of_nat (List.length (pre ++ ["("%char]))
            + Z.of_nat (List.length id)) by (unfold a; lia).
    apply char_at_after_token. }
  pose proof (@scan_char_stores_id line no_align
                (i0 + Z.of_nat (0 + 1 + a)) l2 w2 (i0 + 1) C3 Hm2 Hp2 Ht2
                ltac:(rewrite Hi2, Hi1; exact Himp)
                ltac:(rewrite Hd2, Hd1; lia)
                ltac:(rewrite Hd2, Hs2, Hs1; lia)
                ltac:(rewrite Hs2; exact Hk1)
                ltac:(unfold a; lia)) as S3.
  destruct (@reaches_snoc _ _ _ _ _ _ _ _ _ _ R2 eq_refl S3)
    as (l3 & w3 & R3 & Hm3 & Hp3 & Ht3 & Hd3 & Hk3 & Hi3 & Hl3).
  clear S3.
  assert (Hstored : last_import_id (st w3) = id).
  { rewrite Hl3, L2.
    replace (i0 + 1) with (Z.of_nat (List.length (pre ++ ["("%char])))
      by lia.
    replace (i0 + Z.of_nat (0 + 1 + a)
             - Z.of_nat (List.length (pre ++ ["("%char])))
      with (Z.of_nat (List.length id)) by (unfold a; lia).
    apply substr_token. exact Hnul. }
  (* the name *)
  assert (L4 : line
               = (pre ++ "("%char :: id ++ [" "%char]) ++ spaced names ++ tail1)
    by (unfold line; reassoc).
  assert (N4 : Z.of_nat (List.length (pre ++ "("%char :: id ++ [" "%char]))
               = i0 + Z.of_nat (0 + 1 + a + 1))
    by (unfold i0, a; len_lia).
  destruct (@scan_names no_align names Pnm Hnm
              (pre ++ "("%char :: id ++ [" "%char]) tail1 l3 w3 Hm3 Hp3 Hi3)
    as (l4 & w4 & R4' & Hm4 & _ & _ & Hi4 & Hl4 & Hd4 & Hs4).
  rewrite <- L4, N4 in R4'. fold b in R4'.
  pose proof (reaches_trans R3 R4') as R4. clear R4'.
  (* the closing delimiter of the block *)
  assert (C5 : char_at line (i0 + Z.of_nat (0 + 1 + a + 1 + b))
               = ")"%char).
  { rewrite L4.
    replace (i0 + Z.of_nat (0 + 1 + a + 1 + b))
      with (Z.of_nat (List.length (pre ++ "("%char :: id ++ [" "%char]))
            + Z.of_nat (List.length (spaced names))) by (unfold b; lia).
    apply char_at_after_token. }
  pose proof (@scan_char_closes_id_block line no_align
                (i0 + Z.of_nat (0 + 1 + a + 1 + b)) l4 w4 C5 Hm4
                Hi4
                ltac:(rewrite Hd4, Hd3, Hd2, Hd1; lia)) as S5.
  destruct (@reaches_snoc _ _ _ _ _ _ _ _ _ _ R4 eq_refl S5)
    as (l5 & w5 & R5 & Hm5 & Hp5 & Ht5 & Hd5 & Hs5 & Hi5 & Hl5).
  clear S5.
  assert (Hd5' : depth (st w5) = depth (st w))
    by (rewrite Hd5, Hd4, Hd3, Hd2, Hd1; lia).
  (* the space between the blocks *)
  assert (L6 : line
               = (pre ++ "("%char :: id ++ " "%char :: spaced names
                      ++ [")"%char])
                 ++ " "%char :: "("%char :: id ++ tail2)
    by (unfold line, tail1; reassoc).
  assert (C6 : char_at line (i0 + Z.of_nat (0 + 1 + a + 1 + b + 1))
               = " "%char).
  { rewrite L6.
    replace (i0 + Z.of_nat (0 + 1 + a + 1 + b + 1))
      with (Z.of_nat
              (List.length
                 (pre ++ "("%char :: id ++ " "%char :: spaced names
                      ++ [")"%char])))
      by (unfold i0, a, b; len_lia).
    apply char_at_middle. }
  pose proof (@scan_char_space_in_use_block line no_align
                (i0 + Z.of_nat (0 + 1 + a + 1 + b + 1)) l5 w5 C6 Hm5 Hp5
                Ht5 Hi5) as S6.
  destruct (@reaches_snoc _ _ _ _ _ _ _ _ _ _ R5 eq_refl S6)
    as (l6 & w6 & R6 & Hm6 & Ht6 & ->).
  clear S6.
  (* the opening delimiter of the second ID block *)
  assert (L7 : line
               = (pre ++ "("%char :: id ++ " "%char :: spaced names
                      ++ [")"%char; " "%char])
                 ++ "("%char :: id ++ tail2)
    by (unfold line, tail1; reassoc).
  assert (C7 : char_at line (i0 + Z.of_nat (0 + 1 + a + 1 + b + 1 + 1))
               = "("%char).
  { rewrite L7.
    replace (i0 + Z.of_nat (0 + 1 + a + 1 + b + 1 + 1))
      with (Z.of_nat
              (List.length
                 (pre ++ "("%char :: id ++ " "%char :: spaced names
                      ++ [")"%char; " "%char])))
      by (unfold i0, a, b; len_lia).
    apply char_at_middle. }
  pose proof (@scan_char_opens line no_align
                (i0 + Z.of_nat (0 + 1 + a + 1 + b + 1 + 1)) l6 w5 C7 Hm6
                ltac:(rewrite Hd5'; exact Hd)
                ltac:(rewrite Hs5, Hs4; exact Hk3)
                ltac:(unfold i0, a, b in *; lia)) as S7.
  destruct (@reaches_snoc _ _ _ _ _ _ _ _ _ _ R6 eq_refl S7)
    as (l7 & w7 & R7 & Hm7 & Ht7 & Hd7 & Hs7 & Hk7 & Hi7 & Hl7).
  clear S7.
  (* the second identifier *)
  assert (L8 : line
               = (pre ++ "("%char :: id ++ " "%char :: spaced names
                      ++ [")"%char; " "%char; "("%char])
                 ++ id ++ c :: post)
    by (unfold line, tail1, tail2; reassoc).
  assert (N8 : Z.of_nat
                 (List.length
                    (pre ++ "("%char :: id ++ " "%char :: spaced names
                         ++ [")"%char; " "%char; "("%char]))
               = i0 + Z.of_nat (0 + 1 + a + 1 + b + 1 + 1 + 1))
    by (unfold i0, a, b; len_lia).
  destruct (@reaches_word _ _ _ _ _ _ _ _ _ _ _ R7 L8 N8 Pid Hid
              (or_intror Hm7))
    as (l8 & w8 & R8 & Hm8 & _ & Ht8 & _ & Ho8).
  fold a in R8. rewrite Hm7 in Hm8.
  destruct (only_printed_fields Ho8) as (_ & _ & Hd8 & Hs8 & Hi8 & Hl8 & _).
  (* the delimiter after it *)
  pose proof (@scan_char_repeated_id_quiet w8 l8
                (pre ++ "("%char :: id ++ " "%char :: spaced names
                     ++ [")"%char; " "%char; "("%char])
                id c post no_align Hm8 Ht8
                ltac:(rewrite Hi8, Hi7; exact Hi5)
                ltac:(rewrite Hl8, Hl7, Hl5, Hl4; exact Hstored)
                ltac:(rewrite Hd8, Hd7, Hd5'; lia)
                ltac:(rewrite Hd8, Hs8, Hs7, N8; lia)
                Hnul Hlen Hc) as Hlast.
  rewrite <- L8, N8 in Hlast. apply fin_elim in Hlast.
  destruct Hlast as (r9 & w9 & Hrun9 & Hquiet).
  replace (i0 + Z.of_nat (0 + 1 + a + 1 + b + 1 + 1 + 1)
           + Z.of_nat (List.length id))
    with (i0 + Z.of_nat (0 + 1 + a + 1 + b + 1 + 1 + 1 + a)) in Hrun9
    by (unfold a; lia).
  replace (2 * a + b + 5)%nat with (0 + 1 + a + 1 + b + 1 + 1 + 1 + a)%nat
    by lia.
  exists w8, w9. split; [exact (reaches_done R8) |].
  split; [exact (reaches_then_step R8 Hrun9) | exact Hquiet].
Qed.

(** *** A name that ends a line, and the same name on the next line *)

Lemma only_printed_in_string (w w' : World) :
  only_printed w w' -> in_string (st w') = in_string (st w).
Proof.
  intros [E _]. destruct (st w), (st w'). cbn in E. injection E as -> ->.
  intros. subst. reflexivity.
Qed.

(** The newline after a name inside an ID block stores the name, as a
    space does. *)
Lemma scan_char_newline_stores_name (line : list ascii) (no_align : bool)
    (i : Z) (l : Locals) (w : World) :
  char_at line i = NL ->
  mode l = NORMAL ->
  import_mode (st w) = IB_ID ->
  0 <= i - word_start l < MAX_COLUMNS ->
  finishes (scan_char line no_align i l) w
    (fun r w' =>
       import_mode (st w') = IB_ID
       /\ last_import_name (st w')
          = substr line (word_start l) (i - word_start l)
       /\ filename (st w') = filename (st w)
       /\ lineno (st w') = lineno (st w)
       /\ depth (st w') = depth (st w)
       /\ in_string (st w') = in_string (st w)
       /\ exists ds, printed w' = printed w ++ ds).
Proof.
  unfold scan_char. intros -> Hm Himp Hlen.
  destruct l as [p e t ws m]. cbn [mode word_start] in Hm, Hlen.
  subst m. unfold code_char, space_or_newline, check_name_order, after_switch.
  destruct t; destruct (p =c " ") eqn:Ep;
    repeat (progress (proj; rewrite ?Ep; eval_eqb)).
  all: fin_run ltac:(rewrite ?Himp; cbn [ib_eqb]; cbv iota;
                     try match goal with
                         | |- finishes (store_name _ _ _ _) _ _ =>
                             apply fin_store_name; [exact Hlen |]
                         end).
  all: proj; repeat split; try reflexivity; try assumption.
  all: appended_some.
Qed.

(** The indentation of a line. *)
Lemma scan_indentation (no_align : bool) (m : nat) :
  forall (pre rest : list ascii) (l : Locals) (w : World),
    mode l = INDENT ->
    exists l',
      scan_reaches (pre ++ repeat " "%char m ++ rest) no_align m
        (Z.of_nat (List.length pre)) l w l' w
      /\ mode l' = INDENT
      /\ two_spaces l' = two_spaces l
      /\ word_start l' = word_start l
      /\ prev l' = match m with O => prev l | S _ => " "%char end.
Proof.
  induction m as [| m IH]; intros pre rest l w Hm.
  - exists l. split; [apply reaches_refl | repeat split; assumption].
  - cbn [repeat].
    assert (Hstep : scan_char (pre ++ (" "%char :: repeat " "%char m) ++ rest)
                      no_align (Z.of_nat (List.length pre)) l w
                    = Done (Some (after_switch (Z.of_nat (List.length pre))
                                    " " l), w)).
    { unfold scan_char.
      replace (char_at (pre ++ (" "%char :: repeat " "%char m) ++ rest)
                 (Z.of_nat (List.length pre))) with " "%char
        by (symmetry; apply char_at_middle).
      rewrite Hm. reflexivity. }
    apply reaches_step in Hstep.
    destruct (IH (pre ++ [" "%char]) rest
                (after_switch (Z.of_nat (List.length pre)) " " l) w)
      as (l' & R & Hm' & Ht' & Hw' & Hp').
    { destruct l. exact Hm. }
    replace ((pre ++ [" "%char]) ++ repeat " "%char m ++ rest)
      with (pre ++ (" "%char :: repeat " "%char m) ++ rest) in R
      by reassoc.
    replace (Z.of_nat (List.length (pre ++ [" "%char])))
      with (Z.of_nat (List.length pre) + Z.of_nat 1) in R by len_lia.
    exists l'. split; [exact (reaches_trans Hstep R) |].
    split; [exact Hm' |].
    assert (Hw0 : word_start
                    (after_switch (Z.of_nat (List.length pre)) " " l)
                  = word_start l)
      by (destruct l as [p e t ws md]; cbn in Hm; subst md; reflexivity).
    split; [rewrite Ht'; destruct l; reflexivity |].
    split; [rewrite Hw'; exact Hw0 |].
    rewrite Hp'. destruct m; destruct l; reflexivity.
Qed.

(** The first character of a line's first word. *)
Lemma scan_char_plain_after_indentation (line : list ascii)
    (no_align : bool) (i : Z) (l : Locals) (w : World) :
  plain_char (char_at line i) ->
  mode l = INDENT ->
  two_spaces l = false ->
  0 <= depth (st w) < MAX_DEPTH ->
  finishes (scan_char line no_align i l) w
    (fun r w' =>
       exists l',
         r = Some l'
         /\ mode l' = NORMAL
         /\ prev l' = char_at line i
         /\ two_spaces l' = false
         /\ word_start l' = (if prev l =c " " then i else word_start l)
         /\ import_mode (st w') = import_mode (st w)
         /\ last_import_name (st w') = last_import_name (st w)
         /\ filename (st w') = filename (st w)
         /\ lineno (st w') = lineno (st w)
         /\ exists ds, printed w' = printed w ++ ds).
Proof.
  unfold scan_char. generalize (char_at line i).
  intros c Hp Hm Ht Hd. destruct l as [p e t ws m].
  cbn [mode two_spaces] in Hm, Ht. subst m t.
  pose proof (in_stack_range Hd) as Hin.
  unfold code_char, check_indent, after_switch.
  destruct (p =c " ") eqn:Ep;
    repeat (progress (proj; rewrite ?Ep; decide_char Hp)).
  all: fin_run idtac.
  all: eexists; split; [reflexivity |]; proj; rewrite ?Ep;
    repeat split; try reflexivity.
  all: appended_some.
Qed.

(** A name equal to the stored one as the first word of a line: the loop
    reaches the character after it, and the iteration there prints the
    ordering diagnostic last. *)
Lemma name_at_line_start (m : nat) (tok : list ascii) (c : ascii)
    (post : list ascii) (no_align : bool) (w : World) :
  tok <> [] ->
  Forall plain_char tok ->
  ~ In NUL tok ->
  Z.of_nat (List.length tok) < MAX_COLUMNS ->
  c = " "%char \/ c = NL \/ c = ")"%char \/ c = "]"%char ->
  import_mode (st w) = IB_ID ->
  last_import_name (st w) = tok ->
  0 <= depth (st w) < MAX_DEPTH ->
  exists l1 w1 r w2 before,
    scan_reaches (repeat " "%char m ++ tok ++ c :: post) no_align
      (m + List.length tok) 0 line_start w l1 w1
    /\ scan_char (repeat " "%char m ++ tok ++ c :: post) no_align
         (Z.of_nat (m + List.length tok)) l1 w1 = Done (r, w2)
    /\ (exists ds, printed w1 = printed w ++ ds)
    /\ printed w2
       = printed w1 ++ before
         ++ [mkDiag (filename (st w)) (lineno (st w)) (Z.of_nat m + 1)
               (name_order_message tok tok)].
Proof.
  intros Hne Hplain Hnul Hlen Hc Himp Hname Hd.
  set (line := repeat " "%char m ++ tok ++ c :: post).
  (* the indentation *)
  destruct (@scan_indentation no_align m [] (tok ++ c :: post) line_start w
              eq_refl) as (l0 & R0 & Hm0 & Ht0 & Hw0 & Hp0).
  cbn [app List.length Z.of_nat] in R0. fold line in R0.
  cbn [line_start two_spaces word_start prev] in Ht0, Hw0, Hp0.
  (* the first character of the name *)
  destruct tok as [| c0 tail]; [exfalso; apply Hne; reflexivity |].
  inversion Hplain as [| x xs Hc0 Htail]; subst x xs.
  assert (L1 : line = repeat " "%char m ++ c0 :: tail ++ c :: post)
    by (unfold line; reassoc).
  assert (C1 : char_at line (0 + Z.of_nat m) = c0).
  { rewrite L1.
    replace (0 + Z.of_nat m)
      with (Z.of_nat (List.length (repeat " "%char m)))
      by (rewrite repeat_length; lia).
    apply char_at_middle. }
  pose proof (@scan_char_plain_after_indentation line no_align
                (0 + Z.of_nat m) l0 w) as S1.
  rewrite C1 in S1. specialize (S1 Hc0 Hm0 Ht0 Hd).
  destruct (@reaches_snoc _ _ _ _ _ _ _ _ _ _ R0 eq_refl S1)
    as (l1 & w1 & R1 & Hm1 & Hp1 & Ht1 & Hw1 & Hi1 & Hl1 & Hf1 & Hn1 & Hd1).
  clear S1.
  assert (Hstart : word_start l1 = Z.of_nat m).
  { rewrite Hw1, Hw0, Hp0. destruct m; [reflexivity |].
    change (" "%char =c " "%char) with true. cbv iota. lia. }
  (* the rest of the name *)
  assert (Hrest : exists l2 w2,
            scan_reaches line no_align (m + 1 + List.length tail) 0
              line_start w l2 w2
            /\ mode l2 = NORMAL
            /\ word_start l2 = Z.of_nat m
            /\ only_printed w1 w2).
  { destruct tail as [| c1 tail].
    - exists l1, w1. cbn [List.length]. rewrite Nat.add_0_r.
      repeat split; try assumption. apply only_printed_refl.
    - assert (L2 : line
                   = (repeat " "%char m ++ [c0]) ++ (c1 :: tail)
                     ++ c :: post) by (unfold line; reassoc).
      assert (N2 : Z.of_nat (List.length (repeat " "%char m ++ [c0]))
                   = 0 + Z.of_nat (m + 1))
        by (rewrite length_app, repeat_length; cbn [List.length]; lia).
      destruct (@reaches_word _ _ _ _ _ _ _ _ _ _ _ R1 L2 N2 Htail
                  ltac:(discriminate) (or_introl Hm1))
        as (l2 & w2 & R2 & Hm2 & _ & _ & Hw2 & Ho2).
      exists l2, w2. split; [exact R2 |].
      split; [congruence |]. split; [| exact Ho2].
      rewrite Hw2, Hm1, Hp1, (plain_not_space Hc0). exact Hstart. }
  destruct Hrest as (l2 & w2 & R2 & Hm2 & Hw2 & Ho2).
  destruct (only_printed_fields Ho2) as (Hf2 & Hn2 & _ & _ & Hi2 & _ & Hl2).
  destruct Ho2 as [_ (ds2 & Hds2)]. destruct Hd1 as (ds1 & Hds1).
  (* the character after it *)
  pose proof (@scan_char_repeated_name w2 l2 (repeat " "%char m)
                (c0 :: tail) c post no_align Hm2
                ltac:(rewrite repeat_length; exact Hw2)
                ltac:(rewrite Hi2, Hi1; exact Himp)
                ltac:(rewrite Hl2, Hl1; exact Hname) Hnul Hlen Hc)
    as Hlast.
  fold line in Hlast. apply fin_elim in Hlast.
  destruct Hlast as (r & w3 & Hrun & before & Hprinted).
  rewrite repeat_length in Hrun, Hprinted.
  replace (Z.of_nat m + Z.of_nat (List.length (c0 :: tail)))
    with (Z.of_nat (m + List.length (c0 :: tail))) in Hrun by lia.
  replace (m + 1 + List.length tail)%nat
    with (m + List.length (c0 :: tail))%nat in R2
    by (cbn [List.length]; lia).
  exists l2, w2, r, w3, before.
  split; [exact R2 |]. split; [exact Hrun |].
  split; [exists (ds1 ++ ds2); rewrite Hds2, Hds1, app_assoc; reflexivity |].
  rewrite Hprinted, Hf2, Hf1, Hn2, Hn1. reflexivity.
Qed.

(** What [scan] prints is appended. *)
Lemma scan_appends (n : nat) (line : list ascii) (no_align : bool) (i : Z)
    (l : Locals) (w : World) (u : unit) (w' : World) :
  scan n line no_align i l w = Done (u, w') ->
  exists ds, printed w' = printed w ++ ds.
Proof.
  intros H.
  pose proof (@preserves_scan _
                (printing_line_frame (filename (st w)) (lineno (st w))
                   (printed w))
                (fun w0 v H0 => H0) n line no_align i l w) as Hp.
  assert (Hinit : printing_line (filename (st w)) (lineno (st w))
                    (printed w) w).
  { split; [reflexivity | split; [reflexivity |]].
    exists []. rewrite app_nil_r. split; [reflexivity | constructor]. }
  specialize (Hp Hinit). rewrite H in Hp.
  destruct Hp as (_ & _ & ds & Hds & _). exists ds. exact Hds.
Qed.

(** A line of code that is linted to completion: Step 1 and the entry
    assertions are behind the loop, which starts in a world that differs
    from the line's only in [status], [prev_blanks] and the output. *)
Lemma lint_line_code_inv (line : list ascii) (w : World) (u : unit)
    (w' : World) :
  lint_line line w = Done (u, w') ->
  Z.of_nat (List.length line) <> 1 ->
  (char_at line 0 =c ";") = false ->
  in_string (st w) = false ->
  exists no_align w0,
    scan (List.length line) line no_align 0 line_start w0 = Done (u, w')
    /\ 0 <= depth (st w) < MAX_DEPTH
    /\ depth (st w0) = depth (st w)
    /\ import_mode (st w0) = import_mode (st w)
    /\ last_import_name (st w0) = last_import_name (st w)
    /\ filename (st w0) = filename (st w)
    /\ lineno (st w0) = lineno (st w)
    /\ exists ds, printed w0 = printed w ++ ds.
Proof.
  intros H Hlen Hsemi Hstr. unfold lint_line in H.
  apply bind_inv in H. destruct H as (u1 & w1 & Ha & H).
  apply assert_inv in Ha. destruct Ha as [_ ->].
  apply bind_inv in H. destruct H as (u2 & w2 & Ha & H).
  apply assert_inv in Ha. destruct Ha as [_ ->].
  apply bind_inv in H. destruct H as (s & w3 & Hg & H).
  unfold get in Hg. injection Hg as <- <-.
  apply bind_inv in H. destruct H as (u3 & w4 & Ha & H).
  apply assert_inv in Ha. destruct Ha as [Hlo ->].
  apply bind_inv in H. destruct H as (u4 & w5 & Ha & H).
  apply assert_inv in Ha. destruct Ha as [Hhi ->].
  apply Z.geb_le in Hlo. apply Z.ltb_lt in Hhi.
  destruct (Z.eqb_spec (Z.of_nat (List.length line)) 1) as [E | _];
    [contradiction |].
  apply bind_inv in H. destruct H as (u5 & w6 & Hm & H).
  unfold modify in Hm. injection Hm as _ <-.
  apply bind_inv in H. destruct H as (u6 & w7 & Hlong & H).
  apply bind_inv in H. destruct H as (u7 & w8 & Htrail & H).
  rewrite Hsemi, Hstr in H. cbv zeta in H.
  eexists. exists w8. split; [exact H |]. split; [lia |].
  unfold when, fail, ret in Hlong, Htrail.
  destruct (Z.of_nat (List.length line) - 1 >? MAX_COLUMNS);
    injection Hlong as _ <-;
    destruct (char_at line (Z.of_nat (List.length line) - 2) =c " ");
    injection Htrail as _ <-; proj; repeat split; try reflexivity.
  all: appended_some.
Qed.

Lemma names_on_two_lines (pre tok : list ascii) (m : nat) (c : ascii)
    (post : list ascii) (no_align : bool) (l : Locals) (w : World) :
  tok <> [] ->
  Forall plain_char tok ->
  ~ In NUL tok ->
  Z.of_nat (List.length tok) < MAX_COLUMNS ->
  c = " "%char \/ c = NL \/ c = ")"%char \/ c = "]"%char ->
  mode l = NORMAL ->
  prev l = " "%char ->
  import_mode (st w) = IB_ID ->
  in_string (st w) = false ->
  exists w1,
    scan (S (List.length tok)) (pre ++ tok ++ [NL]) no_align
      (Z.of_nat (List.length pre)) l w = Done (tt, w1)
    /\ (forall (u : unit) (w2 : World),
          lint_line (repeat " "%char m ++ tok ++ c :: post) (next_line w1)
          = Done (u, w2) ->
          exists a b,
            printed w2
            = printed w1 ++ a
              ++ mkDiag (filename (st w)) (int_incr (lineno (st w)))
                   (Z.of_nat m + 1) (name_order_message tok tok) :: b)
    /\ (0 <= depth (st w) < MAX_DEPTH ->
        exists w2,
          lint_line (repeat " "%char m ++ tok ++ [NL]) (next_line w1)
          = Done (tt, w2)).
Proof.
  intros Hne Hplain Hnul Hlen Hc Hm Hp Himp Hstr.
  (* the name that ends the first line, and the newline *)
  destruct (@scan_word no_align tok Hplain Hne pre [NL] l w (or_introl Hm))
    as (l1 & w1 & R1 & Hm1 & _ & _ & Hw1 & Ho1).
  rewrite Hm, Hp in Hw1. cbn in Hw1. rewrite Hm in Hm1.
  destruct (only_printed_fields Ho1) as (Hf1 & Hn1 & Hd1 & _ & Hi1 & _ & _).
  pose proof (only_printed_in_string Ho1) as Hs1.
  assert (Hnl : char_at (pre ++ tok ++ [NL])
                  (Z.of_nat (List.length pre) + Z.of_nat (List.length tok))
                = NL) by apply char_at_after_token.
  pose proof (@scan_char_newline_stores_name (pre ++ tok ++ [NL]) no_align
                (Z.of_nat (List.length pre) + Z.of_nat (List.length tok))
                l1 w1 Hnl Hm1 ltac:(rewrite Hi1; exact Himp)
                ltac:(rewrite Hw1; lia)) as Hstep.
  apply fin_elim in Hstep.
  destruct Hstep as (r & w2 & Hrun & Hi2 & Hl2 & Hf2 & Hn2 & Hd2 & Hs2 & _).
  rewrite Hw1 in Hl2.
  replace (Z.of_nat (List.length pre) + Z.of_nat (List.length tok)
           - Z.of_nat (List.length pre))
    with (Z.of_nat (List.length tok)) in Hl2 by lia.
  rewrite substr_token in Hl2 by exact Hnul.
  exists w2. split; [exact (reaches_then_step R1 Hrun) |].
  assert (Hfacts : forall w0 : World,
            import_mode (st w0) = import_mode (st (next_line w2)) ->
            last_import_name (st w0)
            = last_import_name (st (next_line w2)) ->
            import_mode (st w0) = IB_ID /\ last_import_name (st w0) = tok)
    by (intros w0 -> ->; split; assumption).
  split.
  - (* the next line, linted to completion *)
    intros u w3 Hline.
    apply lint_line_code_inv in Hline.
    + destruct Hline
        as (na & w0 & Hscan & Hd0 & Hd0' & Hi0 & Hl0 & Hf0 & Hn0 & ds0
            & Hds0).
      destruct (Hfacts w0 Hi0 Hl0) as [Himp0 Hname0].
      destruct (@name_at_line_start m tok c post na w0 Hne Hplain Hnul Hlen
                  Hc Himp0 Hname0 ltac:(rewrite Hd0'; exact Hd0))
        as (l8 & w8 & r9 & w9 & before & R & Hrun9 & (ds8 & Hds8) & Hp9).
      replace (List.length (repeat " "%char m ++ tok ++ c :: post))
        with (m + List.length tok + S (List.length post))%nat in Hscan
        by (rewrite !length_app, repeat_length; cbn [List.length]; lia).
      rewrite R in Hscan. cbn [scan] in Hscan. unfold bind in Hscan.
      rewrite Z.add_0_l, Hrun9 in Hscan.
      assert (Htail : exists b, printed w3 = printed w9 ++ b).
      { destruct r9 as [l9 |].
        - exact (scan_appends _ _ _ _ _ _ Hscan).
        - unfold ret in Hscan. injection Hscan as _ <-.
          exists []. symmetry. apply app_nil_r. }
      destruct Htail as (b & Hb).
      exists (ds0 ++ ds8 ++ before), b.
      rewrite Hb, Hp9, Hds8, Hds0, Hf0, Hn0. unfold next_line. proj.
      rewrite Hf2, Hf1, Hn2, Hn1, <- !app_assoc. reflexivity.
    + destruct tok as [| c0 tok']; [exfalso; apply Hne; reflexivity |].
      rewrite !length_app, repeat_length. cbn [List.length]. lia.
    + destruct m as [| m]; [| reflexivity].
      destruct tok as [| c0 tok]; [exfalso; apply Hne; reflexivity |].
      inversion Hplain as [| x xs Hc0 _]; subst. apply Hc0.
    + unfold next_line. proj. rewrite Hs2, Hs1. exact Hstr.
  - (* a line that holds only the name runs to completion *)
    intros Hd.
    assert (Hfin : finishes
                     (lint_line (repeat " "%char m ++ tok ++ [NL]))
                     (next_line w2) (fun _ _ => True)).
    { set (line := repeat " "%char m ++ tok ++ [NL]).
      assert (Hlen2 : Z.of_nat (List.length line)
                      = Z.of_nat (m + List.length tok) + 1)
        by (unfold line; rewrite !length_app, repeat_length;
            cbn [List.length]; lia).
      assert (Hloop : forall w0 : World,
                import_mode (st w0) = IB_ID ->
                last_import_name (st w0) = tok ->
                depth (st w0) = depth (st w) ->
                forall na,
                  finishes (scan (List.length line) line na 0 line_start)
                    w0 (fun _ _ => True)).
      { intros w0 Hi0 Hl0 Hd0 na.
        destruct (@name_at_line_start m tok NL [] na w0 Hne Hplain Hnul
                    Hlen (or_intror (or_introl eq_refl)) Hi0 Hl0
                    ltac:(rewrite Hd0; exact Hd))
          as (l8 & w8 & r9 & w9 & before & R & Hrun9 & _ & _).
        fold line in R, Hrun9.
        replace (Z.of_nat (m + List.length tok))
          with (0 + Z.of_nat (m + List.length tok)) in Hrun9 by lia.
        pose proof (reaches_then_step R Hrun9) as Hdone.
        replace (S (m + List.length tok)) with (List.length line) in Hdone
          by lia.
        unfold finishes. rewrite Hdone. exact I. }
      unfold lint_line, next_line. fold line.
      apply fin_bind, fin_assert; [apply Z.gtb_lt; lia |].
      apply fin_bind, fin_assert.
      { unfold line.
        replace (repeat " "%char m ++ tok ++ [NL])
          with ((repeat " "%char m ++ tok) ++ [NL]) by reassoc.
        replace (Z.of_nat (List.length ((repeat " "%char m ++ tok) ++ [NL]))
                 - 1)
          with (Z.of_nat (List.length (repeat " "%char m ++ tok)))
          by (rewrite !length_app; cbn [List.length]; lia).
        rewrite char_at_middle. reflexivity. }
      apply fin_bind, fin_get.
      apply fin_bind, fin_assert;
        [apply Z.geb_le; proj; rewrite Hd2, Hd1; lia |].
      apply fin_bind, fin_assert;
        [apply Z.ltb_lt; proj; rewrite Hd2, Hd1; lia |].
      replace (Z.of_nat (List.length line) =? 1) with false
        by (symmetry; apply Z.eqb_neq; destruct tok;
            [exfalso; apply Hne; reflexivity
            | cbn [List.length] in Hlen2; lia]).
      replace (char_at line 0 =c ";") with false.
      2: { symmetry. unfold line. destruct m as [| m]; [| reflexivity].
           destruct tok as [| c0 tok']; [exfalso; apply Hne; reflexivity |].
           inversion Hplain as [| x xs Hc0 _]; subst. apply Hc0. }
      proj. rewrite Hs2, Hs1, Hstr. cbv zeta iota.
      fin_run idtac.
      all: apply Hloop; proj; try assumption; rewrite Hd2, Hd1; reflexivity. }
    apply fin_elim in Hfin. destruct Hfin as ([] & w3 & Hrun3 & _).
    exists w3. exact Hrun3.
Qed.

(** C10.  Equal neighbours in an import list, scanned by the loop of
    [lint_line]; [tok] is a word of characters that the scanner has no case
    for.
    - Names on one line: [correct_name_order] returns false on a word equal
      to the stored name.  Inside an ID block, whatever name is stored, the
      loop iterations over [tok], a space and [tok] again run to
      completion: the first [tok] is stored at the space, and the iteration
      on the character after the second one (a space, the newline or a
      closing delimiter) prints "incorrect import name ordering: tok > tok"
      at the second name's column as its last diagnostic.
    - Names on two lines: when [tok] ends a line, the loop stores it at the
      newline and ends; whenever the next line, which starts with [tok]
      after its indentation, is then linted to completion, the diagnostic
      is in its output, with the next line's number and the name's column;
      a next line that holds only the name is linted to completion.
    - Identifiers: [correct_id_order] returns true on a word equal to the
      stored identifier.  Inside a USE block, whatever identifier is
      stored, the iterations over two ID blocks [(tok names) (tok] run to
      completion: the first [tok] is stored, and the iteration on the
      character after the second one prints nothing.  The columns must fit
      the byte-wide entries of the alignment stack.
    - In [import_list_file], linted from the start of the file, exactly
      the repeated name is reported, also when the repetition and the
      second ID block are on lines of their own; the same list in ascending
      order passes. *)
Theorem consecutive_equal_names_rejected_equal_ids_accepted :
  forall (pre tok : list ascii) (names : list (list ascii)) (m : nat)
         (c : ascii) (post : list ascii) (no_align : bool) (l : Locals)
         (w : World),
    tok <> [] ->
    Forall plain_char tok ->
    ~ In NUL tok ->
    Z.of_nat (List.length tok) < MAX_COLUMNS ->
    mode l = NORMAL ->
    (let line := pre ++ tok ++ " "%char :: tok ++ c :: post in
     let first := Z.of_nat (List.length pre) in
     let second := first + Z.of_nat (List.length tok) + 1 in
     let k := (2 * List.length tok + 1)%nat in
     correct_name_order tok line second (Z.of_nat (List.length tok)) = false
     /\ (prev l = " "%char ->
         import_mode (st w) = IB_ID ->
         c = " "%char \/ c = NL \/ c = ")"%char \/ c = "]"%char ->
         exists w1 w2 before,
           scan k line no_align first l w = Done (tt, w1)
           /\ scan (S k) line no_align first l w = Done (tt, w2)
           /\ printed w2
              = printed w1 ++ before
                ++ [mkDiag (filename (st w)) (lineno (st w)) (second + 1)
                      (name_order_message tok tok)]))
    /\ (let line1 := pre ++ tok ++ [NL] in
        let line2 := repeat " "%char m ++ tok ++ c :: post in
        prev l = " "%char ->
        import_mode (st w) = IB_ID ->
        in_string (st w) = false ->
        c = " "%char \/ c = NL \/ c = ")"%char \/ c = "]"%char ->
        exists w1,
          scan (S (List.length tok)) line1 no_align
            (Z.of_nat (List.length pre)) l w = Done (tt, w1)
          /\ (forall (u : unit) (w2 : World),
                lint_line line2 (next_line w1) = Done (u, w2) ->
                exists a b,
                  printed w2
                  = printed w1 ++ a
                    ++ mkDiag (filename (st w)) (int_incr (lineno (st w)))
                         (Z.of_nat m + 1) (name_order_message tok tok)
                       :: b)
          /\ (0 <= depth (st w) < MAX_DEPTH ->
              exists w2,
                lint_line (repeat " "%char m ++ tok ++ [NL]) (next_line w1)
                = Done (tt, w2)))
    /\ (let line := pre ++ "("%char :: tok ++ " "%char :: spaced names
                        ++ ")"%char :: " "%char :: "("%char :: tok
                        ++ c :: post in
        let first := Z.of_nat (List.length pre) in
        let second := first + Z.of_nat (List.length tok)
                      + Z.of_nat (List.length (spaced names)) + 5 in
        let k := (2 * List.length tok + List.length (spaced names) + 5)%nat in
        correct_id_order tok line second (Z.of_nat (List.length tok)) = true
        /\ (names <> [] ->
            Forall import_word names ->
            second < 256 ->
            import_mode (st w) = IB_USE ->
            0 <= depth (st w) < MAX_DEPTH - 1 ->
            List.length (stack (st w)) = Z.to_nat MAX_DEPTH ->
            c = " "%char \/ c = NL ->
            exists w1 w2,
              scan k line no_align first l w = Done (tt, w1)
              /\ scan (S k) line no_align first l w = Done (tt, w2)
              /\ printed w2 = printed w1))
    /\ printed_of (run_world import_list_file)
       = Some [mkDiag "f.ss" 2 18 (name_order_message (lit "foo") (lit "foo"))]
    /\ printed_of (run_world import_list_file_by_line)
       = Some [mkDiag "f.ss" 3 14 (name_order_message (lit "foo") (lit "foo"))]
    /\ printed_of (run_world ordered_import_list_file) = Some [].
Proof.
  intros pre tok names m c post no_align l w Hne Hplain Hnul Hlen Hm.
  split; [| split; [| split; [| repeat split; vm_compute; reflexivity]]].
  - cbv zeta. split.
    + replace (pre ++ tok ++ " "%char :: tok ++ c :: post)
        with ((pre ++ tok ++ [" "%char]) ++ tok ++ c :: post) by reassoc.
      replace (Z.of_nat (List.length pre) + Z.of_nat (List.length tok) + 1)
        with (Z.of_nat (List.length (pre ++ tok ++ [" "%char])))
        by len_lia.
      apply correct_name_order_equal. exact Hlen.
    + intros Hp Himp Hc.
      destruct (@names_twice pre tok c post no_align l w Hne Hplain Hnul
                  Hlen Hc Hm Hp Himp) as (w1 & w2 & before & H1 & H2 & H3).
      exists w1, w2, before. split; [exact H1 | split; [exact H2 |]].
      rewrite H3.
      replace (Z.of_nat (List.length pre) + Z.of_nat (List.length tok) + 1
               + 1)
        with (Z.of_nat (List.length pre) + Z.of_nat (List.length tok) + 2)
        by lia.
      reflexivity.
  - cbv zeta. intros Hp Himp Hstr Hc.
    exact (@names_on_two_lines pre tok m c post no_align l w Hne Hplain
             Hnul Hlen Hc Hm Hp Himp Hstr).
  - cbv zeta. split.
    + replace (pre ++ "("%char :: tok ++ " "%char :: spaced names
                   ++ ")"%char :: " "%char :: "("%char :: tok ++ c :: post)
        with ((pre ++ "("%char :: tok ++ " "%char :: spaced names
                   ++ [")"%char; " "%char; "("%char])
              ++ tok ++ c :: post) by reassoc.
      replace (Z.of_nat (List.length pre) + Z.of_nat (List.length tok)
               + Z.of_nat (List.length (spaced names)) + 5)
        with (Z.of_nat
                (List.length
                   (pre ++ "("%char :: tok ++ " "%char :: spaced names
                        ++ [")"%char; " "%char; "("%char])))
        by len_lia.
      apply correct_id_order_equal. exact Hnul.
    + intros Hnm Pnm Hcol Himp Hd Hstack Hc.
      exact (@ids_twice pre tok names c post no_align l w Hne Hplain Hnm
               Pnm Hnul Hlen Hcol Hc Hm Himp Hd Hstack).
Qed.

Lemma consecutive_equal_names_rejected_equal_ids_accepted_witness :
  (exists w1 w2 before,
     scan 7 (lit "  (use (:1.2 " ++ lit "foo" ++ " "%char :: lit "foo"
                 ++ ")"%char :: ln ")")
       false 13 (mkLocals " " false false 8 NORMAL) after_id = Done (tt, w1)
     /\ scan 8 (lit "  (use (:1.2 " ++ lit "foo" ++ " "%char :: lit "foo"
                    ++ ")"%char :: ln ")")
          false 13 (mkLocals " " false false 8 NORMAL) after_id
        = Done (tt, w2)
     /\ printed w2
        = printed w1 ++ before
          ++ [mkDiag "f.ss" 2 18
                "incorrect import name ordering: foo > foo"])
  /\ (exists w1 w2 a b,
        scan 4 (lit "  (use (:1.2 " ++ lit "foo" ++ [NL]) false 13
          (mkLocals " " false false 8 NORMAL) after_id = Done (tt, w1)
        /\ lint_line (repeat " "%char 13 ++ lit "foo" ++ [NL]) (next_line w1)
           = Done (tt, w2)
        /\ printed w2
           = printed w1 ++ a
             ++ mkDiag "f.ss" 3 14
                  "incorrect import name ordering: foo > foo" :: b)
  /\ (exists w1 w2,
        scan 20 (lit "  (use " ++ "("%char :: lit ":1.2" ++ " "%char
                     :: lit "foo goo" ++ ")"%char :: " "%char :: "("%char
                     :: lit ":1.2" ++ " "%char :: ln "bar)))")
          false 7 (mkLocals " " false false 3 NORMAL) before_id_block
        = Done (tt, w1)
        /\ scan 21 (lit "  (use " ++ "("%char :: lit ":1.2" ++ " "%char
                        :: lit "foo goo" ++ ")"%char :: " "%char :: "("%char
                        :: lit ":1.2" ++ " "%char :: ln "bar)))")
             false 7 (mkLocals " " false false 3 NORMAL) before_id_block
           = Done (tt, w2)
        /\ printed w2 = printed w1).
Proof.
  assert (Hplain : forall s : list ascii,
            forallb (fun c => negb ((c =c TAB) || (c =c DQUOTE) || (c =c ";")
                                    || (c =c "(") || (c =c "[") || (c =c ")")
                                    || (c =c "]") || (c =c " ") || (c =c NL)))
              s = true ->
            Forall plain_char s).
  { intros s Hs. apply Forall_forall. intros x Hx.
    apply (proj1 (forallb_forall _ s) Hs) in Hx.
    apply negb_true_iff in Hx. repeat (apply orb_false_elim in Hx;
                                         destruct Hx as [Hx ?]).
    repeat split; assumption. }
  assert (Hnul : forall s : list ascii,
            forallb (fun c => negb (c =c NUL)) s = true -> ~ In NUL s).
  { intros s Hs Hin. apply (proj1 (forallb_forall _ s) Hs) in Hin.
    discriminate Hin. }
  split; [| split].
  - destruct (@consecutive_equal_names_rejected_equal_ids_accepted
                (lit "  (use (:1.2 ") (lit "foo") [] 0 ")" (ln ")") false
                (mkLocals " " false false 8 NORMAL) after_id)
      as [[_ H] _].
    + discriminate.
    + apply Hplain. reflexivity.
    + apply Hnul. reflexivity.
    + vm_compute. reflexivity.
    + reflexivity.
    + apply H; [reflexivity | reflexivity |].
      right. right. left. reflexivity.
  - destruct (@consecutive_equal_names_rejected_equal_ids_accepted
                (lit "  (use (:1.2 ") (lit "foo") [] 13 NL [] false
                (mkLocals " " false false 8 NORMAL) after_id)
      as [_ [H _]].
    + discriminate.
    + apply Hplain. reflexivity.
    + apply Hnul. reflexivity.
    + vm_compute. reflexivity.
    + reflexivity.
    + destruct H as (w1 & Hrest & Hnext & Hdone).
      * reflexivity.
      * reflexivity.
      * reflexivity.
      * right. left. reflexivity.
      * destruct Hdone as (w2 & Hrun).
        { unfold after_id. cbn [st depth]. unfold MAX_DEPTH. lia. }
        destruct (Hnext tt w2 Hrun) as (a & b & Hprinted).
        exists w1, w2, a, b.
        split; [exact Hrest | split; [exact Hrun | exact Hprinted]].
  - destruct (@consecutive_equal_names_rejected_equal_ids_accepted
                (lit "  (use ") (lit ":1.2") [lit "foo"; lit "goo"] 0 " "
                (ln "bar)))") false
                (mkLocals " " false false 3 NORMAL) before_id_block)
      as [_ [_ [[_ H] _]]].
    + discriminate.
    + apply Hplain. reflexivity.
    + apply Hnul. reflexivity.
    + vm_compute. reflexivity.
    + reflexivity.
    + apply H.
      * discriminate.
      * repeat constructor; try discriminate;
          try (apply Hplain; reflexivity); vm_compute; reflexivity.
      * vm_compute. reflexivity.
      * reflexivity.
      * unfold before_id_block. cbn [st depth]. unfold MAX_DEPTH. lia.
      * reflexivity.
      * left. reflexivity.
Defined.
